(** * PR statistics and project synchronisation scripts

    A shallow embedding of the two automation scripts of the repository,
    [.github/scripts/get-pr-stats.js] (the statistics collector) and
    [.github/scripts/log-to-project.js] (the project syncer), together with
    the properties that the specification states about them.

    Conventions of the embedding.
    - A JavaScript string is a list of code units, [list ascii]; the model
      covers strings whose code units are below 256.
    - A JavaScript integer-valued number that the scripts only compare, count
      or print (a PR number, an issue number, the line count of one file)
      is an [N]; the two agree on the integers below 2^53. The totals that
      the collector adds up are binary64 numbers, as every number that the
      scripts compute with.
    - The arithmetic of the effort score is IEEE-754 binary64, as the
      JavaScript engine evaluates it: [spec_float] with the operations of
      the standard library's [SpecFloat] at precision 53 and [emax] 1024.
    - The GitHub service is an interface of operations on an abstract
      service state; awaited calls are sequenced in a state-and-exception
      monad; [while] loops take fuel, and running out of fuel is a result
      of its own, distinct from returning and from throwing. *)

From Stdlib Require Import Ascii String.
From Stdlib Require Import List Bool Arith NArith ZArith Lia.
From Stdlib Require Import SpecFloat.
From Stdlib Require QArith DecimalN DecimalPos Permutation.
From Stdlib Require PrimFloat FloatOps FloatAxioms Uint63.
Import ListNotations.

Set Implicit Arguments.

(* ================================================================== *)
(** * Part I: definitions                                              *)
(* ================================================================== *)

(** ** JavaScript strings *)

Module Js.

Definition str := list ascii.

(** A string literal of the source. *)
Definition lit (s : string) : str := list_ascii_of_string s.

Definition code (c : ascii) : N := N_of_ascii c.

Definition chr (n : N) : ascii := ascii_of_N n.

(** The double quote character, which the templates of the source embed. *)
Definition dquote : str := [chr 34].

Definition newline : str := [chr 10].

Definition str_eqb (a b : str) : bool :=
  if list_eq_dec ascii_dec a b then true else false.

(** [String.prototype.startsWith]: [strip_prefix p s] is the rest of [s]
    after the prefix [p], when [s] starts with [p]. *)
Fixpoint strip_prefix (p s : str) : option str :=
  match p, s with
  | [], _ => Some s
  | _ :: _, [] => None
  | a :: p', b :: s' => if Ascii.eqb a b then strip_prefix p' s' else None
  end.

Definition starts_with (p s : str) : bool :=
  match strip_prefix p s with Some _ => true | None => false end.

(** [String.prototype.includes]. *)
Fixpoint includes (s p : str) : bool :=
  starts_with p s ||
  match s with
  | [] => false
  | _ :: s' => includes s' p
  end.

(** [String.prototype.toLowerCase] on code units below 256: the ASCII
    capitals and the Latin-1 capitals (all of 192..222 but the
    multiplication sign 215) move up by 32. *)
Definition lower_char (c : ascii) : ascii :=
  let n := code c in
  if ((65 <=? n) && (n <=? 90))%N then chr (n + 32)
  else if ((192 <=? n) && (n <=? 222) && negb (n =? 215))%N then chr (n + 32)
  else c.

Definition toLowerCase (s : str) : str := map lower_char s.

(** White space in the sense of [String.prototype.trim], below 256:
    TAB, LF, VT, FF, CR, space and the no-break space. *)
Definition is_space (c : ascii) : bool :=
  let n := code c in
  ((9 <=? n) && (n <=? 13) || (n =? 32) || (n =? 160))%N.

(** Line terminators, which the [.] of a regular expression refuses:
    LF and CR (the others are above 255). *)
Definition is_line_terminator (c : ascii) : bool :=
  let n := code c in ((n =? 10) || (n =? 13))%N.

Fixpoint trim_start (s : str) : str :=
  match s with
  | c :: s' => if is_space c then trim_start s' else s
  | [] => []
  end.

Definition trim_end (s : str) : str := rev (trim_start (rev s)).

Definition trim (s : str) : str := trim_end (trim_start s).

(** The class [\d] of a regular expression. *)
Definition is_digit (c : ascii) : bool :=
  let n := code c in ((48 <=? n) && (n <=? 57))%N.

Definition digit_value (c : ascii) : N := code c - 48.

(** The longest prefix whose characters satisfy [p], and the rest. *)
Fixpoint span (p : ascii -> bool) (s : str) : str * str :=
  match s with
  | c :: s' =>
      if p c then let '(a, b) := span p s' in (c :: a, b) else ([], s)
  | [] => ([], [])
  end.

(** [parseInt] on a string of decimal digits (exact, where JavaScript
    rounds a value of 2^53 or more to a binary64 number). *)
Definition parseInt (digits : str) : N :=
  fold_left (fun acc c => (10 * acc + digit_value c)%N) digits 0%N.

(** The decimal rendering of a non-negative integer, as a template
    literal prints it. *)
Fixpoint uint_chars (d : Decimal.uint) : str :=
  match d with
  | Decimal.Nil => []
  | Decimal.D0 d => chr 48 :: uint_chars d
  | Decimal.D1 d => chr 49 :: uint_chars d
  | Decimal.D2 d => chr 50 :: uint_chars d
  | Decimal.D3 d => chr 51 :: uint_chars d
  | Decimal.D4 d => chr 52 :: uint_chars d
  | Decimal.D5 d => chr 53 :: uint_chars d
  | Decimal.D6 d => chr 54 :: uint_chars d
  | Decimal.D7 d => chr 55 :: uint_chars d
  | Decimal.D8 d => chr 56 :: uint_chars d
  | Decimal.D9 d => chr 57 :: uint_chars d
  end.

Definition decimal (n : N) : str := uint_chars (N.to_uint n).

(** The text whose lines are [ls]: the lines with a line feed between
    each two of them. *)
Fixpoint unlines (ls : list str) : str :=
  match ls with
  | [] => []
  | [l] => l
  | l :: rest => l ++ newline ++ unlines rest
  end.

End Js.

Import Js.

(** ** IEEE-754 binary64 numbers

    A JavaScript number is a binary64 float. Its operations are the
    correctly rounded ones of [SpecFloat] (round to nearest, ties to even)
    at precision 53; [Math.sqrt] is the correctly rounded square root, as
    the engine of Node.js computes it. *)

Module Float64.

Definition prec : Z := 53.
Definition emax : Z := 1024.

Definition float := spec_float.

Definition nan : float := S754_nan.

(** The number that an integer denotes (exact below 2^53, rounded above). *)
Definition of_Z (z : Z) : float := binary_normalize prec emax z 0 false.
Definition of_N (n : N) : float := of_Z (Z.of_N n).

Definition add : float -> float -> float := SFadd prec emax.
Definition sub : float -> float -> float := SFsub prec emax.
Definition mul : float -> float -> float := SFmul prec emax.
Definition div : float -> float -> float := SFdiv prec emax.
Definition sqrt : float -> float := SFsqrt prec emax.

(** An integer with the sign of a zero result given apart. *)
Definition of_Z_signed (s : bool) (q : Z) : float :=
  binary_normalize prec emax (if s then - q else q)%Z 0 s.

(** [Math.floor]: the largest integer not above the argument; infinities,
    NaN and the two zeros are returned as they are. For a finite
    [m * 2^e] with [e < 0] the integer part is [m] shifted right by [-e]
    bits; a negative number with a fractional part moves one further
    down. *)
Definition floor (x : float) : float :=
  match x with
  | S754_finite s m e =>
      if (0 <=? e)%Z then x
      else
        let q := Z.shiftr (Zpos m) (- e) in
        let exact := (Z.shiftl q (- e) =? Zpos m)%Z in
        if s then of_Z_signed true (if exact then q else q + 1)%Z
        else of_Z_signed false q
  | _ => x
  end.

(** The numeric order on floats; [None] when either side is NaN. *)
Definition compare : float -> float -> option comparison := SFcompare.

(** [x <= y], false when either side is NaN. *)
Definition leb : float -> float -> bool := SFleb.

Definition is_nan (x : float) : bool :=
  match x with S754_nan => true | _ => false end.

(** [x < 0]. *)
Definition is_negative (x : float) : bool :=
  match x with
  | S754_finite true _ _ | S754_infinity true => true
  | _ => false
  end.

(** [x] is a zero, a finite number or an infinity with sign bit [s]. *)
Definition has_sign (s : bool) (x : float) : bool :=
  match x with
  | S754_zero s' | S754_infinity s' | S754_finite s' _ _ => Bool.eqb s s'
  | S754_nan => false
  end.

(** Not NaN and sign bit clear: [+0], a positive number or [+Infinity]. *)
Definition nonneg (x : float) : bool := has_sign false x.

(** The rational number that a zero or a finite float denotes. *)
Definition to_Q (x : float) : option QArith_base.Q :=
  match x with
  | S754_zero _ => Some (QArith_base.inject_Z 0)
  | S754_finite s m e =>
      Some (QArith_base.Qmult
              (QArith_base.inject_Z (if s then Zneg m else Zpos m))
              (QArith_base.Qpower (QArith_base.Qmake 2 1) e))
  | _ => None
  end.

(** A list of numbers in which each is [<=] the next. *)
Fixpoint ascending (l : list float) : bool :=
  match l with
  | x :: (y :: _) as tl => leb x y && ascending tl
  | _ => true
  end.

End Float64.

(** ** The statistics collector ([get-pr-stats.js]) *)

Module Stats.

Import Float64.

(** One entry of the file listing of a pull request. A numeric field that
    the service leaves out is [None] (the source reads it as
    [file.additions || 0]). *)
Record File := {
  filename : str;
  status : str;
  additions : option N;
  deletions : option N;
  changes : option N
}.

Definition perPage : nat := 100.

(** The page-based loop of the source. [listFiles page] is the [data] of
    the response to the request for page [page] with [per_page] 100. The
    loop stops on an empty page and after a page shorter than [perPage];
    [None] is the loop that has not stopped when the fuel is spent. *)
Fixpoint fetchAllFiles (listFiles : nat -> list File) (fuel : nat)
    (page : nat) (allFiles : list File) : option (list File) :=
  match fuel with
  | O => None
  | S fuel' =>
      let data := listFiles page in
      if (length data =? 0)%nat then Some allFiles
      else
        let allFiles := allFiles ++ data in
        if (length data <? perPage)%nat then Some allFiles
        else fetchAllFiles listFiles fuel' (S page) allFiles
  end.

Definition or_zero (x : option N) : N :=
  match x with Some n => n | None => 0%N end.

(** The totals of the source, [additions += file.additions || 0] and the
    like: the accumulator starts at [0] and every file adds its count in
    binary64, with one rounding at each addition. A count of the listing
    is the number that its decimal digits denote, [of_N]. *)
Definition sum_by (f : File -> option N) (files : list File) : float :=
  fold_left (fun acc file => add acc (of_N (or_zero (f file)))) files (of_N 0).

(** The literal [0.2]: the binary64 number nearest to 2/10. *)
Definition c0_2 : float := div (of_N 2) (of_N 10).

(** The literal [1.0]. *)
Definition c1_0 : float := of_N 1.

(** Lines 64 to 67 of the source. *)
Definition lineScore (additions deletions : float) : float :=
  add (mul deletions c0_2) (mul additions c1_0).

Definition lineScoreUnit : float := of_N 200.

Definition lineScoreUnitCount (additions deletions : float) : float :=
  floor (div (lineScore additions deletions) lineScoreUnit).

(** The argument of the second square root. *)
Definition remainder (additions deletions : float) : float :=
  sub (lineScore additions deletions)
      (mul (lineScoreUnitCount additions deletions) lineScoreUnit).

Definition effort (additions deletions : float) : float :=
  add (mul (lineScoreUnitCount additions deletions) (sqrt lineScoreUnit))
      (sqrt (remainder additions deletions)).

(** The record that the script writes ([changedLines] apart, which carries
    no information beyond the file names). *)
Record ChangeStats := {
  filesChanged : nat;
  st_additions : float;
  st_deletions : float;
  totalChanges : float;
  st_effort : float;
  files : list str
}.

Definition computeStats (allFiles : list File) : ChangeStats :=
  let additions := sum_by additions allFiles in
  let deletions := sum_by deletions allFiles in
  {| filesChanged := length allFiles;
     st_additions := additions;
     st_deletions := deletions;
     totalChanges := sum_by changes allFiles;
     st_effort := effort additions deletions;
     files := map filename allFiles |}.

(** The script: fetch every page, then aggregate. *)
Definition getPrStats (listFiles : nat -> list File) (fuel : nat)
    : option ChangeStats :=
  option_map computeStats (fetchAllFiles listFiles fuel 1 []).

(** A listing endpoint that serves the changed files [all] in pages of
    [perPage], the first page being page 1. *)
Definition pages_of (all : list File) (page : nat) : list File :=
  firstn perPage (skipn ((page - 1) * perPage) all).

(** The line counts [0 .. bound - 1] as numbers. *)
Definition line_counts (bound : nat) : list float :=
  map (fun n => of_N (N.of_nat n)) (seq 0 bound).

(** The efforts over a grid: one row for each count of deletions of [ys],
    with one number for each count of additions of [xs]. *)
Definition effort_rows (xs ys : list float) : list (list float) :=
  map (fun d => map (fun a => effort a d) xs) ys.

(** Each number of [r1] is [<=] the number of [r2] at the same place. *)
Fixpoint below (r1 r2 : list float) : bool :=
  match r1, r2 with
  | x :: r1', y :: r2' => leb x y && below r1' r2'
  | _, _ => true
  end.

(** Each row is below the next one. *)
Fixpoint rows_ascending (rows : list (list float)) : bool :=
  match rows with
  | r1 :: (r2 :: _) as tl => below r1 r2 && rows_ascending tl
  | _ => true
  end.

(** A check of the effort over the grid: every value is a non-negative
    number, the values ascend along the additions for each count of
    deletions, and along the deletions for each count of additions. *)
Definition grid_ok (xs ys : list float) : bool :=
  let rows := effort_rows xs ys in
  forallb (fun row => forallb nonneg row && ascending row) rows
  && rows_ascending rows.

(** The formula of the specification, section 4.1, read in binary64
    arithmetic. *)
Definition spec_effort (additions deletions : float) : float :=
  let lineScore := add (mul deletions c0_2) (mul additions c1_0) in
  let unit := of_N 200 in
  let unitCount := floor (div lineScore unit) in
  add (mul unitCount (sqrt unit)) (sqrt (sub lineScore (mul unitCount unit))).

End Stats.

(** ** The effort on the floats of the machine

    The formula of the effort once more, on the primitive binary64 floats
    of the proof assistant, whose operations the processor evaluates. It
    serves to evaluate the model over many inputs: the standard library
    states, as the axioms of [FloatAxioms], that each primitive operation
    is the operation of [SpecFloat] at precision 53, and the properties
    below carry every evaluated fact over to [Stats.effort]. There is no
    primitive [Math.floor]: the unit count is computed from the mantissa
    and the exponent, together with the check that it is an integer [n]
    with [n <= q < n + 1]. *)

Module Machine.

Definition of_count (n : nat) : PrimFloat.float :=
  PrimFloat.of_uint63 (Uint63.of_Z (Z.of_nat n)).

Definition c0_2 : PrimFloat.float :=
  Eval vm_compute in PrimFloat.div (of_count 2) (of_count 10).

Definition c1_0 : PrimFloat.float := Eval vm_compute in of_count 1.

Definition lineScoreUnit : PrimFloat.float :=
  Eval vm_compute in of_count 200.

Definition sqrt_unit : PrimFloat.float :=
  Eval vm_compute in PrimFloat.sqrt lineScoreUnit.

(** The numbers 1, 2154 (the exponent of 2^53 as [frshiftexp] counts
    it) and 2^52. *)
Definition one : PrimInt63.int := Eval vm_compute in Uint63.of_Z 1.
Definition top_exponent : PrimInt63.int := Eval vm_compute in Uint63.of_Z 2154.
Definition two_52 : PrimInt63.int :=
  Eval vm_compute in Uint63.of_Z 4503599627370496.

Definition lineScore (additions deletions : PrimFloat.float)
    : PrimFloat.float :=
  PrimFloat.add (PrimFloat.mul deletions c0_2) (PrimFloat.mul additions c1_0).

(** The integer part of a float below 2^63 that is not negative. *)
Definition truncate (q : PrimFloat.float) : PrimInt63.int :=
  let (m, e) := PrimFloat.frshiftexp q in
  PrimInt63.lsr (PrimFloat.normfr_mantissa m)
                (PrimInt63.sub top_exponent e).

(** [n <= q < n + 1], for an [n] below 2^52. *)
Definition is_floor (n : PrimInt63.int) (q : PrimFloat.float) : bool :=
  PrimInt63.ltb n two_52
  && PrimFloat.leb (PrimFloat.of_uint63 n) q
  && PrimFloat.ltb q (PrimFloat.of_uint63 (PrimInt63.add n one)).

(** The effort, with the check that the unit count is the floor. *)
Definition effort (additions deletions : PrimFloat.float)
    : PrimFloat.float * bool :=
  let score := lineScore additions deletions in
  let q := PrimFloat.div score lineScoreUnit in
  let n := truncate q in
  let count := PrimFloat.of_uint63 n in
  (PrimFloat.add (PrimFloat.mul count sqrt_unit)
     (PrimFloat.sqrt
        (PrimFloat.sub score (PrimFloat.mul count lineScoreUnit))),
   is_floor n q).

Definition counts (bound : nat) : list PrimFloat.float :=
  map of_count (seq 0 bound).

Definition effort_row (xs : list PrimFloat.float) (d : PrimFloat.float)
    : list (PrimFloat.float * bool) :=
  map (fun a => effort a d) xs.

Fixpoint ascending (row : list (PrimFloat.float * bool)) : bool :=
  match row with
  | x :: (y :: _) as tl => PrimFloat.leb (fst x) (fst y) && ascending tl
  | _ => true
  end.

Fixpoint below (r1 r2 : list (PrimFloat.float * bool)) : bool :=
  match r1, r2 with
  | x :: r1', y :: r2' => PrimFloat.leb (fst x) (fst y) && below r1' r2'
  | _, _ => true
  end.

Definition row_ok (row : list (PrimFloat.float * bool)) : bool :=
  forallb (fun x => snd x && PrimFloat.leb PrimFloat.zero (fst x)) row
  && ascending row.

(** The rows of the grid one after the other, each against the row
    before it. *)
Fixpoint rows_ok (xs : list PrimFloat.float)
    (previous : list (PrimFloat.float * bool))
    (ds : list PrimFloat.float) : bool :=
  match ds with
  | [] => true
  | d :: ds' =>
      let row := effort_row xs d in
      row_ok row && below previous row && rows_ok xs row ds'
  end.

(** The check of the grid of the counts below the two bounds. *)
Definition grid_ok (additions deletions : N) : bool :=
  rows_ok (counts (N.to_nat additions)) [] (counts (N.to_nat deletions)).

End Machine.

(** ** The project syncer ([log-to-project.js]) *)

Module Sync.

(** *** Values exchanged with the service *)

(** What a script can throw. [ApiError] is an error raised by a call to the
    service, with its message; the others are the errors that
    [findProject] constructs, named after what their text says. *)
Inductive Error :=
| ApiError (message : str)
| PermissionDenied (orgLogin : str)
| CannotAccessOrganization (orgLogin : str)
| NoProjectsFound (orgLogin : str)
| ProjectNotFound (projectName orgLogin : str) (available : list str).

(** The console lines that the properties below refer to; the progress
    messages of the scripts are not recorded. *)
Inductive ConsoleLine :=
| WarningProjectClosed (projectName : str)
| CouldNotGetUserId (error : Error)
| CouldNotCheckProjectItems (error : Error)
| CouldNotAddIssueToProject (error : Error)
| CouldNotUpdateField (what : str) (error : Error)
| CouldNotUpdateAssignee (error : Error)
| ErrorLoggingToProject (error : Error).

(** The response of a call: its data, or the message of the error that the
    client raises. *)
Inductive Response (A : Type) :=
| Ok (data : A)
| Failed (message : str).
Arguments Ok {A} data.
Arguments Failed {A} message.

Section Syncer.

(** Identifiers and cursors are opaque to the scripts: they are received
    from the service and handed back to it. A JavaScript value that may be
    [null] or [undefined] is an [option]. *)
Variables NodeId Cursor World : Type.

Record Project := {
  id : NodeId;
  title : str;
  number : N;
  closed : bool
}.

(** A field of a project. Only a single-select field has [options]. *)
Record FieldOption := {
  option_id : NodeId;
  option_name : str
}.

Record Field := {
  field_id : NodeId;
  field_name : str;
  dataType : str;
  options : option (list FieldOption)
}.

(** The [value] of [updateProjectV2ItemFieldValue]. A number is given by
    the text that prints it. *)
Inductive FieldValue :=
| NumberValue (number : str)
| TextValue (text : str)
| SingleSelectValue (singleSelectOptionId : NodeId).

(** The content of a project item: an issue with the selected fields, or
    something that is not an issue (the fragment [... on Issue] then
    selects nothing). *)
Record Issue := {
  issue_id : NodeId;
  issue_number : N;
  issue_title : str;
  issue_body : option str
}.

Inductive Content :=
| IssueContent (issue : Issue)
| OtherContent.

Record ItemNode := {
  item_id : NodeId;
  item_content : option Content
}.

Record PageInfo := {
  hasNextPage : bool;
  endCursor : option Cursor
}.

(** [node.items] of the answer to the item listing. *)
Record ItemsData := {
  nodes : list ItemNode;
  pageInfo : option PageInfo
}.

Record SearchHit := {
  hit_number : N;
  hit_node_id : NodeId
}.

(** The search of the source,
    [repo:<owner>/<repo> is:issue "<phrase>" in:title], by its parts. *)
Record SearchQuery := {
  q_owner : str;
  q_repo : str;
  q_phrase : str
}.

Definition query_text (q : SearchQuery) : str :=
  lit "repo:" ++ q_owner q ++ lit "/" ++ q_repo q ++ lit " is:issue " ++
  dquote ++ q_phrase q ++ dquote ++ lit " in:title".

(** The fields of an issue that [issues.update] and [issues.create] send. *)
Record IssueFields := {
  f_title : str;
  f_body : str;
  f_assignees : list str
}.

(** The operations of the service that the script calls. Each takes the
    state of the service to a response and a new state. *)
Record GitHub := {
  (** [findProjectQuery]: [organization] of the answer ([None] when it is
      null), and in it [projectsV2.nodes] ([None] when absent). *)
  graphql_projects : str -> World -> Response (option (option (list Project))) * World;
  (** [getProjectFieldsQuery]: [node.fields.nodes] of the answer ([None]
      when absent). *)
  graphql_fields : NodeId -> World -> Response (option (list Field)) * World;
  (** [getUserQuery]: [user.id] of the answer ([None] when absent). *)
  graphql_user : str -> World -> Response (option NodeId) * World;
  (** [getProjectItemsQuery] with [first: 100] after a cursor:
      [node.items] of the answer ([None] when absent). *)
  graphql_items : NodeId -> nat -> option Cursor -> World -> Response (option ItemsData) * World;
  (** [search.issuesAndPullRequests]: [data.items] of the answer. *)
  rest_search : SearchQuery -> World -> Response (option (list SearchHit)) * World;
  (** [issues.update] of the issue [issue_number] of [owner/repo]. *)
  rest_issues_update : str -> str -> N -> IssueFields -> World -> Response unit * World;
  (** [issues.create] in [owner/repo]: number and node id of the new issue. *)
  rest_issues_create : str -> str -> IssueFields -> World -> Response (N * NodeId) * World;
  (** [addProjectV2ItemById]: [addProjectV2ItemById.item.id] of the answer. *)
  graphql_add_item : NodeId -> NodeId -> World -> Response (option NodeId) * World;
  (** [updateProjectV2ItemFieldValue] of a field of an item of a project. *)
  graphql_update_field : NodeId -> NodeId -> NodeId -> FieldValue -> World -> Response unit * World;
  (** [issues.addAssignees] to the issue [issue_number] of [owner/repo]. *)
  rest_issues_addAssignees : str -> str -> N -> list str -> World -> Response unit * World
}.

Variable api : GitHub.

(** *** The monad of the script *)

Record State := {
  world : World;
  console : list ConsoleLine
}.

Inductive Outcome (A : Type) :=
| Returned (a : A) (s : State)
| Thrown (e : Error) (s : State)
| OutOfFuel.
Arguments Returned {A} a s.
Arguments Thrown {A} e s.
Arguments OutOfFuel {A}.

Definition M (A : Type) := State -> Outcome A.

Definition ret {A} (a : A) : M A := fun s => Returned a s.

Definition throw {A} (e : Error) : M A := fun s => Thrown e s.

Definition bind {A B} (m : M A) (k : A -> M B) : M B :=
  fun s =>
    match m s with
    | Returned a s' => k a s'
    | Thrown e s' => Thrown e s'
    | OutOfFuel => OutOfFuel
    end.

(** [try { m } catch (error) { handler }]. *)
Definition try_catch {A} (m : M A) (handler : Error -> M A) : M A :=
  fun s =>
    match m s with
    | Returned a s' => Returned a s'
    | Thrown e s' => handler e s'
    | OutOfFuel => OutOfFuel
    end.

(** An awaited call of the service. *)
Definition call {A} (op : World -> Response A * World) : M A :=
  fun s =>
    let '(r, w) := op (world s) in
    let s' := {| world := w; console := console s |} in
    match r with
    | Ok a => Returned a s'
    | Failed m => Thrown (ApiError m) s'
    end.

Definition log (l : ConsoleLine) : M unit :=
  fun s => Returned tt {| world := world s; console := console s ++ [l] |}.

Notation "x <- m ;; k" := (bind m (fun x => k))
  (at level 61, m at next level, right associativity).
Notation "m ;;; k" := (bind m (fun _ => k))
  (at level 61, right associativity).

(** *** Step A: [findProject] *)

(** [projects.find(p => ...)] with the three tests of the source. *)
Definition exact_match (projectName : str) (p : Project) : bool :=
  str_eqb (title p) projectName.

Definition nocase_match (projectName : str) (p : Project) : bool :=
  str_eqb (toLowerCase (title p)) (toLowerCase projectName).

Definition partial_match (projectName : str) (p : Project) : bool :=
  includes (toLowerCase (title p)) (toLowerCase projectName).

Definition or_else {A} (x y : option A) : option A :=
  match x with Some _ => x | None => y end.

(** Lines 63 to 74: the project that the three searches select. *)
Definition selectProject (projects : list Project) (projectName : str)
    : option Project :=
  or_else (find (exact_match projectName) projects)
    (or_else (find (nocase_match projectName) projects)
             (find (partial_match projectName) projects)).

Definition findProject (orgLogin projectName : str) : M Project :=
  findProjectResult <-
    try_catch (call (graphql_projects api orgLogin))
      (fun error =>
         match error with
         | ApiError message =>
             if includes message (lit "Must have admin rights")
                || includes message (lit "permission")
             then throw (PermissionDenied orgLogin)
             else throw error
         | _ => throw error
         end) ;;
  match findProjectResult with
  | None => throw (CannotAccessOrganization orgLogin)
  | Some projectsV2 =>
      let projects := match projectsV2 with Some l => l | None => [] end in
      if (length projects =? 0)%nat then throw (NoProjectsFound orgLogin)
      else
        match selectProject projects projectName with
        | None =>
            throw (ProjectNotFound projectName orgLogin (map title projects))
        | Some project =>
            (if closed project then log (WarningProjectClosed projectName)
             else ret tt) ;;;
            ret project
        end
  end.

(** *** Step B: [getProjectFields] *)

Record ProjectFields := {
  effortField : option Field;
  weightField : option Field;
  repoNameField : option Field;
  statusField : option Field;
  assigneeField : option Field;
  doneOptionId : option NodeId;
  assigneeUserId : option NodeId
}.

(** The test of [fields.find(f => f.name.toLowerCase() === name)]. *)
Definition named (name : str) (f : Field) : bool :=
  str_eqb (toLowerCase (field_name f)) name.

(** The test of the option that stands for done (lines 139 to 143). *)
Definition is_done (opt : FieldOption) : bool :=
  str_eqb (toLowerCase (option_name opt)) (lit "done")
  || str_eqb (toLowerCase (option_name opt)) (lit "completed")
  || str_eqb (toLowerCase (option_name opt)) (lit "closed").

Definition getProjectFields (projectId : NodeId) (prAuthor : str)
    : M ProjectFields :=
  fieldsResult <- call (graphql_fields api projectId) ;;
  let fields := match fieldsResult with Some l => l | None => [] end in
  let effortField := find (named (lit "effort")) fields in
  let weightField := find (named (lit "weight")) fields in
  let repoNameField := find (named (lit "reponame")) fields in
  let statusField := find (named (lit "status")) fields in
  let assigneeField := find (named (lit "assignees")) fields in
  let doneOptionId :=
    match statusField with
    | Some f =>
        match options f with
        | Some opts => option_map option_id (find is_done opts)
        | None => None
        end
    | None => None
    end in
  assigneeUserId <-
    match assigneeField with
    | Some _ =>
        try_catch (call (graphql_user api prAuthor))
          (fun error => log (CouldNotGetUserId error) ;;; ret None)
    | None => ret None
    end ;;
  ret {| effortField := effortField;
         weightField := weightField;
         repoNameField := repoNameField;
         statusField := statusField;
         assigneeField := assigneeField;
         doneOptionId := doneOptionId;
         assigneeUserId := assigneeUserId |}.

(** *** Step C.1: [findExistingIssueInProject] *)

(** [title.match(/^PR #(\d+):/)] followed by [parseInt] of the group. *)
Definition parsePrTitle (title : str) : option N :=
  match strip_prefix (lit "PR #") title with
  | Some rest =>
      match span is_digit rest with
      | ((_ :: _) as digits, c :: _) =>
          if Ascii.eqb c ":" then Some (parseInt digits) else None
      | _ => None
      end
  | None => None
  end.

Definition repositoryMarker : str := lit "**Repository:** ".

(** The group of [body.match(/\*\*Repository:\*\* (.+)/)]: at the leftmost
    place where the marker is followed by a character that is not a line
    terminator, the rest of that line. *)
Fixpoint matchRepository (body : str) : option str :=
  match body with
  | [] => None
  | _ :: tl =>
      match strip_prefix repositoryMarker body with
      | Some rest =>
          match fst (span (fun c => negb (is_line_terminator c)) rest) with
          | [] => matchRepository tl
          | name => Some name
          end
      | None => matchRepository tl
      end
  end.

(** What [findExistingIssueInProject] returns when it finds the issue. *)
Record Found := {
  found_issue : Issue;
  found_itemId : NodeId
}.

(** The body of the [for] loop (lines 237 to 261): the test of one item. *)
Definition matchItem (prNumber : N) (repository : str) (item : ItemNode)
    : option Found :=
  match item_content item with
  | Some (IssueContent issue) =>
      match issue_title issue with
      | [] => None
      | _ :: _ =>
          match parsePrTitle (issue_title issue) with
          | Some n =>
              if (n =? prNumber)%N then
                let body := match issue_body issue with
                            | Some b => b | None => [] end in
                match option_map trim (matchRepository body) with
                | Some issueRepo =>
                    if str_eqb issueRepo repository
                    then Some {| found_issue := issue;
                                 found_itemId := item_id item |}
                    else None
                | None => None
                end
              else None
          | None => None
          end
      end
  | _ => None
  end.

(** The [for] loop: it returns at the first item that passes the test. *)
Fixpoint scanItems (prNumber : N) (repository : str) (items : list ItemNode)
    : option Found :=
  match items with
  | [] => None
  | item :: rest =>
      match matchItem prNumber repository item with
      | Some found => Some found
      | None => scanItems prNumber repository rest
      end
  end.

(** The [while (hasNextPage)] loop, entered with [hasNextPage] true. *)
Fixpoint scanPages (fuel : nat) (projectId : NodeId) (prNumber : N)
    (repository : str) (cursor : option Cursor) : M (option Found) :=
  match fuel with
  | O => fun _ => OutOfFuel
  | S fuel' =>
      projectItemsResult <- call (graphql_items api projectId 100 cursor) ;;
      let items := match projectItemsResult with
                   | Some itemsData => nodes itemsData | None => [] end in
      let pageInfo := match projectItemsResult with
                      | Some itemsData => pageInfo itemsData | None => None end in
      let hasNextPage := match pageInfo with
                         | Some p => hasNextPage p | None => false end in
      let cursor := match pageInfo with
                    | Some p => endCursor p | None => None end in
      match scanItems prNumber repository items with
      | Some found => ret (Some found)
      | None =>
          if hasNextPage
          then scanPages fuel' projectId prNumber repository cursor
          else ret None
      end
  end.

Definition findExistingIssueInProject (fuel : nat) (projectId : NodeId)
    (prNumber : N) (repository : str) : M (option Found) :=
  try_catch (scanPages fuel projectId prNumber repository None)
    (fun error => log (CouldNotCheckProjectItems error) ;;; ret None).

(** *** Step C: [findOrCreateIssue] *)

(** The statistics that the body prints, read back from the record of the
    collector. *)
Record PrStats := {
  filesChanged : N;
  additions : N;
  deletions : N;
  totalChanges : N
}.

(** [effort] and [weight] are the texts that the template literal prints
    for the two floating-point values. *)
Definition createIssueBody (prNumber : N) (prUrl repository prAuthor : str)
    (stats : PrStats) (effort weight : str) : str :=
  lit "**PR:** #" ++ decimal prNumber ++ newline ++
  lit "**PR Link:** " ++ prUrl ++ newline ++
  newline ++
  lit "**Repository:** " ++ repository ++ newline ++
  lit "**Author:** @" ++ prAuthor ++ newline ++
  newline ++
  lit "**Stats:**" ++ newline ++
  lit "- Files Changed: " ++ decimal (filesChanged stats) ++ newline ++
  lit "- Additions: +" ++ decimal (additions stats) ++ newline ++
  lit "- Deletions: -" ++ decimal (deletions stats) ++ newline ++
  lit "- Total Changes: " ++ decimal (totalChanges stats) ++ newline ++
  lit "- **Weight: " ++ weight ++ lit "**" ++ newline ++
  lit "- **Effort: " ++ effort ++ lit "**".

(** The title [`PR #${prNumber}: ${prTitle}`]. *)
Definition issueTitle (prNumber : N) (prTitle : str) : str :=
  lit "PR #" ++ decimal prNumber ++ lit ": " ++ prTitle.

Record IssueInfo := {
  issueId : NodeId;
  issueNumber : N;
  itemId : option NodeId;
  isNew : bool
}.

Definition findOrCreateIssue (fuel : nat) (orgLogin repository : str)
    (prNumber : N) (prTitle prUrl prAuthor : str) (stats : PrStats)
    (effort weight : str) (projectId : NodeId) : M IssueInfo :=
  projectIssue <- findExistingIssueInProject fuel projectId prNumber repository ;;
  match projectIssue with
  | Some projectIssue =>
      let issueBody := createIssueBody prNumber prUrl repository prAuthor
                         stats effort weight in
      let newTitle := issueTitle prNumber prTitle in
      call (rest_issues_update api orgLogin repository
              (issue_number (found_issue projectIssue))
              {| f_title := newTitle; f_body := issueBody;
                 f_assignees := [prAuthor] |}) ;;;
      ret {| issueId := issue_id (found_issue projectIssue);
             issueNumber := issue_number (found_issue projectIssue);
             itemId := Some (found_itemId projectIssue);
             isNew := false |}
  | None =>
      let searchQuery := {| q_owner := orgLogin; q_repo := repository;
                            q_phrase := lit "PR #" ++ decimal prNumber ++ lit ":" |} in
      searchResult <- call (rest_search api searchQuery) ;;
      match searchResult with
      | Some (repoIssue :: _) =>
          let issueBody := createIssueBody prNumber prUrl repository prAuthor
                             stats effort weight in
          let newTitle := issueTitle prNumber prTitle in
          call (rest_issues_update api orgLogin repository
                  (hit_number repoIssue)
                  {| f_title := newTitle; f_body := issueBody;
                     f_assignees := [prAuthor] |}) ;;;
          ret {| issueId := hit_node_id repoIssue;
                 issueNumber := hit_number repoIssue;
                 itemId := None;
                 isNew := false |}
      | _ =>
          let issueBody := createIssueBody prNumber prUrl repository prAuthor
                             stats effort weight in
          createIssueResult <-
            call (rest_issues_create api orgLogin repository
                    {| f_title := issueTitle prNumber prTitle;
                       f_body := issueBody;
                       f_assignees := [prAuthor] |}) ;;
          ret {| issueId := snd createIssueResult;
                 issueNumber := fst createIssueResult;
                 itemId := None;
                 isNew := true |}
      end
  end.

(** *** Step D: [addIssueToProject] *)

Definition addIssueToProject (projectId issueId : NodeId)
    (existingItemId : option NodeId) : M (option NodeId) :=
  match existingItemId with
  | Some existingItemId => ret (Some existingItemId)
  | None =>
      try_catch (call (graphql_add_item api projectId issueId))
        (fun addError => log (CouldNotAddIssueToProject addError) ;;; ret None)
  end.

(** *** Step E: [updateProjectFields] *)

Definition updateProjectFields (projectId : NodeId) (itemId : option NodeId)
    (issueNumber : N) (orgLogin repository prAuthor effort weight : str)
    (fields : ProjectFields) : M unit :=
  match itemId with
  | None => ret tt
  | Some itemId =>
      match effortField fields with
      | Some effortField =>
          try_catch
            (call (graphql_update_field api projectId itemId
                     (field_id effortField) (NumberValue effort)))
            (fun fieldError =>
               log (CouldNotUpdateField (lit "effort") fieldError))
      | None => ret tt
      end ;;;
      match weightField fields with
      | Some weightField =>
          try_catch
            (call (graphql_update_field api projectId itemId
                     (field_id weightField) (NumberValue weight)))
            (fun fieldError =>
               log (CouldNotUpdateField (lit "weight") fieldError))
      | None => ret tt
      end ;;;
      match repoNameField fields with
      | Some repoNameField =>
          try_catch
            (call (graphql_update_field api projectId itemId
                     (field_id repoNameField) (TextValue repository)))
            (fun fieldError =>
               log (CouldNotUpdateField (lit "repo name") fieldError))
      | None => ret tt
      end ;;;
      match statusField fields, doneOptionId fields with
      | Some statusField, Some doneOptionId =>
          try_catch
            (call (graphql_update_field api projectId itemId
                     (field_id statusField) (SingleSelectValue doneOptionId)))
            (fun fieldError =>
               log (CouldNotUpdateField (lit "status") fieldError))
      | _, _ => ret tt
      end ;;;
      match assigneeField fields, assigneeUserId fields with
      | Some _, Some _ =>
          try_catch
            (call (rest_issues_addAssignees api orgLogin repository
                     issueNumber [prAuthor]))
            (fun assigneeError => log (CouldNotUpdateAssignee assigneeError))
      | _, _ => ret tt
      end
  end.

(** *** The run *)

(** The inputs of a run: the event of the pull request, the configured
    project name and the record of the statistics collector. [effort] and
    [weight] are given by the texts that print them. *)
Record PrInput := {
  orgLogin : str;
  projectName : str;
  prNumber : N;
  prUrl : str;
  prTitle : str;
  prAuthor : str;
  repository : str;
  stats : PrStats;
  effort : str;
  weight : str
}.

(** Steps 1 to 5 of the main function, inside its [try]. *)
Definition syncSteps (fuel : nat) (input : PrInput) : M (option NodeId) :=
  project <- findProject (orgLogin input) (projectName input) ;;
  fields <- getProjectFields (id project) (prAuthor input) ;;
  issueInfo <- findOrCreateIssue fuel (orgLogin input) (repository input)
                 (prNumber input) (prTitle input) (prUrl input)
                 (prAuthor input) (stats input) (effort input)
                 (weight input) (id project) ;;
  itemId <- addIssueToProject (id project) (issueId issueInfo)
              (itemId issueInfo) ;;
  updateProjectFields (id project) itemId (issueNumber issueInfo)
    (orgLogin input) (repository input) (prAuthor input) (effort input)
    (weight input) fields ;;;
  ret itemId.

Definition main (fuel : nat) (input : PrInput) : M unit :=
  try_catch (syncSteps fuel input ;;; ret tt)
    (fun error => log (ErrorLoggingToProject error) ;;; ret tt).

End Syncer.

Arguments Returned {World A} a s.
Arguments Thrown {World A} e s.
Arguments OutOfFuel {World A}.

End Sync.

(** ** A reference model of the service

    An in-memory GitHub for one organization: the issues of its
    repositories in creation order, and the items of its projects in the
    order of the listing. An issue is identified by its position [i] in the
    store and carries the number [i + 1], so that numbers are unique within
    every repository; a project item is identified by its position as well.
    A cursor is the offset of the next item in the listing of a project.
    The fields of the projects and the users are fixed; the values of the
    fields of an item are not kept.

    Two switches cover behaviour of the service that the script cannot
    control: [items_outage] makes the item listing fail, and [dedup] says
    whether adding a content that the project already holds answers with
    the existing item or creates a second one. *)

Module Memory.

Import Sync.

Record IssueRec := {
  r_owner : str;
  r_repo : str;
  r_title : str;
  r_body : str;
  r_assignees : list str
}.

Record ItemRec := {
  i_project : nat;
  i_content : nat
}.

Record Store := {
  projects : list (Project nat);
  fields : list (nat * Field nat);
  users : list (str * nat);
  issues : list IssueRec;
  items : list ItemRec;
  items_outage : bool;
  dedup : bool
}.

Definition number_of (index : nat) : N := N.of_nat (S index).

(** The elements of a list with their positions. *)
Definition indexed {A} (l : list A) : list (nat * A) :=
  combine (seq 0 (length l)) l.

Fixpoint update_nth {A} (n : nat) (x : A) (l : list A) : list A :=
  match l, n with
  | [], _ => []
  | _ :: tl, O => x :: tl
  | a :: tl, S n' => a :: update_nth n' x tl
  end.

Definition with_issues (w : Store) (l : list IssueRec) : Store :=
  {| projects := projects w; fields := fields w; users := users w;
     issues := l; items := items w;
     items_outage := items_outage w; dedup := dedup w |}.

Definition with_items (w : Store) (l : list ItemRec) : Store :=
  {| projects := projects w; fields := fields w; users := users w;
     issues := issues w; items := l;
     items_outage := items_outage w; dedup := dedup w |}.

(** The node that the listing shows for an item. The content is [null]
    when the item points at no issue of the store. *)
Definition node_of (w : Store) (entry : nat * ItemRec) : ItemNode nat :=
  {| item_id := fst entry;
     item_content :=
       match nth_error (issues w) (i_content (snd entry)) with
       | Some r =>
           Some (IssueContent
                   {| issue_id := i_content (snd entry);
                      issue_number := number_of (i_content (snd entry));
                      issue_title := r_title r;
                      issue_body := Some (r_body r) |})
       | None => None
       end |}.

(** All the nodes of a project, in the order of the listing. *)
Definition project_nodes (w : Store) (projectId : nat) : list (ItemNode nat) :=
  map (node_of w)
      (filter (fun entry => (i_project (snd entry) =? projectId)%nat)
              (indexed (items w))).

Definition list_projects (orgLogin : str) (w : Store)
    : Response (option (option (list (Project nat)))) * Store :=
  (Ok (Some (Some (projects w))), w).

(** The fields of a project, in the order of the store. *)
Definition list_fields (projectId : nat) (w : Store)
    : Response (option (list (Field nat))) * Store :=
  (Ok (Some (map snd
               (filter (fun entry => (fst entry =? projectId)%nat)
                       (fields w)))), w).

Definition user_id (login : str) (w : Store)
    : Response (option nat) * Store :=
  match find (fun entry => str_eqb (fst entry) login) (users w) with
  | Some entry => (Ok (Some (snd entry)), w)
  | None => (Failed (lit "Could not resolve to a User"), w)
  end.

Definition list_items (projectId : nat) (first : nat) (cursor : option nat)
    (w : Store) : Response (option (ItemsData nat nat)) * Store :=
  if items_outage w then (Failed (lit "Service unavailable"), w)
  else
    let all := project_nodes w projectId in
    let offset := match cursor with Some c => c | None => O end in
    let page := firstn first (skipn offset all) in
    (Ok (Some {| nodes := page;
                 pageInfo :=
                   Some {| hasNextPage := (offset + first <? length all)%nat;
                           endCursor :=
                             match page with
                             | [] => None
                             | _ :: _ => Some (offset + length page)%nat
                             end |} |}), w).

Definition search (q : SearchQuery) (w : Store)
    : Response (option (list (SearchHit nat))) * Store :=
  (Ok (Some
         (map (fun entry => {| hit_number := number_of (fst entry);
                               hit_node_id := fst entry |})
              (filter (fun entry =>
                         str_eqb (r_owner (snd entry)) (q_owner q)
                         && str_eqb (r_repo (snd entry)) (q_repo q)
                         && includes (r_title (snd entry)) (q_phrase q))
                      (indexed (issues w))))), w).

Definition issue_index (number : N) : option nat :=
  match N.to_nat number with
  | O => None
  | S index => Some index
  end.

Definition update_issue (owner repo : str) (number : N) (f : IssueFields)
    (w : Store) : Response unit * Store :=
  match issue_index number with
  | Some index =>
      match nth_error (issues w) index with
      | Some r =>
          if str_eqb (r_owner r) owner && str_eqb (r_repo r) repo then
            (Ok tt,
             with_issues w
               (update_nth index
                  {| r_owner := owner; r_repo := repo;
                     r_title := f_title f; r_body := f_body f;
                     r_assignees := f_assignees f |}
                  (issues w)))
          else (Failed (lit "Not Found"), w)
      | None => (Failed (lit "Not Found"), w)
      end
  | None => (Failed (lit "Not Found"), w)
  end.

Definition create_issue (owner repo : str) (f : IssueFields) (w : Store)
    : Response (N * nat) * Store :=
  let index := length (issues w) in
  (Ok (number_of index, index),
   with_issues w
     (issues w ++ [{| r_owner := owner; r_repo := repo;
                      r_title := f_title f; r_body := f_body f;
                      r_assignees := f_assignees f |}])).

Definition links (projectId contentId : nat) (entry : nat * ItemRec) : bool :=
  ((i_project (snd entry) =? projectId) && (i_content (snd entry) =? contentId))%nat.

Definition add_item (projectId contentId : nat) (w : Store)
    : Response (option nat) * Store :=
  match nth_error (issues w) contentId with
  | None => (Failed (lit "Could not resolve to a node"), w)
  | Some _ =>
      match (if dedup w
             then find (links projectId contentId) (indexed (items w))
             else None) with
      | Some entry => (Ok (Some (fst entry)), w)
      | None =>
          (Ok (Some (length (items w))),
           with_items w
             (items w ++ [{| i_project := projectId; i_content := contentId |}]))
      end
  end.

(** The write of a field value is accepted when the item and the field
    belong to the project. The store keeps no field values: the write
    leaves it as it is. *)
Definition update_field (projectId itemId fieldId : nat)
    (value : FieldValue nat) (w : Store) : Response unit * Store :=
  match nth_error (items w) itemId with
  | Some item =>
      if (i_project item =? projectId)%nat
         && existsb (fun entry => (fst entry =? projectId)%nat
                                  && (field_id (snd entry) =? fieldId)%nat)
                    (fields w)
      then (Ok tt, w)
      else (Failed (lit "Could not resolve to a node"), w)
  | None => (Failed (lit "Could not resolve to a node"), w)
  end.

(** The logins of [assignees] that the issue does not have yet are added
    to its assignees. *)
Definition add_assignees (owner repo : str) (number : N)
    (assignees : list str) (w : Store) : Response unit * Store :=
  match issue_index number with
  | Some index =>
      match nth_error (issues w) index with
      | Some r =>
          if str_eqb (r_owner r) owner && str_eqb (r_repo r) repo then
            (Ok tt,
             with_issues w
               (update_nth index
                  {| r_owner := r_owner r; r_repo := r_repo r;
                     r_title := r_title r; r_body := r_body r;
                     r_assignees :=
                       r_assignees r ++
                       filter (fun a => negb (existsb (str_eqb a)
                                                (r_assignees r)))
                              assignees |}
                  (issues w)))
          else (Failed (lit "Not Found"), w)
      | None => (Failed (lit "Not Found"), w)
      end
  | None => (Failed (lit "Not Found"), w)
  end.

Definition github : GitHub nat nat Store := {|
  graphql_projects := list_projects;
  graphql_fields := list_fields;
  graphql_user := user_id;
  graphql_items := list_items;
  rest_search := search;
  rest_issues_update := update_issue;
  rest_issues_create := create_issue;
  graphql_add_item := add_item;
  graphql_update_field := update_field;
  rest_issues_addAssignees := add_assignees
|}.

(** One run of the syncer against the store, from an empty console: the
    outcome of [main]. *)
Definition sync (fuel : nat) (input : PrInput) (w : Store)
    : Outcome Store unit :=
  main github fuel input {| world := w; console := [] |}.

(** The store that a run leaves. *)
Definition run (fuel : nat) (input : PrInput) (w : Store) : Store :=
  match sync fuel input w with
  | Returned _ s => world s
  | Thrown _ s => world s
  | OutOfFuel => w
  end.

End Memory.

(** ** A service that never signals completion

    Every answer to the item listing is an empty page with [hasNextPage]
    true and the same cursor. *)

Module Stuck.

Import Sync.

Definition list_items (projectId : nat) (first : nat) (cursor : option nat)
    (w : unit) : Response (option (ItemsData nat nat)) * unit :=
  (Ok (Some {| nodes := [];
               pageInfo := Some {| hasNextPage := true;
                                   endCursor := Some O |} |}), w).

Definition github : GitHub nat nat unit := {|
  graphql_projects := fun _ w => (Ok None, w);
  graphql_fields := fun _ w => (Ok None, w);
  graphql_user := fun _ w => (Ok None, w);
  graphql_items := list_items;
  rest_search := fun _ w => (Ok None, w);
  rest_issues_update := fun _ _ _ _ w => (Failed [], w);
  rest_issues_create := fun _ _ _ w => (Failed [], w);
  graphql_add_item := fun _ _ w => (Failed [], w);
  graphql_update_field := fun _ _ _ _ w => (Failed [], w);
  rest_issues_addAssignees := fun _ _ _ _ w => (Failed [], w)
|}.

End Stuck.

(** ** Vocabulary of the properties

    The predicates and summaries in which the properties of Part II are
    stated. *)

(** *** Resolving the project *)

Module Resolve.

Import Sync.

(** [x] is the first element of [l] with the property [P]. *)
Definition first_where {A} (P : A -> Prop) (l : list A) (x : A) : Prop :=
  exists pre post, l = pre ++ x :: post /\ P x /\ forall y, In y pre -> ~ P y.

Section Matchers.

Variables NodeId World : Type.

(** The three matchers, as properties of a project. *)
Definition exactly (projectName : str) (p : Project NodeId) : Prop :=
  title p = projectName.

Definition ignoring_case (projectName : str) (p : Project NodeId) : Prop :=
  toLowerCase (title p) = toLowerCase projectName.

Definition partially (projectName : str) (p : Project NodeId) : Prop :=
  exists pre post,
    toLowerCase (title p) = pre ++ toLowerCase projectName ++ post.

(** What [findProject] does once the listing has answered with a project
    list: the state after the call, and the outcome for a selected
    project, with the warning when the project is closed. *)
Definition after_listing (s : State World) (w' : World) : State World :=
  {| world := w'; console := console s |}.

Definition returned_project (s : State World) (w' : World)
    (projectName : str) (p : Project NodeId) : Outcome World (Project NodeId) :=
  Returned p
    {| world := w';
       console := console s ++
                  (if closed p then [WarningProjectClosed projectName] else []) |}.

End Matchers.

End Resolve.

(** *** The title and the marker line *)

Module Marker.

Import Sync.

(** The title is [PR #<digits>:...] and the digits denote [n]. *)
Definition title_names_pr (title : str) (n : N) : Prop :=
  exists digits rest,
    title = lit "PR #" ++ digits ++ lit ":" ++ rest /\
    digits <> [] /\
    Forall (fun c => is_digit c = true) digits /\
    parseInt digits = n.

Definition not_terminator (c : ascii) : bool := negb (is_line_terminator c).

(** At the offset [length pre] the body holds the marker, followed by the
    non-empty rest of its line, [name]. *)
Definition marker_line_at (body pre name : str) : Prop :=
  exists post,
    body = pre ++ repositoryMarker ++ name ++ post /\
    name <> [] /\
    Forall (fun c => not_terminator c = true) name /\
    match post with [] => True | c :: _ => not_terminator c = false end.

(** [name] is the rest of the line after the leftmost marker that has one. *)
Definition first_marker_line (body name : str) : Prop :=
  exists pre,
    marker_line_at body pre name /\
    forall pre' name', marker_line_at body pre' name' ->
                       length pre <= length pre'.

Section MatchItem.

Variable NodeId : Type.

Definition body_text (issue : Issue NodeId) : str :=
  match issue_body issue with Some b => b | None => [] end.

(** The test as the specification words it: the title names the pull
    request, and the body contains a marker line whose name is the
    repository. *)
Definition claimed_match (prNumber : N) (repository : str)
    (item : ItemNode NodeId) : Prop :=
  exists issue,
    item_content item = Some (IssueContent issue) /\
    title_names_pr (issue_title issue) prNumber /\
    exists pre name,
      marker_line_at (body_text issue) pre name /\ trim name = repository.

(** The test as the script makes it: the marker line is the leftmost one. *)
Definition first_line_match (prNumber : N) (repository : str)
    (item : ItemNode NodeId) : Prop :=
  exists issue,
    item_content item = Some (IssueContent issue) /\
    title_names_pr (issue_title issue) prNumber /\
    exists name,
      first_marker_line (body_text issue) name /\ trim name = repository.

End MatchItem.

(** A repository name as GitHub has them: not empty and without white
    space (line terminators are white space). *)
Definition repository_name (s : str) : Prop :=
  s <> [] /\ Forall (fun c => is_space c = false) s.

(** A URL holds no asterisk. *)
Definition no_star (s : str) : Prop :=
  Forall (fun c => Ascii.eqb c "*" = false) s.

(** One step of [parseInt]. *)
Definition add_digit (acc : N) (c : ascii) : N := (10 * acc + digit_value c)%N.

End Marker.

(** *** The answers of the item listing *)

Module Listing.

Import Sync.

Section Answers.

Variables NodeId Cursor World : Type.
Variable api : GitHub NodeId Cursor World.
Variable projectId : NodeId.
Variable prNumber : N.
Variable repository : str.

(** What the loop reads in an answer. *)
Definition page_items (r : option (ItemsData NodeId Cursor))
    : list (ItemNode NodeId) :=
  match r with Some itemsData => nodes itemsData | None => [] end.

Definition page_info (r : option (ItemsData NodeId Cursor))
    : option (PageInfo Cursor) :=
  match r with Some itemsData => pageInfo itemsData | None => None end.

Definition page_more (r : option (ItemsData NodeId Cursor)) : bool :=
  match page_info r with Some p => hasNextPage p | None => false end.

Definition page_cursor (r : option (ItemsData NodeId Cursor))
    : option Cursor :=
  match page_info r with Some p => endCursor p | None => None end.

(** The state after a call that leaves the service in [w]. *)
Definition moved (s : State World) (w : World) : State World :=
  {| world := w; console := console s |}.

(** [listing_stops n w cursor]: from the state [w] and the cursor
    [cursor], the [n]-th answer of the service stops the loop, because it
    is an error, or an item of its page passes the test, or it says that
    there is no next page. *)
Inductive listing_stops : nat -> World -> option Cursor -> Prop :=
| stops_failed w cursor m w' :
    graphql_items api projectId 100 cursor w = (Failed m, w') ->
    listing_stops 1 w cursor
| stops_found w cursor r w' found :
    graphql_items api projectId 100 cursor w = (Ok r, w') ->
    scanItems prNumber repository (page_items r) = Some found ->
    listing_stops 1 w cursor
| stops_last w cursor r w' :
    graphql_items api projectId 100 cursor w = (Ok r, w') ->
    scanItems prNumber repository (page_items r) = None ->
    page_more r = false ->
    listing_stops 1 w cursor
| stops_later n w cursor r w' :
    graphql_items api projectId 100 cursor w = (Ok r, w') ->
    scanItems prNumber repository (page_items r) = None ->
    page_more r = true ->
    listing_stops n w' (page_cursor r) ->
    listing_stops (S n) w cursor.

(** [listing_fails n w cursor w' m]: the pages before the [n]-th answer
    are passed without a match, and the [n]-th answer is the error [m],
    leaving the service in the state [w']. *)
Inductive listing_fails : nat -> World -> option Cursor -> World -> str -> Prop :=
| fails_now w cursor m w' :
    graphql_items api projectId 100 cursor w = (Failed m, w') ->
    listing_fails 1 w cursor w' m
| fails_later n w cursor r w1 w' m :
    graphql_items api projectId 100 cursor w = (Ok r, w1) ->
    scanItems prNumber repository (page_items r) = None ->
    page_more r = true ->
    listing_fails n w1 (page_cursor r) w' m ->
    listing_fails (S n) w cursor w' m.

(** [listing_exhausted n w cursor w']: the listing ends with its [n]-th
    answer and no item of any page passes the test. *)
Inductive listing_exhausted : nat -> World -> option Cursor -> World -> Prop :=
| exhausted_now w cursor r w' :
    graphql_items api projectId 100 cursor w = (Ok r, w') ->
    scanItems prNumber repository (page_items r) = None ->
    page_more r = false ->
    listing_exhausted 1 w cursor w'
| exhausted_later n w cursor r w1 w' :
    graphql_items api projectId 100 cursor w = (Ok r, w1) ->
    scanItems prNumber repository (page_items r) = None ->
    page_more r = true ->
    listing_exhausted n w1 (page_cursor r) w' ->
    listing_exhausted (S n) w cursor w'.

End Answers.

End Listing.

(** *** The call that every branch makes *)

Module Upsert.

Import Sync.

(** The fields that every branch of [findOrCreateIssue] sends. *)
Definition canonical_fields (prNumber : N)
    (repository prTitle prUrl prAuthor : str) (stats : PrStats)
    (effort weight : str) : IssueFields :=
  {| f_title := issueTitle prNumber prTitle;
     f_body := createIssueBody prNumber prUrl repository prAuthor
                 stats effort weight;
     f_assignees := [prAuthor] |}.

(** The query of the search of the repository. *)
Definition searchQuery (prNumber : N) (orgLogin repository : str)
    : SearchQuery :=
  {| q_owner := orgLogin; q_repo := repository;
     q_phrase := lit "PR #" ++ decimal prNumber ++ lit ":" |}.

End Upsert.

(** *** A run, as a function of the store *)

Module Summary.

Import Sync Memory Upsert.

Section Run.

Variable input : PrInput.

Definition fields_of : IssueFields :=
  canonical_fields (prNumber input) (repository input) (prTitle input)
    (prUrl input) (prAuthor input) (stats input) (effort input) (weight input).

Definition query_of : SearchQuery :=
  searchQuery (prNumber input) (orgLogin input) (repository input).

(** The record that an update or a creation leaves in the store. *)
Definition canonical_record : IssueRec :=
  {| r_owner := orgLogin input; r_repo := repository input;
     r_title := f_title fields_of; r_body := f_body fields_of;
     r_assignees := f_assignees fields_of |}.

(** The hits of the search of the repository, in the order of the store. *)
Definition hits (w : Store) : list (SearchHit nat) :=
  map (fun entry => {| hit_number := number_of (fst entry);
                       hit_node_id := fst entry |})
      (filter (fun entry =>
                 str_eqb (r_owner (snd entry)) (q_owner query_of)
                 && str_eqb (r_repo (snd entry)) (q_repo query_of)
                 && includes (r_title (snd entry)) (q_phrase query_of))
              (indexed (issues w))).

(** Steps C and D on the store, for the project [P]. *)
Definition settle (P : Project nat) (w : Store) : Store :=
  match scanItems (prNumber input) (repository input)
          (project_nodes w (id P)) with
  | Some found =>
      snd (update_issue (orgLogin input) (repository input)
             (issue_number (found_issue found)) fields_of w)
  | None =>
      match hits w with
      | hit :: _ =>
          match update_issue (orgLogin input) (repository input)
                  (hit_number hit) fields_of w with
          | (Ok _, w1) => snd (add_item (id P) (hit_node_id hit) w1)
          | (Failed _, w1) => w1
          end
      | [] =>
          snd (add_item (id P) (length (issues w))
                 (snd (create_issue (orgLogin input) (repository input)
                         fields_of w)))
      end
  end.

(** A whole run on the store. *)
Definition step (w : Store) : Store :=
  match projects w with
  | [] => w
  | _ :: _ =>
      match selectProject (projects w) (projectName input) with
      | Some P => settle P w
      | None => w
      end
  end.

(** The issue [j] carries the canonical title and body, and the scan of
    the project finds an item of it. *)
Definition located (P : Project nat) (j : nat) (w : Store) : Prop :=
  nth_error (issues w) j = Some canonical_record /\
  exists f,
    scanItems (prNumber input) (repository input) (project_nodes w (id P))
    = Some f /\
    issue_number (found_issue f) = number_of j.

End Run.

(** From every state over the store [w], [m] returns and leaves the store
    as it is. *)
Definition returns_over {A} (w : Store) (m : M Store A) : Prop :=
  forall s, world s = w ->
            exists a s', m s = Returned a s' /\ world s' = w.

Definition final_world {A} (o : Outcome Store A) (w : Store) : Store :=
  match o with
  | Returned _ s | Thrown _ s => world s
  | OutOfFuel => w
  end.

Definition finished {A} (o : Outcome Store A) : Prop := o <> OutOfFuel.

(** The entries of a project: its items with their positions. *)
Definition entries (w : Store) (projectId : nat) : list (nat * ItemRec) :=
  filter (fun entry => (i_project (snd entry) =? projectId)%nat)
         (indexed (items w)).

(** What a run leaves untouched, and how much it adds. *)
Record framed (w w' : Store) : Prop := {
  same_projects : projects w' = projects w;
  same_outage : items_outage w' = items_outage w;
  issues_grow : length (issues w) <= length (issues w') <= S (length (issues w));
  items_grow : length (items w) <= length (items w') <= S (length (items w))
}.

End Summary.

(** *** Example data *)

Module Demo.

Import Sync Memory.

Definition demo_input : PrInput :=
  {| orgLogin := lit "acme";
     projectName := lit "efforts";
     prNumber := 5;
     prUrl := lit "https://github.com/acme/app/pull/5";
     prTitle := lit "Add x";
     prAuthor := lit "bob";
     repository := lit "app";
     stats := {| filesChanged := 2; additions := 10; deletions := 3;
                 totalChanges := 13 |};
     effort := lit "3.26";
     weight := lit "1" |}.

Definition backlog : Project nat :=
  {| id := 3; title := lit "Backlog"; number := 1; closed := false |}.

Definition team_efforts : Project nat :=
  {| id := 7; title := lit "Team Efforts"; number := 2; closed := true |}.

Definition effort_column : Field nat :=
  {| field_id := 20; field_name := lit "Effort"; dataType := lit "NUMBER";
     options := None |}.

Definition status_column : Field nat :=
  {| field_id := 21; field_name := lit "Status";
     dataType := lit "SINGLE_SELECT";
     options := Some [ {| option_id := 30; option_name := lit "Todo" |};
                       {| option_id := 31; option_name := lit "Done" |} ] |}.

Definition assignees_column : Field nat :=
  {| field_id := 22; field_name := lit "Assignees";
     dataType := lit "ASSIGNEES"; options := None |}.

Definition demo_store : Store :=
  {| projects := [backlog; team_efforts];
     fields := [(7, effort_column); (7, status_column); (7, assignees_column)];
     users := [(lit "bob", 40)];
     issues := []; items := [];
     items_outage := false; dedup := false |}.

Definition demo_state : State Store :=
  {| world := demo_store; console := [] |}.

Definition outage_store : Store :=
  {| projects := [backlog; team_efforts];
     fields := [(7, effort_column); (7, status_column); (7, assignees_column)];
     users := [(lit "bob", 40)];
     issues := []; items := [];
     items_outage := true; dedup := false |}.

Definition outage_state : State Store :=
  {| world := outage_store; console := [] |}.

End Demo.

(** *** How a call of the script ends *)

Module Outcomes.

Import Sync.

Section Kinds.

Variable World : Type.

Definition returns {A} (o : Outcome World A) : Prop :=
  exists a s', o = Returned a s'.

Definition throws {A} (o : Outcome World A) : Prop :=
  exists e s', o = Thrown e s'.

(** The state after a call that leaves the service in [w] and logs the
    lines [lines]. *)
Definition after (s : State World) (w : World) (lines : list ConsoleLine)
    : State World :=
  {| world := w; console := console s ++ lines |}.

End Kinds.

End Outcomes.

(** *** The fields of the project *)

Module Columns.

Import Sync Resolve.

Section Resolution.

Variable NodeId : Type.

(** The name of the field is [name] up to case. *)
Definition field_named (name : str) (f : Field NodeId) : Prop :=
  toLowerCase (field_name f) = name.

(** [o] is the first field of [fields] with the name [name], or nothing
    when there is no such field. *)
Definition resolved (name : str) (fields : list (Field NodeId))
    (o : option (Field NodeId)) : Prop :=
  match o with
  | Some f => first_where (field_named name) fields f
  | None => forall f, In f fields -> ~ field_named name f
  end.

(** The option is named done, completed or closed, up to case. *)
Definition done_named (opt : FieldOption NodeId) : Prop :=
  toLowerCase (option_name opt) = lit "done" \/
  toLowerCase (option_name opt) = lit "completed" \/
  toLowerCase (option_name opt) = lit "closed".

(** What the answer to the field listing holds. *)
Definition listed_fields (r : option (list (Field NodeId)))
    : list (Field NodeId) :=
  match r with Some l => l | None => [] end.

End Resolution.

End Columns.

(** *** A journal of the calls

    Any service, together with a journal of the calls that it receives, in
    the order in which it receives them. *)

Module Journal.

Import Sync.

Section Journaled.

Variables NodeId Cursor World : Type.

Inductive Call :=
| ListProjects (orgLogin : str)
| ListFields (projectId : NodeId)
| GetUser (login : str)
| ListItems (projectId : NodeId) (first : nat) (cursor : option Cursor)
| SearchIssues (q : SearchQuery)
| UpdateIssue (owner repo : str) (issue_number : N) (f : IssueFields)
| CreateIssue (owner repo : str) (f : IssueFields)
| AddItem (projectId contentId : NodeId)
| UpdateFieldValue (projectId itemId fieldId : NodeId)
    (value : FieldValue NodeId)
| AddAssignees (owner repo : str) (issue_number : N) (assignees : list str).

(** The operation answers as it does, and the call is added to the
    journal. *)
Definition noted {A} (c : Call) (op : World -> Response A * World)
    (w : World * list Call) : Response A * (World * list Call) :=
  let '(r, w') := op (fst w) in (r, (w', snd w ++ [c])).

Definition journaled (api : GitHub NodeId Cursor World)
    : GitHub NodeId Cursor (World * list Call) :=
  {| graphql_projects := fun orgLogin =>
       noted (ListProjects orgLogin) (graphql_projects api orgLogin);
     graphql_fields := fun projectId =>
       noted (ListFields projectId) (graphql_fields api projectId);
     graphql_user := fun login =>
       noted (GetUser login) (graphql_user api login);
     graphql_items := fun projectId first cursor =>
       noted (ListItems projectId first cursor)
             (graphql_items api projectId first cursor);
     rest_search := fun q =>
       noted (SearchIssues q) (rest_search api q);
     rest_issues_update := fun owner repo issue_number f =>
       noted (UpdateIssue owner repo issue_number f)
             (rest_issues_update api owner repo issue_number f);
     rest_issues_create := fun owner repo f =>
       noted (CreateIssue owner repo f) (rest_issues_create api owner repo f);
     graphql_add_item := fun projectId contentId =>
       noted (AddItem projectId contentId)
             (graphql_add_item api projectId contentId);
     graphql_update_field := fun projectId itemId fieldId value =>
       noted (UpdateFieldValue projectId itemId fieldId value)
             (graphql_update_field api projectId itemId fieldId value);
     rest_issues_addAssignees := fun owner repo issue_number assignees =>
       noted (AddAssignees owner repo issue_number assignees)
             (rest_issues_addAssignees api owner repo issue_number assignees)
  |}.

Definition journal (s : State (World * list Call)) : list Call :=
  snd (world s).

(** The calls that change the service. *)
Definition is_write (c : Call) : bool :=
  match c with
  | UpdateIssue _ _ _ _ | CreateIssue _ _ _ | AddItem _ _
  | UpdateFieldValue _ _ _ _ | AddAssignees _ _ _ _ => true
  | _ => false
  end.

Definition is_update (c : Call) : bool :=
  match c with UpdateIssue _ _ _ _ => true | _ => false end.

Definition is_creation (c : Call) : bool :=
  match c with CreateIssue _ _ _ => true | _ => false end.

Definition is_link (c : Call) : bool :=
  match c with AddItem _ _ => true | _ => false end.

Definition is_listing (c : Call) : bool :=
  match c with ListItems _ _ _ => true | _ => false end.

(** The number of calls of a kind. *)
Definition count (kind : Call -> bool) (calls : list Call) : nat :=
  length (filter kind calls).

(** When the script ends from the state [s] with the outcome [o], the
    calls that it has made are some [calls] with the property [S]. Nothing
    is said of a loop that has not ended. *)
Definition emits {A} (s : State (World * list Call))
    (o : Outcome (World * list Call) A) (S : list Call -> Prop) : Prop :=
  match o with
  | Returned _ s' | Thrown _ s' =>
      exists calls, journal s' = journal s ++ calls /\ S calls
  | OutOfFuel => True
  end.

(** The calls with which Step E writes the fields of the item, one for
    each field that Step B has resolved. *)
Definition field_writes (projectId itemId : NodeId)
    (issueNumber : N) (orgLogin repository prAuthor effort weight : str)
    (fields : ProjectFields NodeId) : list Call :=
  match effortField fields with
  | Some f => [UpdateFieldValue projectId itemId (field_id f)
                 (NumberValue NodeId effort)]
  | None => []
  end ++
  match weightField fields with
  | Some f => [UpdateFieldValue projectId itemId (field_id f)
                 (NumberValue NodeId weight)]
  | None => []
  end ++
  match repoNameField fields with
  | Some f => [UpdateFieldValue projectId itemId (field_id f)
                 (TextValue NodeId repository)]
  | None => []
  end ++
  match statusField fields, doneOptionId fields with
  | Some f, Some option => [UpdateFieldValue projectId itemId (field_id f)
                              (SingleSelectValue option)]
  | _, _ => []
  end ++
  match assigneeField fields, assigneeUserId fields with
  | Some _, Some _ => [AddAssignees orgLogin repository issueNumber [prAuthor]]
  | _, _ => []
  end.

End Journaled.

Arguments ListProjects {NodeId Cursor} orgLogin.
Arguments ListFields {NodeId Cursor} projectId.
Arguments GetUser {NodeId Cursor} login.
Arguments ListItems {NodeId Cursor} projectId first cursor.
Arguments SearchIssues {NodeId Cursor} q.
Arguments UpdateIssue {NodeId Cursor} owner repo issue_number f.
Arguments CreateIssue {NodeId Cursor} owner repo f.
Arguments AddItem {NodeId Cursor} projectId contentId.
Arguments UpdateFieldValue {NodeId Cursor} projectId itemId fieldId value.
Arguments AddAssignees {NodeId Cursor} owner repo issue_number assignees.
Arguments is_write {NodeId Cursor} c.
Arguments is_update {NodeId Cursor} c.
Arguments is_creation {NodeId Cursor} c.
Arguments is_link {NodeId Cursor} c.
Arguments is_listing {NodeId Cursor} c.

End Journal.

(** *** The order of the calls of a run *)

Module Protocol.

Import Sync Upsert Journal.

Section Calls.

Variables NodeId Cursor : Type.
Variable input : PrInput.

(** The title, body and assignees that the run sends, and its search. *)
Definition sent_fields : IssueFields :=
  canonical_fields (prNumber input) (repository input) (prTitle input)
    (prUrl input) (prAuthor input) (stats input) (effort input) (weight input).

Definition sent_query : SearchQuery :=
  searchQuery (prNumber input) (orgLogin input) (repository input).

(** The calls of Step C after the listing of the items: the update of
    the issue found in the project; or the search of the repository,
    followed by the update of its first hit or by the creation of an
    issue (by nothing when the search itself fails). *)
Inductive issue_calls : list (Call NodeId Cursor) -> Prop :=
| updated_in_project n :
    issue_calls [UpdateIssue (orgLogin input) (repository input) n sent_fields]
| searched :
    issue_calls [SearchIssues sent_query]
| updated_in_repository n :
    issue_calls [SearchIssues sent_query;
                 UpdateIssue (orgLogin input) (repository input) n sent_fields]
| created :
    issue_calls [SearchIssues sent_query;
                 CreateIssue (orgLogin input) (repository input) sent_fields].

(** A write of a field value of an item of the project [projectId], or
    the call that adds the author to the assignees of an issue of the
    repository. *)
Definition field_write (projectId : NodeId) (c : Call NodeId Cursor) : Prop :=
  match c with
  | UpdateFieldValue p _ _ _ => p = projectId
  | AddAssignees owner repo _ assignees =>
      owner = orgLogin input /\ repo = repository input /\
      assignees = [prAuthor input]
  | _ => False
  end.

(** The calls of a whole run, in their order: the listing of the
    projects; then, for the resolved project, the listing of its fields,
    the query of the user, the listing of the items page by page, the
    calls of Step C, the addition of the issue to the project and the
    writes of Step E. A run that ends early has made a prefix of these. *)
Definition run_calls (calls : list (Call NodeId Cursor)) : Prop :=
  calls = [ListProjects (orgLogin input)] \/
  exists projectId users pages issue link writes,
    calls = ListProjects (orgLogin input) :: ListFields projectId
            :: users ++ pages ++ issue ++ link ++ writes /\
    (users = [] \/ users = [GetUser (prAuthor input)]) /\
    Forall (fun c => exists cursor, c = ListItems projectId 100 cursor) pages /\
    (issue = [] \/ issue_calls issue) /\
    (link = [] \/ exists contentId, link = [AddItem projectId contentId]) /\
    Forall (field_write projectId) writes.

(** The issue calls and the searches of the run carry the data of its
    input, and go to its repository. *)
Definition aimed (c : Call NodeId Cursor) : Prop :=
  match c with
  | ListProjects o => o = orgLogin input
  | GetUser login => login = prAuthor input
  | SearchIssues q => q = sent_query
  | UpdateIssue owner repo _ f =>
      owner = orgLogin input /\ repo = repository input /\ f = sent_fields
  | CreateIssue owner repo f =>
      owner = orgLogin input /\ repo = repository input /\ f = sent_fields
  | AddAssignees owner repo _ assignees =>
      owner = orgLogin input /\ repo = repository input /\
      assignees = [prAuthor input]
  | _ => True
  end.

End Calls.

End Protocol.

(** *** Blanks around the repository name *)

Module Layout.

(** White space that does not end the line: a space, a tab and the
    like. *)
Definition blank (c : ascii) : Prop :=
  is_space c = true /\ is_line_terminator c = false.

(** The text ends here, or goes on with a line terminator. *)
Definition line_ends (rest : str) : Prop :=
  match rest with
  | [] => True
  | c :: _ => is_line_terminator c = true
  end.

End Layout.

(** *** What a run leaves as it was *)

Module Frame.

Import Sync Memory Marker Summary.

Section Touch.

Variable input : PrInput.



End Touch.

End Frame.

(** *** A run while the item listing fails *)

Module Outage.

Import Sync Memory Upsert Summary.

Section Run.

Variable input : PrInput.

(** Steps C and D on the store when the scan of the project returns
    nothing: the search of the repository, then the update of the first
    hit or the creation, then the addition to the project. *)
Definition settle_unseen (P : Project nat) (w : Store) : Store :=
  match hits input w with
  | hit :: _ =>
      match update_issue (orgLogin input) (repository input)
              (hit_number hit) (fields_of input) w with
      | (Ok _, w1) => snd (add_item (id P) (hit_node_id hit) w1)
      | (Failed _, w1) => w1
      end
  | [] =>
      snd (add_item (id P) (length (issues w))
             (snd (create_issue (orgLogin input) (repository input)
                     (fields_of input) w)))
  end.

(** A whole run on the store while the listing of the items fails. *)
Definition step_unseen (w : Store) : Store :=
  match projects w with
  | [] => w
  | _ :: _ =>
      match selectProject (projects w) (projectName input) with
      | Some P => settle_unseen P w
      | None => w
      end
  end.

End Run.

End Outage.

(** *** The exact totals of a listing *)

Module Totals.

Import Stats.

(** The sum of a count over the files of a listing, as an integer. *)
Definition total (f : File -> option N) (files : list File) : N :=
  fold_right (fun file acc => (or_zero (f file) + acc)%N) 0%N files.

End Totals.

(** *** More example data *)

Module Samples.

Import Sync Memory Demo.

(** The store of the examples while the item listing fails, with a
    service that does not add an item twice. *)
Definition guarded_store : Store :=
  {| projects := [backlog; team_efforts];
     fields := [(7, effort_column); (7, status_column); (7, assignees_column)];
     users := [(lit "bob", 40)];
     issues := []; items := [];
     items_outage := true; dedup := true |}.

(** A changed file, and an endpoint whose every page is full. *)
Definition changed_file : Stats.File :=
  {| Stats.filename := lit "src/index.js"; Stats.status := lit "modified";
     Stats.additions := Some 3%N; Stats.deletions := Some 1%N;
     Stats.changes := Some 4%N |}.

Definition full_pages (page : nat) : list Stats.File :=
  repeat changed_file Stats.perPage.

(** A file with 2^53 added lines, and a file with one. *)
Definition huge_file : Stats.File :=
  {| Stats.filename := lit "data.csv"; Stats.status := lit "added";
     Stats.additions := Some 9007199254740992%N; Stats.deletions := Some 0%N;
     Stats.changes := Some 9007199254740992%N |}.

Definition small_file : Stats.File :=
  {| Stats.filename := lit "README.md"; Stats.status := lit "modified";
     Stats.additions := Some 1%N; Stats.deletions := Some 0%N;
     Stats.changes := Some 1%N |}.

(** The head of the body of an issue, with CRLF line ends. *)
Definition crlf : str := [chr 13; chr 10].

Definition edited_head : str :=
  lit "**PR:** #5" ++ crlf ++
  lit "**PR Link:** https://github.com/acme/app/pull/5" ++ crlf ++ crlf.

Definition edited_tail : str :=
  crlf ++ lit "**Author:** @bob".

End Samples.

(* ================================================================== *)
(** * Part II: properties                                              *)
(* ================================================================== *)

Unset Implicit Arguments.

(** ** Signs of binary64 results *)

Module Float64Facts.

Import Float64.

Lemma shr_1_nonneg mrs : (0 <= shr_m mrs)%Z -> (0 <= shr_m (shr_1 mrs))%Z.
Proof.
  destruct mrs as [m r s]; simpl.
  destruct m as [|[p|p|]|[p|p|]]; simpl; lia.
Qed.

Lemma iter_pos_nonneg p mrs :
  (0 <= shr_m mrs)%Z -> (0 <= shr_m (iter_pos shr_1 p mrs))%Z.
Proof.
  revert mrs; induction p as [p IH|p IH|]; intros mrs H; simpl.
  - apply IH, IH, shr_1_nonneg, H.
  - apply IH, IH, H.
  - apply shr_1_nonneg, H.
Qed.

Lemma shr_fexp_nonneg m e l :
  (0 <= m)%Z -> (0 <= shr_m (fst (shr_fexp prec emax m e l)))%Z.
Proof.
  intros H. unfold shr_fexp, shr.
  assert (H0 : (0 <= shr_m (shr_record_of_loc m l))%Z)
    by (destruct l as [|[]]; exact H).
  destruct (fexp prec emax (Zdigits2 m + e) - e)%Z; simpl; auto.
  apply iter_pos_nonneg, H0.
Qed.

Lemma round_nearest_even_nonneg m l :
  (0 <= m)%Z -> (0 <= round_nearest_even m l)%Z.
Proof.
  intros H. destruct l as [|[]]; simpl; try lia.
  destruct (Z.even m); lia.
Qed.

Lemma binary_round_aux_sign s m e l :
  (0 <= m)%Z -> has_sign s (binary_round_aux prec emax s m e l) = true.
Proof.
  intros H. unfold binary_round_aux.
  pose proof (shr_fexp_nonneg m e l H) as H1.
  destruct (shr_fexp prec emax m e l) as [mrs' e']; simpl in H1.
  pose proof (shr_fexp_nonneg
                (round_nearest_even (shr_m mrs') (loc_of_shr_record mrs'))
                e' loc_Exact
                (round_nearest_even_nonneg _ _ H1)) as H2.
  destruct (shr_fexp prec emax _ e' loc_Exact) as [mrs'' e'']; simpl in H2.
  destruct (shr_m mrs'') as [|p|p]; simpl.
  - apply eqb_reflx.
  - destruct (_ <=? _)%Z; simpl; apply eqb_reflx.
  - lia.
Qed.

Lemma binary_round_sign s m e :
  has_sign s (binary_round prec emax s m e) = true.
Proof.
  unfold binary_round.
  destruct (shl_align m e _) as [mz ez].
  apply binary_round_aux_sign. lia.
Qed.

Lemma of_N_nonneg n : nonneg (of_N n) = true.
Proof.
  unfold of_N, of_Z, binary_normalize.
  destruct n as [|p]; simpl Z.of_N; cbv iota.
  - reflexivity.
  - apply (binary_round_sign false).
Qed.

Lemma mul_nonneg x y :
  nonneg x = true -> nonneg y = true ->
  nonneg (mul x y) = true \/ mul x y = nan.
Proof.
  destruct x as [[]|[]| |[] mx ex], y as [[]|[]| |[] my ey];
    simpl; try discriminate; intros _ _; auto.
  left. apply (binary_round_aux_sign false). lia.
Qed.

Lemma binary_normalize_pos_sign p e :
  nonneg (binary_normalize prec emax (Zpos p) e false) = true.
Proof. apply (binary_round_sign false). Qed.

Lemma add_nonneg x y :
  nonneg x = true -> nonneg y = true -> nonneg (add x y) = true.
Proof.
  destruct x as [[]|[]| |[] mx ex], y as [[]|[]| |[] my ey];
    simpl; try discriminate; intros _ _; auto.
  apply binary_normalize_pos_sign.
Qed.

Lemma add_nan_r x : add x nan = nan.
Proof. destruct x as [[]|[]| |[] mx ex]; reflexivity. Qed.

Lemma div_nonneg_finite x my ey :
  nonneg x = true -> nonneg (div x (S754_finite false my ey)) = true.
Proof.
  destruct x as [[]|[]| |[] mx ex]; simpl; try discriminate; intros _; auto.
  unfold SFdiv_core_binary.
  destruct (Z.div_eucl _ _) as [q r] eqn:E.
  apply (binary_round_aux_sign false).
  match type of E with Z.div_eucl ?a ?b = _ =>
    pose proof (Z.div_eucl_eq a b ltac:(lia)) as H1;
    pose proof (Z.mod_pos_bound a b ltac:(lia)) as H2;
    assert (H3 : (0 <= a)%Z)
  end.
  { destruct (_ - _ - _)%Z; try lia. apply Z.shiftl_nonneg. lia. }
  unfold Z.modulo in H2. rewrite E in H1, H2. nia.
Qed.

Lemma floor_nonneg x : nonneg x = true -> nonneg (floor x) = true.
Proof.
  destruct x as [[]|[]| |[] mx ex]; simpl; try discriminate; intros _; auto.
  destruct (0 <=? ex)%Z; [reflexivity|].
  unfold of_Z_signed.
  assert (H : (0 <= Z.shiftr (Z.pos mx) (- ex))%Z)
    by (apply Z.shiftr_nonneg; lia).
  destruct (Z.shiftr (Z.pos mx) (- ex)) as [|p|p]; try lia.
  - reflexivity.
  - apply binary_normalize_pos_sign.
Qed.

(** The square root of a number that is neither negative nor the negative
    zero. *)
Lemma sqrt_nonneg x : nonneg x = true -> nonneg (sqrt x) = true.
Proof.
  destruct x as [[]|[]| |[] mx ex]; simpl; try discriminate; intros _; auto.
  unfold SFsqrt_core_binary.
  destruct (Z.sqrtrem _) as [q r] eqn:E.
  apply (binary_round_aux_sign false).
  match type of E with Z.sqrtrem ?a = _ =>
    pose proof (Z.sqrtrem_sqrt a) as H1; rewrite E in H1; simpl in H1;
    subst q; apply Z.sqrt_nonneg
  end.
Qed.

Lemma sqrt_negative x : is_negative x = true -> sqrt x = nan.
Proof. destruct x as [[]|[]| |[] mx ex]; simpl; try discriminate; reflexivity. Qed.

(** The square root is NaN exactly for the negative numbers and NaN; else
    it is non-negative, or the negative zero for the negative zero. *)
Lemma sqrt_cases x :
  (is_negative x || is_nan x = true /\ sqrt x = nan) \/
  (is_negative x || is_nan x = false /\
   (nonneg (sqrt x) = true \/ sqrt x = S754_zero true)).
Proof.
  destruct x as [[]|[]| |[] mx ex]; simpl; auto.
  right; split; [reflexivity|left].
  apply (sqrt_nonneg (S754_finite false mx ex)). reflexivity.
Qed.

Lemma add_nonneg_negzero x :
  nonneg x = true -> nonneg (add x (S754_zero true)) = true.
Proof. destruct x as [[]|[]| |[] mx ex]; simpl; try discriminate; auto. Qed.

Lemma nonneg_not_nan x : nonneg x = true -> x <> nan.
Proof. intros H E; subst x; discriminate. Qed.


Lemma mul_nonneg_finite x my ey :
  nonneg x = true -> nonneg (mul x (S754_finite false my ey)) = true.
Proof.
  destruct x as [[]|[]| |[] mx ex]; simpl; try discriminate; intros _; auto.
  apply (binary_round_aux_sign false). lia.
Qed.

End Float64Facts.

(** ** The effort score *)

Module EffortFacts.

Import Float64 Float64Facts Stats.

Lemma c0_2_value : c0_2 = S754_finite false 7205759403792794 (-55).
Proof. vm_compute. reflexivity. Qed.

Lemma c1_0_value : c1_0 = S754_finite false 4503599627370496 (-52).
Proof. vm_compute. reflexivity. Qed.

Lemma lineScoreUnit_value :
  lineScoreUnit = S754_finite false 7036874417766400 (-45).
Proof. vm_compute. reflexivity. Qed.

Lemma sqrt_unit_value :
  sqrt lineScoreUnit = S754_finite false 7961314590657216 (-49).
Proof. vm_compute. reflexivity. Qed.

Section Signs.

Variables additions deletions : float.
Hypothesis Ha : nonneg additions = true.
Hypothesis Hd : nonneg deletions = true.

Lemma lineScore_nonneg : nonneg (lineScore additions deletions) = true.
Proof.
  unfold lineScore. rewrite c0_2_value, c1_0_value.
  apply add_nonneg; apply mul_nonneg_finite; assumption.
Qed.

Lemma lineScoreUnitCount_nonneg :
  nonneg (lineScoreUnitCount additions deletions) = true.
Proof.
  unfold lineScoreUnitCount. rewrite lineScoreUnit_value.
  apply floor_nonneg, div_nonneg_finite, lineScore_nonneg.
Qed.

Lemma units_nonneg :
  nonneg (mul (lineScoreUnitCount additions deletions) (sqrt lineScoreUnit))
  = true.
Proof.
  rewrite sqrt_unit_value. apply mul_nonneg_finite, lineScoreUnitCount_nonneg.
Qed.

(** The effort is NaN when the remainder under the second square root is
    negative or NaN, and a non-negative number otherwise. *)
Lemma effort_cases :
  let r := remainder additions deletions in
  (is_negative r || is_nan r = true /\ effort additions deletions = nan) \/
  (is_negative r || is_nan r = false /\
   nonneg (effort additions deletions) = true).
Proof.
  intros r. unfold effort. fold r.
  destruct (sqrt_cases r) as [[H1 H2]|[H1 [H2|H2]]].
  - left. split; [assumption|]. rewrite H2. apply add_nan_r.
  - right. split; [assumption|]. apply add_nonneg; [apply units_nonneg|assumption].
  - right. split; [assumption|]. rewrite H2. apply add_nonneg_negzero, units_nonneg.
Qed.

End Signs.


(** *** The order on non-negative numbers *)

Lemma leb_refl_nonneg x : nonneg x = true -> leb x x = true.
Proof.
  destruct x as [[]|[]| |[] m e]; simpl; try discriminate; intros _; auto.
  unfold leb, SFleb, SFcompare. rewrite Z.compare_refl.
  rewrite Pos.compare_cont_refl. reflexivity.
Qed.

Lemma leb_finite m1 e1 m2 e2 :
  leb (S754_finite false m1 e1) (S754_finite false m2 e2) = true <->
  (e1 < e2 \/ (e1 = e2 /\ (m1 <= m2)%positive))%Z.
Proof.
  unfold leb, SFleb, SFcompare.
  destruct (Z.compare_spec e1 e2) as [E|E|E].
  - fold (Pos.compare m1 m2).
    destruct (Pos.compare_spec m1 m2) as [F|F|F]; split; intros H;
      try discriminate; try reflexivity; try lia.
  - split; intros; [lia|reflexivity].
  - split; intros H; [discriminate|lia].
Qed.

Lemma leb_trans_nonneg x y z :
  nonneg x = true -> nonneg y = true -> nonneg z = true ->
  leb x y = true -> leb y z = true -> leb x z = true.
Proof.
  destruct x as [[]|[]| |[] m1 e1], y as [[]|[]| |[] m2 e2],
           z as [[]|[]| |[] m3 e3]; simpl; try discriminate;
    intros _ _ _; auto; try (intros H; discriminate H);
    try (intros _ H; discriminate H).
  rewrite !leb_finite. lia.
Qed.

(** In an ascending list of non-negative numbers, the head is below every
    element. *)
Lemma ascending_head l :
  forall x j,
    forallb nonneg (x :: l) = true -> ascending (x :: l) = true ->
    (j < length (x :: l))%nat ->
    leb x (nth j (x :: l) nan) = true.
Proof.
  induction l as [|y l IH]; intros x j Hn Ha Hj.
  - simpl in Hj. replace j with 0%nat by lia. simpl.
    apply leb_refl_nonneg. simpl in Hn. apply andb_prop in Hn. tauto.
  - simpl in Hn. apply andb_prop in Hn as [Hx Hn].
    destruct j as [|j]; [apply leb_refl_nonneg, Hx|].
    simpl in Ha. apply andb_prop in Ha as [Hxy Ha].
    change (nth (S j) (x :: y :: l) nan) with (nth j (y :: l) nan).
    assert (Hj' : (j < length (y :: l))%nat) by (simpl in Hj |- *; lia).
    apply leb_trans_nonneg with y; auto.
    + apply andb_prop in Hn. tauto.
    + change (forallb nonneg (y :: l) = true) in Hn.
      rewrite forallb_forall in Hn. apply Hn, nth_In, Hj'.
Qed.

Lemma ascending_nth l :
  forallb nonneg l = true -> ascending l = true ->
  forall i j, (i <= j < length l)%nat ->
  leb (nth i l nan) (nth j l nan) = true.
Proof.
  induction l as [|x l IH]; intros Hn Ha i j Hij; [simpl in Hij; lia|].
  destruct i as [|i].
  - apply ascending_head; auto. lia.
  - destruct j as [|j]; [lia|]. simpl.
    simpl in Hn. apply andb_prop in Hn as [_ Hn].
    apply IH; auto.
    + destruct l; [reflexivity|]. simpl in Ha. apply andb_prop in Ha. tauto.
    + simpl in Hij. lia.
Qed.

(** *** The checked grid *)

Lemma below_nth r1 :
  forall r2 i, below r1 r2 = true ->
    (i < length r1)%nat -> (i < length r2)%nat ->
    leb (nth i r1 nan) (nth i r2 nan) = true.
Proof.
  induction r1 as [|x r1 IH]; intros [|y r2] i H H1 H2;
    simpl in H1, H2; try lia.
  simpl in H. apply andb_prop in H as [Hxy H].
  destruct i as [|i]; [exact Hxy|]. simpl. apply IH; auto; lia.
Qed.

(** When each row is below the next, each column ascends. *)
Lemma rows_column rows i :
  (forall row, In row rows -> (i < length row)%nat) ->
  rows_ascending rows = true ->
  ascending (map (fun row => nth i row nan) rows) = true.
Proof.
  induction rows as [|r1 rows IH]; intros Hl H; [reflexivity|].
  destruct rows as [|r2 rows]; [reflexivity|].
  change (below r1 r2 && rows_ascending (r2 :: rows) = true) in H.
  apply andb_prop in H as [H12 H].
  change (leb (nth i r1 nan) (nth i r2 nan)
          && ascending (map (fun row => nth i row nan) (r2 :: rows)) = true).
  apply andb_true_intro. split.
  - apply below_nth; [exact H12| |]; apply Hl; simpl; auto.
  - apply IH; [|exact H]. intros row Hr. apply Hl. right. exact Hr.
Qed.

Lemma grid_sound xs ys :
  grid_ok xs ys = true ->
  forall i j, (i < length xs)%nat -> (j < length ys)%nat ->
    nonneg (effort (nth i xs nan) (nth j ys nan)) = true /\
    (forall i', (i <= i' < length xs)%nat ->
       leb (effort (nth i xs nan) (nth j ys nan))
           (effort (nth i' xs nan) (nth j ys nan)) = true) /\
    (forall j', (j <= j' < length ys)%nat ->
       leb (effort (nth i xs nan) (nth j ys nan))
           (effort (nth i xs nan) (nth j' ys nan)) = true).
Proof.
  intros H i j Hi Hj. unfold grid_ok in H. cbv zeta in H.
  apply andb_prop in H as [Hrows Hcols].
  rewrite forallb_forall in Hrows.
  assert (Hrow : forall d0, In d0 ys ->
            forallb nonneg (map (fun a => effort a d0) xs) = true /\
            ascending (map (fun a => effort a d0) xs) = true).
  { intros d0 Hd0. apply andb_prop. apply Hrows.
    unfold effort_rows. apply in_map_iff. exists d0. auto. }
  assert (Hall : forall a0 d0, In a0 xs -> In d0 ys ->
                               nonneg (effort a0 d0) = true).
  { intros a0 d0 Ha0 Hd0. destruct (Hrow d0 Hd0) as [Hr _].
    rewrite forallb_forall in Hr.
    apply Hr. apply in_map_iff. exists a0. split; [reflexivity|assumption]. }
  assert (Hnth : forall (f : float -> float) l k, (k < length l)%nat ->
                   nth k (map f l) nan = f (nth k l nan)).
  { intros f l k Hk.
    rewrite (nth_indep _ nan (f nan)) by (rewrite length_map; lia).
    apply map_nth. }
  split; [apply Hall; apply nth_In; assumption|]. split.
  - intros i' Hi'.
    destruct (Hrow _ (nth_In ys nan Hj)) as [Hnn Hasc].
    pose proof (ascending_nth _ Hnn Hasc i i') as H1.
    rewrite length_map in H1. specialize (H1 ltac:(lia)).
    rewrite !Hnth in H1 by lia. exact H1.
  - intros j' Hj'.
    assert (Hcol : ascending
                     (map (fun d0 => effort (nth i xs nan) d0) ys) = true).
    { apply (rows_column _ i) in Hcols.
      - unfold effort_rows in Hcols. rewrite map_map in Hcols.
        erewrite map_ext in Hcols; [exact Hcols|].
        intros d0. cbv beta. apply (Hnth (fun a => effort a d0)). exact Hi.
      - intros row Hr. unfold effort_rows in Hr.
        apply in_map_iff in Hr as [d0 [<- _]]. rewrite length_map. exact Hi. }
    assert (Hcn : forallb nonneg
                    (map (fun d0 => effort (nth i xs nan) d0) ys) = true).
    { apply forallb_forall. intros x Hx.
      apply in_map_iff in Hx as [d0 [<- Hd0]].
      apply Hall; [apply nth_In|]; assumption. }
    pose proof (ascending_nth _ Hcn Hcol j j') as H1.
    rewrite length_map in H1. specialize (H1 ltac:(lia)).
    rewrite !Hnth in H1 by lia. exact H1.
Qed.

Lemma nth_line_counts bound n :
  (n < N.of_nat bound)%N ->
  nth (N.to_nat n) (line_counts bound) nan = of_N n.
Proof.
  intros H. unfold line_counts.
  rewrite (nth_indep _ nan (of_N (N.of_nat 0)))
    by (rewrite length_map, length_seq; lia).
  rewrite (map_nth (fun k => of_N (N.of_nat k))), seq_nth by lia.
  simpl. rewrite N2Nat.id. reflexivity.
Qed.

Lemma length_line_counts bound : length (line_counts bound) = bound.
Proof. unfold line_counts. rewrite length_map, length_seq. reflexivity. Qed.

(** The grid of up to 1023 additions and up to 7 deletions, evaluated. *)
Lemma grid_checked : grid_ok (line_counts 1024) (line_counts 8) = true.
Proof. vm_cast_no_check (eq_refl true). Qed.

(** On the checked grid the effort is a non-negative number that ascends
    in the additions and in the deletions. *)
Lemma effort_on_grid (additions deletions : N) :
  (additions < 1024)%N -> (deletions < 8)%N ->
  nonneg (effort (of_N additions) (of_N deletions)) = true /\
  (forall additions', (additions <= additions' < 1024)%N ->
     leb (effort (of_N additions) (of_N deletions))
         (effort (of_N additions') (of_N deletions)) = true) /\
  (forall deletions', (deletions <= deletions' < 8)%N ->
     leb (effort (of_N additions) (of_N deletions))
         (effort (of_N additions) (of_N deletions')) = true).
Proof.
  intros Ha Hd.
  pose proof (grid_sound _ _ grid_checked (N.to_nat additions)
                (N.to_nat deletions)) as H.
  rewrite !length_line_counts in H.
  destruct H as [H1 [H2 H3]]; try lia.
  rewrite !nth_line_counts in H1 by (simpl; lia).
  split; [exact H1|]. split.
  - intros a' Ha'. specialize (H2 (N.to_nat a') ltac:(lia)).
    rewrite !nth_line_counts in H2 by (simpl; lia). exact H2.
  - intros d' Hd'. specialize (H3 (N.to_nat d') ltac:(lia)).
    rewrite !nth_line_counts in H3 by (simpl; lia). exact H3.
Qed.

End EffortFacts.

(** ** Numbers that need no rounding, and the order of the floats *)

Module RoundingFacts.

Import Float64.

Local Open Scope Z_scope.

(** *** The number of binary digits *)

Lemma digits_bounds p :
  2 ^ (Zpos (digits2_pos p) - 1) <= Zpos p < 2 ^ Zpos (digits2_pos p).
Proof.
  induction p as [p IH|p IH|]; cbn [digits2_pos].
  - rewrite Pos2Z.inj_succ.
    replace (Z.succ (Zpos (digits2_pos p)) - 1) with
      (Z.succ (Zpos (digits2_pos p) - 1)) by lia.
    rewrite !Z.pow_succ_r by lia. lia.
  - rewrite Pos2Z.inj_succ.
    replace (Z.succ (Zpos (digits2_pos p)) - 1) with
      (Z.succ (Zpos (digits2_pos p) - 1)) by lia.
    rewrite !Z.pow_succ_r by lia. lia.
  - cbn. lia.
Qed.

Lemma digits_unique p d :
  2 ^ (d - 1) <= Zpos p < 2 ^ d -> Zpos (digits2_pos p) = d.
Proof.
  intros [Hl Hu]. pose proof (digits_bounds p) as [Bl Bu].
  assert (Hd : 0 < d).
  { destruct (Z.lt_ge_cases 0 d) as [H|H]; [exact H|exfalso].
    destruct (Z.eq_dec d 0) as [->|Hn]; [cbn in Hu; lia|].
    rewrite Z.pow_neg_r in Hu by lia. lia. }
  destruct (Z.lt_trichotomy (Zpos (digits2_pos p)) d) as [H|[H|H]];
    [|exact H|].
  - exfalso.
    assert (2 ^ Zpos (digits2_pos p) <= 2 ^ (d - 1))
      by (apply Z.pow_le_mono_r; lia).
    lia.
  - exfalso.
    assert (2 ^ d <= 2 ^ (Zpos (digits2_pos p) - 1))
      by (apply Z.pow_le_mono_r; lia).
    lia.
Qed.

Lemma digits_le p d : Zpos p < 2 ^ d -> 0 <= d -> Zpos (digits2_pos p) <= d.
Proof.
  intros Hu Hd. pose proof (digits_bounds p) as [Bl _].
  destruct (Z.le_gt_cases (Zpos (digits2_pos p)) d) as [H|H]; [exact H|].
  exfalso.
  assert (2 ^ d <= 2 ^ (Zpos (digits2_pos p) - 1))
    by (apply Z.pow_le_mono_r; lia).
  lia.
Qed.

(** The digits of a positive integer [z]. *)
Lemma Zdigits2_mul_pow2 p n :
  0 <= n -> Zdigits2 (Zpos p * 2 ^ n) = Zpos (digits2_pos p) + n.
Proof.
  intros Hn. pose proof (digits_bounds p) as [Bl Bu].
  assert (Hpos : 0 < Zpos p * 2 ^ n) by (apply Z.mul_pos_pos; lia).
  destruct (Zpos p * 2 ^ n) as [|q|q] eqn:E; try lia.
  cbn [Zdigits2]. apply digits_unique. rewrite <- E.
  replace (Zpos (digits2_pos p) + n - 1) with
    ((Zpos (digits2_pos p) - 1) + n) by lia.
  rewrite !Z.pow_add_r by lia.
  split.
  - apply Z.mul_le_mono_nonneg_r; lia.
  - apply Z.mul_lt_mono_pos_r; lia.
Qed.

(** *** Shifts that lose nothing *)

Lemma shr_1_even q :
  0 <= q ->
  shr_1 {| shr_m := 2 * q; shr_r := false; shr_s := false |} =
  {| shr_m := q; shr_r := false; shr_s := false |}.
Proof.
  intros Hq. destruct q as [|q|q]; try lia; reflexivity.
Qed.

Lemma iter_shr_exact n :
  forall q, 0 <= q ->
    iter_pos shr_1 n
      {| shr_m := q * 2 ^ Zpos n; shr_r := false; shr_s := false |} =
    {| shr_m := q; shr_r := false; shr_s := false |}.
Proof.
  induction n as [n IH|n IH|]; intros q Hq; cbn [iter_pos].
  - replace (q * 2 ^ Zpos n~1) with (2 * ((q * 2 ^ Zpos n) * 2 ^ Zpos n)).
    + rewrite shr_1_even by (apply Z.mul_nonneg_nonneg; lia).
      rewrite IH by (apply Z.mul_nonneg_nonneg; lia).
      apply IH, Hq.
    + replace (Zpos n~1) with (Zpos n + Zpos n + 1) by lia.
      rewrite !Z.pow_add_r by lia. change (2 ^ 1) with 2. ring.
  - replace (q * 2 ^ Zpos n~0) with ((q * 2 ^ Zpos n) * 2 ^ Zpos n).
    + rewrite IH by (apply Z.mul_nonneg_nonneg; lia).
      apply IH, Hq.
    + replace (Zpos n~0) with (Zpos n + Zpos n) by lia.
      rewrite !Z.pow_add_r by lia. ring.
  - change (2 ^ 1) with 2. rewrite Z.mul_comm. apply shr_1_even, Hq.
Qed.

(** *** Rounding a number that needs no rounding *)

(** A mantissa of 53 digits followed by [n] zero bits is rounded to
    itself. *)
Lemma binary_round_aux_exact C n e :
  Zpos (digits2_pos C) = 53 -> 0 <= n -> -1074 <= e + n <= 971 ->
  binary_round_aux prec emax false (Zpos C * 2 ^ n) e loc_Exact =
  S754_finite false C (e + n).
Proof.
  intros HC Hn He. unfold binary_round_aux.
  assert (E1 : shr_fexp prec emax (Zpos C * 2 ^ n) e loc_Exact =
               ({| shr_m := Zpos C; shr_r := false; shr_s := false |}, e + n)).
  { unfold shr_fexp. rewrite Zdigits2_mul_pow2 by exact Hn. rewrite HC.
    unfold fexp, SpecFloat.emin, prec, emax.
    replace (Z.max (53 + n + e - 53) (3 - 1024 - 53) - e) with n by lia.
    cbn [shr_record_of_loc]. unfold shr.
    destruct n as [|n|n]; [|rewrite iter_shr_exact by lia; reflexivity|lia].
    rewrite Z.mul_1_r, Z.add_0_r. reflexivity. }
  rewrite E1. cbn [shr_m loc_of_shr_record round_nearest_even].
  assert (E2 : shr_fexp prec emax (Zpos C) (e + n) loc_Exact =
               ({| shr_m := Zpos C; shr_r := false; shr_s := false |}, e + n)).
  { unfold shr_fexp. cbn [Zdigits2]. rewrite HC.
    unfold fexp, SpecFloat.emin, prec, emax.
    replace (Z.max (53 + (e + n) - 53) (3 - 1024 - 53) - (e + n)) with 0 by lia.
    reflexivity. }
  rewrite E2. cbn [shr_m]. unfold emax, prec.
  destruct (Z.leb_spec (e + n) (1024 - 53)); [reflexivity|lia].
Qed.

Lemma iter_xO_mul M d : Zpos (Pos.iter xO M d) = Zpos M * 2 ^ Zpos d.
Proof.
  induction d as [|d IH] using Pos.peano_ind.
  - cbn [Pos.iter]. change (2 ^ 1) with 2. lia.
  - rewrite Pos.iter_succ, Pos2Z.inj_xO, IH, Pos2Z.inj_succ.
    rewrite Z.pow_succ_r by lia. ring.
Qed.

(** The float of 53 digits that denotes the positive integer [c], for [c]
    below 2^53. *)
Local Abbreviation canon c :=
  (S754_finite false
     (Z.to_pos (Zpos c * 2 ^ (53 - Zpos (digits2_pos c))))
     (Zpos (digits2_pos c) - 53)).

Lemma canon_mantissa c :
  Zpos (digits2_pos c) <= 53 ->
  Zpos (Z.to_pos (Zpos c * 2 ^ (53 - Zpos (digits2_pos c)))) =
  Zpos c * 2 ^ (53 - Zpos (digits2_pos c)) /\
  Zpos (digits2_pos
          (Z.to_pos (Zpos c * 2 ^ (53 - Zpos (digits2_pos c))))) = 53.
Proof.
  intros Hc.
  assert (Hpos : 0 < Zpos c * 2 ^ (53 - Zpos (digits2_pos c)))
    by (apply Z.mul_pos_pos; [lia|apply Z.pow_pos_nonneg; lia]).
  assert (E : Zpos (Z.to_pos (Zpos c * 2 ^ (53 - Zpos (digits2_pos c)))) =
              Zpos c * 2 ^ (53 - Zpos (digits2_pos c)))
    by (apply Z2Pos.id, Hpos).
  split; [exact E|].
  change (Zpos (digits2_pos (Z.to_pos (Zpos c * 2 ^ (53 - Zpos (digits2_pos c))))))
    with (Zdigits2 (Zpos (Z.to_pos (Zpos c * 2 ^ (53 - Zpos (digits2_pos c)))))).
  rewrite E, Zdigits2_mul_pow2 by lia. lia.
Qed.

(** An integer below 2^53, given with [k] zero bits after it, is rounded
    to itself. *)
Lemma binary_round_exact c k M :
  Zpos (digits2_pos c) <= 53 -> 0 <= k ->
  Zpos M = Zpos c * 2 ^ k ->
  binary_round prec emax false M (- k) = canon c.
Proof.
  intros Hc Hk HM.
  destruct (canon_mantissa c Hc) as [EC DC].
  set (C := Z.to_pos (Zpos c * 2 ^ (53 - Zpos (digits2_pos c)))) in *.
  pose proof (Pos2Z.is_pos (digits2_pos c)) as Hd.
  unfold binary_round.
  assert (DM : Zpos (digits2_pos M) = Zpos (digits2_pos c) + k).
  { change (Zpos (digits2_pos M)) with (Zdigits2 (Zpos M)).
    rewrite HM. apply Zdigits2_mul_pow2, Hk. }
  rewrite DM. unfold fexp at 1, SpecFloat.emin, prec, emax.
  replace (Z.max (Zpos (digits2_pos c) + k + - k - 53) (3 - 1024 - 53))
    with (Zpos (digits2_pos c) - 53) by lia.
  unfold shl_align.
  destruct (Zpos (digits2_pos c) - 53 - - k) as [|n|d] eqn:En.
  - replace (Zpos M) with (Zpos C * 2 ^ 0).
    + rewrite binary_round_aux_exact by lia. f_equal. lia.
    + rewrite EC, HM. replace (53 - Zpos (digits2_pos c)) with k by lia. ring.
  - replace (Zpos M) with (Zpos C * 2 ^ Zpos n).
    + rewrite binary_round_aux_exact by lia. f_equal. lia.
    + rewrite EC, HM, <- Z.mul_assoc, <- Z.pow_add_r by lia.
      f_equal. f_equal. lia.
  - assert (EI : Pos.iter xO M d = C).
    { apply Pos2Z.inj. rewrite iter_xO_mul, EC, HM.
      rewrite <- Z.mul_assoc, <- Z.pow_add_r by lia. f_equal. f_equal. lia. }
    rewrite EI. replace (Zpos C) with (Zpos C * 2 ^ 0) by (cbn; lia).
    rewrite binary_round_aux_exact by lia. f_equal. lia.
Qed.

(** The float of a positive integer below 2^53. *)
Lemma of_Z_canon c :
  Zpos c < 2 ^ 53 -> of_Z (Zpos c) = canon c.
Proof.
  intros Hc. unfold of_Z, binary_normalize.
  apply (binary_round_exact c 0 c); [apply digits_le; lia|lia|cbn; lia].
Qed.

Lemma shl_align_value m e ez :
  ez <= e ->
  Zpos (fst (shl_align m e ez)) = Zpos m * 2 ^ (e - ez).
Proof.
  intros H. unfold shl_align.
  destruct (ez - e) as [|n|d] eqn:E; cbn [fst].
  - replace (e - ez) with 0 by lia. cbn. lia.
  - lia.
  - rewrite iter_xO_mul. f_equal. f_equal. lia.
Qed.

(** The sum of two positive integers is exact when it is below 2^53. *)
Lemma add_pos_exact a b :
  Zpos a + Zpos b < 2 ^ 53 ->
  add (of_Z (Zpos a)) (of_Z (Zpos b)) = of_Z (Zpos a + Zpos b).
Proof.
  intros H.
  rewrite (of_Z_canon a), (of_Z_canon b) by lia.
  change (Zpos a + Zpos b) with (Zpos (a + b)) in *.
  rewrite (of_Z_canon (a + b)) by exact H.
  assert (Ha : Zpos (digits2_pos a) <= 53) by (apply digits_le; lia).
  assert (Hb : Zpos (digits2_pos b) <= 53) by (apply digits_le; lia).
  assert (Hc : Zpos (digits2_pos (a + b)) <= 53) by (apply digits_le; lia).
  destruct (canon_mantissa a Ha) as [EA _].
  destruct (canon_mantissa b Hb) as [EB _].
  set (A := Z.to_pos (Zpos a * 2 ^ (53 - Zpos (digits2_pos a)))) in *.
  set (B := Z.to_pos (Zpos b * 2 ^ (53 - Zpos (digits2_pos b)))) in *.
  set (ea := Zpos (digits2_pos a) - 53) in *.
  set (eb := Zpos (digits2_pos b) - 53) in *.
  unfold add, SFadd. cbn [cond_Zopp].
  set (ez := Z.min ea eb).
  assert (Hza : ez <= ea) by (unfold ez; lia).
  assert (Hzb : ez <= eb) by (unfold ez; lia).
  pose proof (shl_align_value A ea ez Hza) as SA.
  pose proof (shl_align_value B eb ez Hzb) as SB.
  pose proof (Pos2Z.is_pos (digits2_pos a)) as Pa.
  pose proof (Pos2Z.is_pos (digits2_pos b)) as Pb.
  change (Zpos (fst (shl_align A ea ez)) + Zpos (fst (shl_align B eb ez)))
    with (Zpos (fst (shl_align A ea ez) + fst (shl_align B eb ez))).
  cbn [binary_normalize].
  replace ez with (- (- ez)) at 3 by lia.
  apply binary_round_exact; [exact Hc|unfold ez, ea, eb; lia|].
  rewrite Pos2Z.inj_add, SA, SB, EA, EB.
  rewrite Pos2Z.inj_add, Z.mul_add_distr_r.
  rewrite <- !Z.mul_assoc, <- !Z.pow_add_r by (unfold ez, ea, eb; lia).
  f_equal; f_equal; f_equal; unfold ea, eb; lia.
Qed.

(** The sum of two counts is exact when it is below 2^53. *)
Lemma add_of_N a b :
  (a + b < 2 ^ 53)%N -> add (of_N a) (of_N b) = of_N (a + b).
Proof.
  intros H. unfold of_N.
  apply N2Z.inj_lt in H. rewrite N2Z.inj_add, N2Z.inj_pow in H.
  destruct a as [|a]; [destruct b as [|b]; [reflexivity|]|].
  - cbn [Z.of_N N.add] in *. rewrite of_Z_canon by exact H. reflexivity.
  - destruct b as [|b].
    + cbn [Z.of_N N.add] in *. rewrite of_Z_canon by lia. reflexivity.
    + rewrite N2Z.inj_add. cbn [Z.of_N] in *. apply add_pos_exact, H.
Qed.

(** *** The order of the floats and the order of the numbers *)







(** *** [Math.floor] between two integers *)


End RoundingFacts.

(** ** The effort on the floats of the machine *)

Module MachineFacts.

Import Float64 Float64Facts Stats EffortFacts RoundingFacts.

Local Abbreviation number := FloatOps.Prim2SF.















(** *** From the check of the machine to the check of the model *)

Local Abbreviation numbers row :=
  (map (fun x : PrimFloat.float * bool => number (fst x)) row).











End MachineFacts.

(** ** The statistics collector *)

Module StatsFacts.

Import Float64 Float64Facts Stats EffortFacts MachineFacts.

(** C2: for all non-negative integers additions and deletions the effort
    that the collector computes is the formula of the specification
    (evaluated, as the script evaluates it, in binary64 arithmetic): it is
    [spec_effort] of the two sums. For 1000 additions and no deletion the
    line score is 1000, the unit count 5 and the remainder 0, and the
    effort is 5 * sqrt(200), a number between 70.705 and 70.715; for no
    additions and no deletions the effort is 0. *)
Theorem effort_is_spec_formula :
  (forall allFiles : list File,
     st_effort (computeStats allFiles) =
     spec_effort (st_additions (computeStats allFiles))
                 (st_deletions (computeStats allFiles))) /\
  (forall additions deletions : float,
     effort additions deletions = spec_effort additions deletions) /\
  (forall additions deletions : N,
     effort (of_N additions) (of_N deletions) =
     spec_effort (of_N additions) (of_N deletions)) /\
  (lineScore (of_N 1000) (of_N 0) = of_N 1000 /\
   lineScoreUnitCount (of_N 1000) (of_N 0) = of_N 5 /\
   remainder (of_N 1000) (of_N 0) = S754_zero false /\
   effort (of_N 1000) (of_N 0) = mul (of_N 5) (sqrt (of_N 200)) /\
   exists q, to_Q (effort (of_N 1000) (of_N 0)) = Some q /\
             QArith_base.Qle (QArith_base.Qmake 70705 1000) q /\
             QArith_base.Qlt q (QArith_base.Qmake 70715 1000)) /\
  (lineScore (of_N 0) (of_N 0) = S754_zero false /\
   effort (of_N 0) (of_N 0) = S754_zero false).
Proof.
  split; [reflexivity|]. split; [reflexivity|]. split; [reflexivity|]. split.
  - repeat (split; [vm_compute; reflexivity|]).
    eexists. split; [vm_compute; reflexivity|].
    split; vm_compute; [discriminate|reflexivity].
  - split; vm_compute; reflexivity.
Qed.

(** C3, the claim as stated fails: no clamp is applied. With
    112589990684262992 additions and no deletions the remainder is
    negative and reaches the square root as it is, and the effort is
    NaN. *)
Lemma effort_remainder_not_clamped :
  is_negative (remainder (of_N 112589990684262992) (of_N 0)) = true /\
  effort (of_N 112589990684262992) (of_N 0) = nan.
Proof. split; vm_compute; reflexivity. Qed.

(** C3, amended: the remainder goes to the square root unclamped, and the
    effort is NaN exactly when the remainder is negative (or itself NaN);
    up to 1023 additions and 7 deletions the remainder is not negative and
    the effort is not NaN. *)
Theorem effort_nan_iff_remainder_negative (additions deletions : N) :
  let r := remainder (of_N additions) (of_N deletions) in
  (effort (of_N additions) (of_N deletions) = nan <->
   is_negative r || is_nan r = true) /\
  ((additions < 1024)%N -> (deletions < 8)%N ->
   is_negative r = false /\
   effort (of_N additions) (of_N deletions) <> nan).
Proof.
  intros r.
  pose proof (effort_cases (of_N additions) (of_N deletions)
                (of_N_nonneg additions) (of_N_nonneg deletions)) as H.
  cbv zeta in H. fold r in H.
  assert (Hiff : effort (of_N additions) (of_N deletions) = nan <->
                 is_negative r || is_nan r = true).
  { destruct H as [[H1 H2]|[H1 H2]]; split; intros H3; auto.
    - exfalso. revert H3. apply nonneg_not_nan, H2.
    - congruence. }
  split; [exact Hiff|].
  intros Ha Hd.
  destruct (effort_on_grid additions deletions Ha Hd) as [Hn _].
  pose proof (nonneg_not_nan _ Hn) as Hnn.
  split; [|exact Hnn].
  destruct (is_negative r) eqn:E; [|reflexivity].
  exfalso. apply Hnn, Hiff. reflexivity.
Qed.



(** *** Pagination *)

Lemma fetch_unfold listFiles fuel page acc :
  fetchAllFiles listFiles (S fuel) page acc =
  if (length (listFiles page) =? 0)%nat then Some acc
  else if (length (listFiles page) <? perPage)%nat
       then Some (acc ++ listFiles page)
       else fetchAllFiles listFiles fuel (S page) (acc ++ listFiles page).
Proof. reflexivity. Qed.

(** The loop goes on over full pages and stops at the first page that is
    shorter, with everything that the pages held. *)
Lemma fetch_until_short listFiles n :
  forall start acc fuel,
    (forall p, start <= p < start + n -> perPage <= length (listFiles p)) ->
    length (listFiles (start + n)) < perPage ->
    n < fuel ->
    fetchAllFiles listFiles fuel start acc =
    Some (acc ++ concat (map listFiles (seq start (S n)))).
Proof.
  induction n as [|n IH]; intros start acc fuel Hfull Hshort Hfuel;
    (destruct fuel as [|fuel]; [lia|]); rewrite fetch_unfold.
  - rewrite Nat.add_0_r in Hshort.
    apply Nat.ltb_lt in Hshort. rewrite Hshort.
    simpl. rewrite app_nil_r.
    destruct (listFiles start); simpl; [rewrite app_nil_r|]; reflexivity.
  - pose proof (Hfull start ltac:(lia)) as H0. unfold perPage in *.
    destruct (Nat.eqb_spec (length (listFiles start)) 0); [lia|].
    destruct (Nat.ltb_spec (length (listFiles start)) 100); [lia|].
    rewrite IH.
    + rewrite <- app_assoc. reflexivity.
    + intros p Hp. apply Hfull. lia.
    + replace (S start + n) with (start + S n) by lia. assumption.
    + lia.
Qed.

Lemma pages_of_S all p :
  pages_of all (S p) = firstn perPage (skipn (p * perPage) all).
Proof. unfold pages_of. simpl. rewrite Nat.sub_0_r. reflexivity. Qed.

(** Against an endpoint that serves the files page by page, the loop
    returns what is left of the listing from its page on. *)
Lemma fetch_pages_of all :
  forall fuel p acc,
    length (skipn (p * perPage) all) / perPage < fuel ->
    fetchAllFiles (pages_of all) fuel (S p) acc =
    Some (acc ++ skipn (p * perPage) all).
Proof.
  induction fuel as [|fuel IH]; intros p acc Hfuel; [lia|].
  rewrite fetch_unfold, pages_of_S.
  set (rest := skipn (p * perPage) all) in *.
  destruct (Nat.ltb_spec (length rest) perPage) as [Hlt|Hge].
  - rewrite firstn_all2 by lia.
    destruct (Nat.eqb_spec (length rest) 0) as [E|E].
    + destruct rest; [|discriminate]. rewrite app_nil_r. reflexivity.
    + apply Nat.ltb_lt in Hlt. rewrite Hlt. reflexivity.
  - rewrite length_firstn, Nat.min_l by assumption.
    change (perPage =? 0) with false. rewrite Nat.ltb_irrefl.
    rewrite IH.
    + rewrite <- app_assoc. f_equal. f_equal.
      replace (S p * perPage) with (perPage + p * perPage) by lia.
      rewrite <- skipn_skipn. fold rest. apply firstn_skipn.
    + replace (S p * perPage) with (perPage + p * perPage) by lia.
      rewrite <- skipn_skipn. fold rest. rewrite length_skipn.
      unfold perPage in *.
      assert (length rest = 100 + (length rest - 100)) as E by lia.
      rewrite E in Hfuel.
      replace (100 + (length rest - 100))
        with (1 * 100 + (length rest - 100)) in Hfuel by lia.
      rewrite Nat.div_add_l in Hfuel by lia. lia.
Qed.

(** C8: the loop of the collector goes on while the pages are full and
    stops at the first short or empty page, returning the files of all the
    pages up to it; against an endpoint that serves a listing of any size
    page by page it returns every file of the listing; and for a pull
    request without files it stops at the first, empty page and the
    statistics are all zero. *)
Theorem pagination_collects_every_file :
  (forall (listFiles : nat -> list File) (last fuel : nat),
     (forall p, 1 <= p < last -> perPage <= length (listFiles p)) ->
     1 <= last -> length (listFiles last) < perPage -> last <= fuel ->
     fetchAllFiles listFiles fuel 1 [] =
     Some (concat (map listFiles (seq 1 last)))) /\
  (forall (all : list File) (fuel : nat),
     length all / perPage < fuel ->
     fetchAllFiles (pages_of all) fuel 1 [] = Some all /\
     getPrStats (pages_of all) fuel = Some (computeStats all)) /\
  (forall fuel : nat,
     getPrStats (pages_of []) (S fuel) =
     Some {| filesChanged := 0; st_additions := S754_zero false;
             st_deletions := S754_zero false;
             totalChanges := S754_zero false; st_effort := S754_zero false;
             files := [] |}).
Proof.
  split; [|split].
  - intros listFiles last fuel Hfull H1 Hshort Hfuel.
    destruct last as [|n]; [lia|].
    rewrite (fetch_until_short listFiles n 1 [] fuel); try reflexivity.
    + intros p Hp. apply Hfull. lia.
    + exact Hshort.
    + lia.
  - intros all fuel Hfuel.
    assert (E : fetchAllFiles (pages_of all) fuel 1 [] = Some all)
      by (apply (fetch_pages_of all fuel 0 []); exact Hfuel).
    split; [exact E|]. unfold getPrStats. rewrite E. reflexivity.
  - intros fuel. vm_compute. reflexivity.
Qed.

End StatsFacts.

(** ** JavaScript strings *)

Module JsFacts.

Lemma str_eqb_eq a b : str_eqb a b = true <-> a = b.
Proof.
  unfold str_eqb. destruct (list_eq_dec ascii_dec a b); split; intros H;
    try reflexivity; try assumption; try discriminate. contradiction.
Qed.

Lemma str_eqb_refl a : str_eqb a a = true.
Proof. apply str_eqb_eq. reflexivity. Qed.


Lemma strip_prefix_app p s : strip_prefix p (p ++ s) = Some s.
Proof.
  induction p as [|a p IH]; simpl; [reflexivity|].
  rewrite Ascii.eqb_refl. exact IH.
Qed.

Lemma strip_prefix_Some p s r : strip_prefix p s = Some r -> s = p ++ r.
Proof.
  revert s; induction p as [|a p IH]; intros s H; simpl in H.
  - injection H as ->. reflexivity.
  - destruct s as [|b s]; [discriminate|].
    destruct (Ascii.eqb_spec a b) as [->|]; [|discriminate].
    simpl. f_equal. apply IH, H.
Qed.

Lemma starts_with_refl s : starts_with s s = true.
Proof.
  unfold starts_with. rewrite <- (app_nil_r s) at 2.
  rewrite strip_prefix_app. reflexivity.
Qed.

Lemma includes_refl s : includes s s = true.
Proof. destruct s; simpl; [reflexivity|]. rewrite starts_with_refl. reflexivity. Qed.

(** [includes s p] holds exactly when [p] occurs in [s]. *)
Lemma includes_iff s p :
  includes s p = true <-> exists pre post, s = pre ++ p ++ post.
Proof.
  induction s as [|c s IH].
  - simpl. rewrite orb_false_r. unfold starts_with.
    destruct (strip_prefix p []) as [l|] eqn:E; split; intros H; try reflexivity.
    + apply strip_prefix_Some in E. exists [], l. exact E.
    + discriminate.
    + destruct H as [pre [post H]].
      destruct pre; [|discriminate]. simpl in H.
      destruct p; [discriminate|discriminate].
  - simpl. rewrite orb_true_iff, IH. unfold starts_with. split.
    + intros [H|[pre [post H]]].
      * destruct (strip_prefix p (c :: s)) as [l|] eqn:E; [|discriminate].
        apply strip_prefix_Some in E. exists [], l. exact E.
      * exists (c :: pre), post. simpl. f_equal. exact H.
    + intros [[|c' pre] [post H]].
      * left. simpl in H. rewrite H, strip_prefix_app. reflexivity.
      * right. injection H as _ H. exists pre, post. exact H.
Qed.

End JsFacts.

(** ** Step A: resolving the project *)

Module ProjectFacts.

Import Sync JsFacts Resolve.

Lemma find_first_where {A} (f : A -> bool) (P : A -> Prop) l x :
  (forall y, f y = true <-> P y) ->
  first_where P l x -> find f l = Some x.
Proof.
  intros HfP [pre [post [-> [Hx Hpre]]]].
  induction pre as [|y pre IH]; simpl.
  - apply HfP in Hx. rewrite Hx. reflexivity.
  - destruct (f y) eqn:E.
    + exfalso. apply (Hpre y); [left; reflexivity|apply HfP, E].
    + apply IH. intros z Hz. apply Hpre. right. exact Hz.
Qed.

Lemma find_none_where {A} (f : A -> bool) (P : A -> Prop) l :
  (forall y, f y = true <-> P y) ->
  (forall y, In y l -> ~ P y) -> find f l = None.
Proof.
  intros HfP H. induction l as [|y l IH]; simpl; [reflexivity|].
  destruct (f y) eqn:E.
  - exfalso. apply (H y); [left; reflexivity|apply HfP, E].
  - apply IH. intros z Hz. apply H. right. exact Hz.
Qed.

Section FindProject.

Variables NodeId Cursor World : Type.
Variable api : GitHub NodeId Cursor World.

Lemma exact_match_iff name (p : Project NodeId) :
  exact_match name p = true <-> exactly name p.
Proof. apply str_eqb_eq. Qed.

Lemma nocase_match_iff name (p : Project NodeId) :
  nocase_match name p = true <-> ignoring_case name p.
Proof. apply str_eqb_eq. Qed.

Lemma partial_match_iff name (p : Project NodeId) :
  partial_match name p = true <-> partially name p.
Proof. apply includes_iff. Qed.

Lemma findProject_listed orgLogin projectName s projectsV2 w' :
  graphql_projects api orgLogin (world s) = (Ok (Some projectsV2), w') ->
  let projects := match projectsV2 with Some l => l | None => [] end in
  findProject api orgLogin projectName s =
  match projects with
  | [] => Thrown (NoProjectsFound orgLogin) (after_listing s w')
  | _ :: _ =>
      match selectProject projects projectName with
      | Some p => returned_project s w' projectName p
      | None =>
          Thrown (ProjectNotFound projectName orgLogin (map (@title _) projects))
                 (after_listing s w')
      end
  end.
Proof.
  intros H projects.
  unfold findProject, bind, try_catch, call. rewrite H. cbv beta iota zeta.
  fold projects.
  destruct projects as [|p0 rest]; [reflexivity|].
  cbn [length Nat.eqb].
  destruct (selectProject (p0 :: rest) projectName) as [p|]; [|reflexivity].
  unfold returned_project, log, ret.
  destruct (closed p); cbn; [reflexivity|].
  rewrite app_nil_r. destruct s; reflexivity.
Qed.

(** C6: once the organization's projects are listed, the project is
    resolved by the matchers in strict order: the first project in listing
    order whose title is the name; when there is none, the first whose
    title is the name up to case; when there is none either, the first
    whose title contains the name up to case. When no project matches, the
    run fails with the error that says that no project was found. A
    closed project that matches is returned all the same, and only a
    warning is logged. *)
Theorem findProject_matching_order
    (orgLogin projectName : str) (s : State World)
    (projectsV2 : option (list (Project NodeId))) (w' : World) :
  graphql_projects api orgLogin (world s) = (Ok (Some projectsV2), w') ->
  let projects := match projectsV2 with Some l => l | None => [] end in
  let result := findProject api orgLogin projectName s in
  (forall p, first_where (exactly projectName) projects p ->
             result = returned_project s w' projectName p) /\
  ((forall q, In q projects -> ~ exactly projectName q) ->
   forall p, first_where (ignoring_case projectName) projects p ->
             result = returned_project s w' projectName p) /\
  ((forall q, In q projects -> ~ ignoring_case projectName q) ->
   forall p, first_where (partially projectName) projects p ->
             result = returned_project s w' projectName p) /\
  ((forall q, In q projects -> ~ partially projectName q) ->
   exists e, result = Thrown e (after_listing s w') /\
             (e = NoProjectsFound orgLogin \/
              e = ProjectNotFound projectName orgLogin
                    (map (@title _) projects))) /\
  (forall p s', result = Returned p s' ->
     world s' = w' /\
     console s' = console s ++
                  (if closed p then [WarningProjectClosed projectName] else [])).
Proof.
  intros H projects result.
  pose proof (@findProject_listed orgLogin projectName s projectsV2 w' H) as E.
  cbv zeta in E. fold projects in E. fold result in E.
  clearbody projects result.
  assert (Hne : forall P p, first_where P projects p ->
                            exists p0 rest, projects = p0 :: rest).
  { intros P p [pre [post [Hl _]]]. rewrite Hl.
    destruct pre; simpl; eauto. }
  assert (Hsub1 : forall q : Project NodeId,
             ignoring_case projectName q -> partially projectName q).
  { intros q Hq. exists [], []. rewrite app_nil_r. exact Hq. }
  assert (Hsub0 : forall q : Project NodeId,
             exactly projectName q -> ignoring_case projectName q).
  { intros q Hq. unfold ignoring_case. rewrite Hq. reflexivity. }
  split; [|split; [|split; [|split]]].
  - intros p Hp. destruct (Hne _ _ Hp) as [p0 [rest Hl]].
    rewrite E, Hl. rewrite <- Hl. unfold selectProject.
    rewrite (@find_first_where _ _ _ _ _ (exact_match_iff projectName) Hp).
    reflexivity.
  - intros Hno p Hp. destruct (Hne _ _ Hp) as [p0 [rest Hl]].
    rewrite E, Hl. rewrite <- Hl. unfold selectProject.
    rewrite (@find_none_where _ _ _ _ (exact_match_iff projectName) Hno).
    rewrite (@find_first_where _ _ _ _ _ (nocase_match_iff projectName) Hp).
    reflexivity.
  - intros Hno p Hp. destruct (Hne _ _ Hp) as [p0 [rest Hl]].
    rewrite E, Hl. rewrite <- Hl. unfold selectProject.
    rewrite (@find_none_where _ _ _ projects (exact_match_iff projectName))
      by (intros q Hq Hx; apply (Hno q Hq), Hsub0, Hx).
    rewrite (@find_none_where _ _ _ _ (nocase_match_iff projectName) Hno).
    rewrite (@find_first_where _ _ _ _ _ (partial_match_iff projectName) Hp).
    reflexivity.
  - intros Hno. rewrite E. destruct projects as [|p0 rest];
      [eexists; split; [reflexivity|left; reflexivity]|].
    unfold selectProject.
    rewrite (@find_none_where _ _ _ (p0 :: rest) (exact_match_iff projectName))
      by (intros q Hq Hx; apply (Hno q Hq), Hsub1, Hsub0, Hx).
    rewrite (@find_none_where _ _ _ (p0 :: rest) (nocase_match_iff projectName))
      by (intros q Hq Hx; apply (Hno q Hq), Hsub1, Hx).
    rewrite (@find_none_where _ _ _ _ (partial_match_iff projectName) Hno).
    eexists; split; [reflexivity|right; reflexivity].
  - intros p s' H0.
    destruct projects as [|p0 rest]; [rewrite E in H0; discriminate|].
    rewrite E in H0.
    destruct (selectProject (p0 :: rest) projectName); [|discriminate].
    unfold returned_project in H0. injection H0 as <- <-. split; reflexivity.
Qed.

End FindProject.

End ProjectFacts.

(** ** Step C.1: the test of one project item *)

Module MatchFacts.

Import Sync JsFacts Marker.

Lemma span_spec p s :
  let '(a, b) := span p s in
  s = a ++ b /\ Forall (fun c => p c = true) a /\
  match b with [] => True | c :: _ => p c = false end.
Proof.
  induction s as [|c s IH]; simpl; [auto|].
  destruct (p c) eqn:E.
  - destruct (span p s) as [a b]. destruct IH as [-> [H1 H2]].
    repeat split; auto.
  - repeat split; auto.
Qed.

Lemma span_app p a b :
  Forall (fun c => p c = true) a ->
  match b with [] => True | c :: _ => p c = false end ->
  span p (a ++ b) = (a, b).
Proof.
  intros Ha Hb. induction Ha as [|c a Hc Ha IH]; simpl.
  - destruct b as [|c b]; [reflexivity|]. simpl. rewrite Hb. reflexivity.
  - rewrite Hc, IH. reflexivity.
Qed.

Lemma parsePrTitle_iff title n :
  parsePrTitle title = Some n <-> title_names_pr title n.
Proof.
  unfold parsePrTitle, title_names_pr. split.
  - destruct (strip_prefix (lit "PR #") title) as [rest|] eqn:E; [|discriminate].
    apply strip_prefix_Some in E.
    pose proof (span_spec is_digit rest) as Hs.
    destruct (span is_digit rest) as [digits rest'].
    destruct Hs as [-> [Hd _]].
    destruct digits as [|d digits]; [discriminate|].
    destruct rest' as [|c rest']; [discriminate|].
    destruct (Ascii.eqb_spec c ":"%char) as [->|]; [|discriminate].
    intros H. injection H as <-.
    exists (d :: digits), rest'.
    split; [exact E|]. split; [discriminate|]. split; [exact Hd|reflexivity].
  - intros [digits [rest [-> [Hne [Hd <-]]]]].
    rewrite strip_prefix_app.
    rewrite (span_app is_digit digits (lit ":" ++ rest) Hd) by reflexivity.
    destruct digits; [contradiction|]. reflexivity.
Qed.

Lemma marker_line_at_nil body name :
  marker_line_at body [] name <->
  exists rest, strip_prefix repositoryMarker body = Some rest /\
               fst (span not_terminator rest) = name /\ name <> [].
Proof.
  split.
  - intros [post [-> [Hne [Hn Hp]]]]. cbn [app].
    exists (name ++ post). rewrite strip_prefix_app.
    rewrite (span_app _ _ _ Hn Hp). auto.
  - intros [rest [E [Hs Hne]]].
    apply strip_prefix_Some in E. subst body.
    pose proof (span_spec not_terminator rest) as H.
    destruct (span not_terminator rest) as [a b]. simpl in Hs. subst a.
    destruct H as [-> [Hn Hp]].
    exists b. auto.
Qed.

Lemma marker_line_at_cons c body pre name :
  marker_line_at (c :: body) (c :: pre) name <-> marker_line_at body pre name.
Proof.
  split; intros [post [E H]]; exists post; split; try exact H.
  - cbn [app] in E. injection E as E. exact E.
  - cbn [app]. f_equal. exact E.
Qed.

Lemma marker_line_at_head c body pre name :
  marker_line_at (c :: body) pre name ->
  pre = [] \/ exists pre', pre = c :: pre' /\ marker_line_at body pre' name.
Proof.
  intros H. destruct pre as [|c' pre]; [left; reflexivity|right].
  assert (c' = c) as ->.
  { destruct H as [post [E _]]. cbn [app] in E. injection E as -> _. reflexivity. }
  exists pre. split; [reflexivity|]. apply (marker_line_at_cons c), H.
Qed.

Lemma matchRepository_unfold c tl :
  matchRepository (c :: tl) =
  match strip_prefix repositoryMarker (c :: tl) with
  | Some rest =>
      match fst (span not_terminator rest) with
      | [] => matchRepository tl
      | name => Some name
      end
  | None => matchRepository tl
  end.
Proof. reflexivity. Qed.

(** The head of the body is a marker line or it is not. *)
Lemma marker_line_here body :
  (exists name, marker_line_at body [] name) \/
  (forall name, ~ marker_line_at body [] name).
Proof.
  destruct (strip_prefix repositoryMarker body) as [rest|] eqn:E.
  - destruct (fst (span not_terminator rest)) as [|x l] eqn:F.
    + right. intros name H. apply marker_line_at_nil in H.
      destruct H as [rest' [E' [F' Hne]]]. congruence.
    + left. exists (x :: l). apply marker_line_at_nil.
      exists rest. repeat split; auto. discriminate.
  - right. intros name H. apply marker_line_at_nil in H.
    destruct H as [rest' [E' _]]. congruence.
Qed.

Lemma matchRepository_here body name :
  marker_line_at body [] name -> matchRepository body = Some name.
Proof.
  intros H. pose proof H as H'. apply marker_line_at_nil in H.
  destruct H as [rest [E [F Hne]]].
  destruct body as [|c tl].
  - destruct H' as [post [E' _]]. discriminate.
  - rewrite matchRepository_unfold, E, F.
    destruct name; [contradiction|reflexivity].
Qed.

Lemma matchRepository_next c tl :
  (forall name, ~ marker_line_at (c :: tl) [] name) ->
  matchRepository (c :: tl) = matchRepository tl.
Proof.
  intros H. rewrite matchRepository_unfold.
  destruct (strip_prefix repositoryMarker (c :: tl)) as [rest|] eqn:E;
    [|reflexivity].
  destruct (fst (span not_terminator rest)) as [|x l] eqn:F; [reflexivity|].
  exfalso. apply (H (x :: l)). apply marker_line_at_nil.
  exists rest. repeat split; auto. discriminate.
Qed.

Lemma matchRepository_Some body :
  forall name, matchRepository body = Some name -> first_marker_line body name.
Proof.
  induction body as [|c tl IH]; intros name H; [discriminate|].
  destruct (marker_line_here (c :: tl)) as [[name0 H0]|H0].
  - rewrite (matchRepository_here _ _ H0) in H. injection H as <-.
    exists []. split; [exact H0|]. intros; simpl; lia.
  - rewrite (matchRepository_next _ _ H0) in H.
    destruct (IH name H) as [pre [H1 H2]].
    exists (c :: pre). split; [apply marker_line_at_cons, H1|].
    intros pre' name' H'.
    destruct (marker_line_at_head _ _ _ _ H') as [->|[pre'' [-> H'']]].
    + exfalso. apply (H0 name'), H'.
    + simpl. apply le_n_S. apply (H2 pre'' name'), H''.
Qed.

Lemma matchRepository_None body :
  matchRepository body = None ->
  forall pre name, ~ marker_line_at body pre name.
Proof.
  induction body as [|c tl IH]; intros H pre name Hm.
  - destruct Hm as [post [E _]].
    destruct pre; discriminate.
  - destruct (marker_line_here (c :: tl)) as [[name0 H0]|H0].
    + rewrite (matchRepository_here _ _ H0) in H. discriminate.
    + rewrite (matchRepository_next _ _ H0) in H.
      destruct (marker_line_at_head _ _ _ _ Hm) as [->|[pre' [-> Hm']]].
      * apply (H0 name), Hm.
      * apply (IH H pre' name), Hm'.
Qed.

(** The rest of the line at a given offset is determined. *)
Lemma marker_line_at_unique body pre1 pre2 name1 name2 :
  marker_line_at body pre1 name1 -> marker_line_at body pre2 name2 ->
  length pre1 = length pre2 -> name1 = name2.
Proof.
  revert body pre2. induction pre1 as [|c pre1 IH]; intros body pre2 H1 H2 Hl.
  - destruct pre2; [|discriminate].
    apply matchRepository_here in H1, H2. congruence.
  - destruct pre2 as [|c2 pre2]; [discriminate|].
    destruct body as [|b body].
    { destruct H1 as [post [E _]]. discriminate. }
    destruct (marker_line_at_head _ _ _ _ H1) as [?|[p1 [E1 H1']]]; [discriminate|].
    destruct (marker_line_at_head _ _ _ _ H2) as [?|[p2 [E2 H2']]]; [discriminate|].
    injection E1 as _ <-. injection E2 as _ <-.
    apply (IH body pre2 H1' H2'). simpl in Hl. lia.
Qed.

Lemma matchRepository_iff body name :
  matchRepository body = Some name <-> first_marker_line body name.
Proof.
  split; [apply matchRepository_Some|].
  intros [pre [H1 H2]].
  destruct (matchRepository body) as [name'|] eqn:E.
  - destruct (matchRepository_Some _ _ E) as [pre' [H1' H2']].
    f_equal. apply (marker_line_at_unique _ _ _ _ _ H1' H1).
    apply Nat.le_antisymm; [apply (H2' pre name), H1|apply (H2 pre' name'), H1'].
  - exfalso. apply (matchRepository_None _ E pre name), H1.
Qed.

Section MatchItem.

Variable NodeId : Type.

Lemma matchItem_Some prNumber repository (item : ItemNode NodeId) found :
  matchItem prNumber repository item = Some found ->
  found = {| found_issue := found_issue found; found_itemId := item_id item |} /\
  item_content item = Some (IssueContent (found_issue found)) /\
  parsePrTitle (issue_title (found_issue found)) = Some prNumber /\
  exists name, matchRepository (body_text (found_issue found)) = Some name /\
               trim name = repository.
Proof.
  unfold matchItem.
  destruct (item_content item) as [[issue|]|]; try discriminate.
  destruct (issue_title issue) as [|t0 title] eqn:Et; [discriminate|].
  destruct (parsePrTitle (t0 :: title)) as [n|] eqn:Ep; [|discriminate].
  destruct (N.eqb_spec n prNumber) as [->|]; [|discriminate].
  fold (body_text issue).
  destruct (matchRepository (body_text issue)) as [name|] eqn:Em;
    [|discriminate].
  cbn [option_map].
  destruct (str_eqb (trim name) repository) eqn:Er; [|discriminate].
  intros H. injection H as <-. cbn [found_issue found_itemId].
  apply str_eqb_eq in Er.
  split; [reflexivity|]. split; [reflexivity|].
  split; [rewrite Et; exact Ep|].
  exists name. split; [exact Em|exact Er].
Qed.

Lemma matchItem_first_line prNumber repository (item : ItemNode NodeId)
    issue name :
  item_content item = Some (IssueContent issue) ->
  parsePrTitle (issue_title issue) = Some prNumber ->
  matchRepository (body_text issue) = Some name ->
  trim name = repository ->
  matchItem prNumber repository item =
  Some {| found_issue := issue; found_itemId := item_id item |}.
Proof.
  intros Hc Hp Hm Ht. unfold matchItem. rewrite Hc.
  destruct (issue_title issue) as [|t0 title] eqn:Et; [discriminate|].
  rewrite Hp, N.eqb_refl. fold (body_text issue). rewrite Hm.
  cbn [option_map]. rewrite Ht, str_eqb_refl. reflexivity.
Qed.

Lemma matchItem_without_marker prNumber repository
    (item : ItemNode NodeId) issue :
  item_content item = Some (IssueContent issue) ->
  matchRepository (body_text issue) = None ->
  matchItem prNumber repository item = None.
Proof.
  intros Hc Hm. unfold matchItem. rewrite Hc.
  destruct (issue_title issue) as [|t0 title]; [reflexivity|].
  destruct (parsePrTitle (t0 :: title)) as [n|]; [|reflexivity].
  destruct (n =? prNumber)%N; [|reflexivity].
  fold (body_text issue). rewrite Hm. reflexivity.
Qed.

(** The [for] loop returns the first item that passes the test. *)
Lemma scanItems_first prNumber repository
    (items : list (ItemNode NodeId)) found :
  scanItems prNumber repository items = Some found <->
  exists before item after,
    items = before ++ item :: after /\
    matchItem prNumber repository item = Some found /\
    forall other, In other before ->
                  matchItem prNumber repository other = None.
Proof.
  induction items as [|item items IH]; simpl.
  - split; [discriminate|]. intros [before [item [after [E _]]]].
    destruct before; discriminate.
  - destruct (matchItem prNumber repository item) as [f|] eqn:Em.
    + split.
      * intros H. exists [], item, items. rewrite Em.
        repeat split; auto. intros other [].
      * intros [[|b before] [item' [after [E [Hm Hb]]]]].
        -- injection E as -> _. congruence.
        -- injection E as -> _. rewrite (Hb b) in Em by (left; reflexivity).
           discriminate.
    + rewrite IH. split.
      * intros [before [item' [after [-> [Hm Hb]]]]].
        exists (item :: before), item', after. repeat split; auto.
        intros other [<-|Ho]; auto.
      * intros [[|b before] [item' [after [E [Hm Hb]]]]].
        -- injection E as -> _. congruence.
        -- injection E as _ ->. exists before, item', after.
           repeat split; auto. intros other Ho. apply Hb. right. exact Ho.
Qed.

End MatchItem.


(** C5, the claim as stated fails: an item whose title names pull request
    5 and whose body holds a marker line for the repository [app] below a
    marker line for another repository is not matched; the script reads
    the first marker line only. *)
Lemma later_marker_line_is_not_read :
  let body := lit "**Repository:** other" ++ newline ++
              lit "**Repository:** app" in
  let item := {| item_id := 1%nat;
                 item_content :=
                   Some (IssueContent
                           {| issue_id := 2%nat; issue_number := 9;
                              issue_title := lit "PR #5: Add x";
                              issue_body := Some body |}) |} in
  claimed_match 5 (lit "app") item /\
  matchItem 5 (lit "app") item = None.
Proof.
  split; [|reflexivity].
  eexists. split; [reflexivity|]. split.
  - exists (lit "5"), (lit " Add x"). repeat split.
    + discriminate.
    + repeat constructor.
  - exists (lit "**Repository:** other" ++ newline), (lit "app").
    split; [|reflexivity].
    exists []. repeat split.
    + discriminate.
    + repeat constructor.
Qed.

(** C5, amended: an item is returned as a match if and only if its content
    is an issue whose title parses as [PR #<number>:] with the target
    number and the first marker line of whose body, that is the rest of the
    line after the leftmost [**Repository:** ] that is followed by a
    character on its line, is the target repository once trimmed; an item
    whose body has no marker line is never matched; and the loop returns
    the first item that passes this test. *)
Theorem matchItem_iff_first_marker_line (NodeId : Type)
    (prNumber : N) (repository : str) :
  (forall (item : ItemNode NodeId) (found : Found NodeId),
     matchItem prNumber repository item = Some found <->
     first_line_match prNumber repository item /\
     item_content item = Some (IssueContent (found_issue found)) /\
     found_itemId found = item_id item) /\
  (forall (item : ItemNode NodeId) (issue : Issue NodeId),
     item_content item = Some (IssueContent issue) ->
     (forall pre name, ~ marker_line_at (body_text issue) pre name) ->
     matchItem prNumber repository item = None) /\
  (forall (items : list (ItemNode NodeId)) (found : Found NodeId),
     scanItems prNumber repository items = Some found <->
     exists before item after,
       items = before ++ item :: after /\
       matchItem prNumber repository item = Some found /\
       forall other, In other before ->
                     matchItem prNumber repository other = None).
Proof.
  split; [|split].
  - intros item found. split.
    + intros H. apply matchItem_Some in H.
      destruct H as [Hf [Hc [Hp [name [Hm Ht]]]]].
      split; [|split; [exact Hc|rewrite Hf; reflexivity]].
      exists (found_issue found). split; [exact Hc|].
      split; [apply parsePrTitle_iff, Hp|].
      exists name. split; [apply matchRepository_iff, Hm|exact Ht].
    + intros [[issue [Hc [Hp [name [Hm Ht]]]]] [Hc' Hi]].
      assert (issue = found_issue found) as -> by congruence.
      rewrite (matchItem_first_line NodeId prNumber repository item
                 (found_issue found) name Hc
                 (proj2 (parsePrTitle_iff _ _) Hp)
                 (proj2 (matchRepository_iff _ _) Hm) Ht).
      destruct found as [fi fid]. cbn in Hi. subst fid. reflexivity.
  - intros item issue Hc Hno.
    apply (matchItem_without_marker NodeId prNumber repository item issue Hc).
    destruct (matchRepository (body_text issue)) as [name|] eqn:E;
      [|reflexivity].
    apply matchRepository_Some in E. destruct E as [pre [E _]].
    exfalso. apply (Hno pre name E).
  - apply scanItems_first.
Qed.

End MatchFacts.

(** ** Step C.1: the paginated listing *)

Module ListingFacts.

Import Sync Listing.

Section Listing.

Variables NodeId Cursor World : Type.
Variable api : GitHub NodeId Cursor World.
Variable projectId : NodeId.
Variable prNumber : N.
Variable repository : str.

Lemma scanPages_step fuel cursor s :
  scanPages api (S fuel) projectId prNumber repository cursor s =
  match graphql_items api projectId 100 cursor (world s) with
  | (Ok r, w) =>
      match scanItems prNumber repository (page_items r) with
      | Some found => Returned (Some found) (moved s w)
      | None =>
          if page_more r
          then scanPages api fuel projectId prNumber repository
                 (page_cursor r) (moved s w)
          else Returned None (moved s w)
      end
  | (Failed m, w) => Thrown (ApiError m) (moved s w)
  end.
Proof.
  cbn [scanPages]. unfold bind, call.
  destruct (graphql_items api projectId 100 cursor (world s)) as [[r|m] w];
    [|reflexivity].
  cbv beta iota zeta. fold (moved s w).
  unfold page_items, page_more, page_cursor, page_info.
  destruct r as [itemsData|]; cbv beta iota;
    (destruct (scanItems prNumber repository _); [reflexivity|]);
    [destruct (pageInfo itemsData) as [p|]; [destruct (hasNextPage p)|]|];
    reflexivity.
Qed.

Lemma listing_stops_positive n w cursor :
  listing_stops api projectId prNumber repository n w cursor -> 1 <= n.
Proof. intros H; destruct H; lia. Qed.

Lemma scanPages_stops n :
  forall cursor s fuel,
    listing_stops api projectId prNumber repository n (world s) cursor -> n <= fuel ->
    scanPages api fuel projectId prNumber repository cursor s <> OutOfFuel.
Proof.
  induction n as [|n IH]; intros cursor s fuel H Hf.
  - apply listing_stops_positive in H. lia.
  - destruct fuel as [|fuel]; [lia|]. rewrite scanPages_step.
    inversion H as [w c m w' E|w c r w' found E Hs|w c r w' E Hs Hm
                   |k w c r w' E Hs Hm Hk]; subst; rewrite E.
    + discriminate.
    + rewrite Hs. discriminate.
    + rewrite Hs, Hm. discriminate.
    + rewrite Hs, Hm. apply IH; [exact Hk|lia].
Qed.

Lemma scanPages_stopped fuel :
  forall cursor s,
    scanPages api fuel projectId prNumber repository cursor s <> OutOfFuel ->
    exists n, n <= fuel /\ listing_stops api projectId prNumber repository n (world s) cursor.
Proof.
  induction fuel as [|fuel IH]; intros cursor s H.
  - exfalso. apply H. reflexivity.
  - rewrite scanPages_step in H.
    destruct (graphql_items api projectId 100 cursor (world s))
      as [[r|m] w] eqn:E.
    + destruct (scanItems prNumber repository (page_items r)) as [f|] eqn:Hs.
      * exists 1. split; [lia|]. eapply stops_found; eassumption.
      * destruct (page_more r) eqn:Hm.
        -- destruct (IH _ _ H) as [n [Hn Hl]].
           exists (S n). split; [lia|].
           eapply stops_later; eassumption.
        -- exists 1. split; [lia|]. eapply stops_last; eassumption.
    + exists 1. split; [lia|]. eapply stops_failed; eassumption.
Qed.

Lemma scanPages_fails n :
  forall w cursor w' m,
    listing_fails api projectId prNumber repository n w cursor w' m ->
    forall s fuel, world s = w -> n <= fuel ->
    scanPages api fuel projectId prNumber repository cursor s =
    Thrown (ApiError m) (moved s w').
Proof.
  intros w cursor w' m H.
  induction H as [w cursor m w' E|n w cursor r w1 w' m E Hs Hm H IH];
    intros s fuel Hw Hf; (destruct fuel as [|fuel]; [lia|]);
    rewrite scanPages_step, Hw, E.
  - reflexivity.
  - rewrite Hs, Hm. rewrite IH; [reflexivity|reflexivity|lia].
Qed.

Lemma scanPages_exhausted n :
  forall w cursor w',
    listing_exhausted api projectId prNumber repository n w cursor w' ->
    forall s fuel, world s = w -> n <= fuel ->
    scanPages api fuel projectId prNumber repository cursor s =
    Returned None (moved s w').
Proof.
  intros w cursor w' H.
  induction H as [w cursor r w' E Hs Hm|n w cursor r w1 w' E Hs Hm H IH];
    intros s fuel Hw Hf; (destruct fuel as [|fuel]; [lia|]);
    rewrite scanPages_step, Hw, E, Hs, Hm.
  - reflexivity.
  - rewrite IH; [reflexivity|reflexivity|lia].
Qed.

End Listing.


End ListingFacts.

(** ** Step C: find or create *)

Module UpsertFacts.

Import Sync Listing ListingFacts.

Section FindOrCreate.

Variables NodeId Cursor World : Type.
Variable api : GitHub NodeId Cursor World.
Variable projectId : NodeId.
Variable prNumber : N.
Variables orgLogin repository prTitle prUrl prAuthor : str.
Variable stats : PrStats.
Variables effort weight : str.

Local Abbreviation canonical_fields :=
  (Upsert.canonical_fields prNumber repository prTitle prUrl prAuthor stats
     effort weight).
Local Abbreviation searchQuery :=
  (Upsert.searchQuery prNumber orgLogin repository).

Lemma findExisting_out_of_fuel fuel s :
  findExistingIssueInProject api fuel projectId prNumber repository s
  = OutOfFuel <->
  scanPages api fuel projectId prNumber repository None s = OutOfFuel.
Proof.
  unfold findExistingIssueInProject, try_catch.
  destruct (scanPages api fuel projectId prNumber repository None s);
    split; intros H; try discriminate; try reflexivity.
Qed.

Lemma findExisting_failed n s w' m fuel :
  listing_fails api projectId prNumber repository n (world s) None w' m ->
  n <= fuel ->
  findExistingIssueInProject api fuel projectId prNumber repository s =
  Returned None
    {| world := w';
       console := console s ++ [CouldNotCheckProjectItems (ApiError m)] |}.
Proof.
  intros H Hf. unfold findExistingIssueInProject, try_catch.
  rewrite (scanPages_fails _ _ _ _ _ _ _ _ _ _ _ _ H s fuel eq_refl Hf).
  reflexivity.
Qed.

Lemma findExisting_exhausted n s w' fuel :
  listing_exhausted api projectId prNumber repository n (world s) None w' ->
  n <= fuel ->
  findExistingIssueInProject api fuel projectId prNumber repository s =
  Returned None {| world := w'; console := console s |}.
Proof.
  intros H Hf. unfold findExistingIssueInProject, try_catch.
  rewrite (scanPages_exhausted _ _ _ _ _ _ _ _ _ _ _ H s fuel eq_refl Hf).
  reflexivity.
Qed.

(** What [findOrCreateIssue] does after the project holds no match: the
    search of the repository, then the update of the first hit or the
    creation of a new issue. *)
Lemma findOrCreate_not_in_project fuel s s1 :
  findExistingIssueInProject api fuel projectId prNumber repository s =
  Returned None s1 ->
  findOrCreateIssue api fuel orgLogin repository prNumber prTitle prUrl
    prAuthor stats effort weight projectId s =
  match rest_search api searchQuery (world s1) with
  | (Ok (Some (repoIssue :: _)), w2) =>
      match rest_issues_update api orgLogin repository (hit_number repoIssue)
              canonical_fields w2 with
      | (Ok _, w3) =>
          Returned {| issueId := hit_node_id repoIssue;
                      issueNumber := hit_number repoIssue;
                      itemId := None; isNew := false |}
                   {| world := w3; console := console s1 |}
      | (Failed m, w3) =>
          Thrown (ApiError m) {| world := w3; console := console s1 |}
      end
  | (Ok _, w2) =>
      match rest_issues_create api orgLogin repository canonical_fields w2 with
      | (Ok created, w3) =>
          Returned {| issueId := snd created; issueNumber := fst created;
                      itemId := None; isNew := true |}
                   {| world := w3; console := console s1 |}
      | (Failed m, w3) =>
          Thrown (ApiError m) {| world := w3; console := console s1 |}
      end
  | (Failed m, w2) => Thrown (ApiError m) {| world := w2; console := console s1 |}
  end.
Proof.
  intros H. unfold findOrCreateIssue, bind at 1. rewrite H.
  unfold bind, call, ret. fold searchQuery. fold canonical_fields.
  destruct (rest_search api searchQuery (world s1)) as [[hits|m] w2];
    [|reflexivity].
  cbn [world console].
  destruct hits as [[|repoIssue hits]|].
  - destruct (rest_issues_create _ _ _ _ _) as [[created|m] w3]; reflexivity.
  - destruct (rest_issues_update _ _ _ _ _ _) as [[[]|m] w3]; reflexivity.
  - destruct (rest_issues_create _ _ _ _ _) as [[created|m] w3]; reflexivity.
Qed.

Lemma findOrCreate_in_project fuel s s1 found :
  findExistingIssueInProject api fuel projectId prNumber repository s =
  Returned (Some found) s1 ->
  findOrCreateIssue api fuel orgLogin repository prNumber prTitle prUrl
    prAuthor stats effort weight projectId s =
  match rest_issues_update api orgLogin repository
          (issue_number (found_issue found)) canonical_fields (world s1) with
  | (Ok _, w3) =>
      Returned {| issueId := issue_id (found_issue found);
                  issueNumber := issue_number (found_issue found);
                  itemId := Some (found_itemId found); isNew := false |}
               {| world := w3; console := console s1 |}
  | (Failed m, w3) =>
      Thrown (ApiError m) {| world := w3; console := console s1 |}
  end.
Proof.
  intros H. unfold findOrCreateIssue, bind at 1. rewrite H.
  unfold bind, call, ret. fold canonical_fields.
  destruct (rest_issues_update _ _ _ _ _ _) as [[[]|m] w3]; reflexivity.
Qed.

(** The text of [createIssueBody], line by line. *)
Lemma createIssueBody_lines :
  createIssueBody prNumber prUrl repository prAuthor stats effort weight =
  unlines [lit "**PR:** #" ++ decimal prNumber;
           lit "**PR Link:** " ++ prUrl;
           [];
           lit "**Repository:** " ++ repository;
           lit "**Author:** @" ++ prAuthor;
           [];
           lit "**Stats:**";
           lit "- Files Changed: " ++ decimal (filesChanged stats);
           lit "- Additions: +" ++ decimal (additions stats);
           lit "- Deletions: -" ++ decimal (deletions stats);
           lit "- Total Changes: " ++ decimal (totalChanges stats);
           lit "- **Weight: " ++ weight ++ lit "**";
           lit "- **Effort: " ++ effort ++ lit "**"].
Proof.
  unfold createIssueBody. cbn [unlines]. rewrite <- !app_assoc.
  reflexivity.
Qed.

(** C7: in each of the three branches of [findOrCreateIssue] (the issue
    found in the project, found by the search of the repository, or newly
    created) the call that the branch makes carries the title
    [PR #<number>: <current PR title>], the body of [createIssueBody] and
    the PR author as the only assignee: whenever the function returns, the
    service has just answered such an update, or such a creation, of the
    issue that is returned. The body is the template, line by line: the
    PR number, the PR link, an empty line, the repository, the author, an
    empty line and the block of the statistics, the weight and the
    effort. *)
Theorem every_branch_upserts fuel s info s' :
  findOrCreateIssue api fuel orgLogin repository prNumber prTitle prUrl
    prAuthor stats effort weight projectId s = Returned info s' ->
  f_title canonical_fields = lit "PR #" ++ decimal prNumber ++ lit ": " ++ prTitle /\
  f_body canonical_fields =
    createIssueBody prNumber prUrl repository prAuthor stats effort weight /\
  f_body canonical_fields =
    unlines [lit "**PR:** #" ++ decimal prNumber;
             lit "**PR Link:** " ++ prUrl;
             [];
             lit "**Repository:** " ++ repository;
             lit "**Author:** @" ++ prAuthor;
             [];
             lit "**Stats:**";
             lit "- Files Changed: " ++ decimal (filesChanged stats);
             lit "- Additions: +" ++ decimal (additions stats);
             lit "- Deletions: -" ++ decimal (deletions stats);
             lit "- Total Changes: " ++ decimal (totalChanges stats);
             lit "- **Weight: " ++ weight ++ lit "**";
             lit "- **Effort: " ++ effort ++ lit "**"] /\
  f_assignees canonical_fields = [prAuthor] /\
  exists w0,
    (exists item, itemId info = Some item /\ isNew info = false /\
       rest_issues_update api orgLogin repository (issueNumber info)
         canonical_fields w0 = (Ok tt, world s')) \/
    (itemId info = None /\ isNew info = false /\
       rest_issues_update api orgLogin repository (issueNumber info)
         canonical_fields w0 = (Ok tt, world s')) \/
    (itemId info = None /\ isNew info = true /\
       rest_issues_create api orgLogin repository canonical_fields w0
       = (Ok (issueNumber info, issueId info), world s')).
Proof.
  intros H. split; [reflexivity|]. split; [reflexivity|].
  split; [exact createIssueBody_lines|]. split; [reflexivity|].
  destruct (findExistingIssueInProject api fuel projectId prNumber
              repository s) as [[found|] s1|e s1|] eqn:E.
  - rewrite (findOrCreate_in_project fuel s s1 found E) in H.
    exists (world s1).
    destruct (rest_issues_update _ _ _ _ _ _) as [[[]|m] w3] eqn:U;
      [|discriminate].
    injection H as <- <-. left. exists (found_itemId found).
    repeat split; assumption.
  - rewrite (findOrCreate_not_in_project fuel s _ E) in H.
    destruct (rest_search api searchQuery (world s1)) as [[hits|m] w2];
      [|discriminate].
    exists w2.
    destruct hits as [[|repoIssue hits]|].
    + destruct (rest_issues_create _ _ _ _ _) as [[[number node]|m] w3] eqn:C;
        [|discriminate].
      injection H as <- <-. right; right. repeat split; assumption.
    + destruct (rest_issues_update _ _ _ _ _ _) as [[[]|m] w3] eqn:U;
        [|discriminate].
      injection H as <- <-. right; left. repeat split; assumption.
    + destruct (rest_issues_create _ _ _ _ _) as [[[number node]|m] w3] eqn:C;
        [|discriminate].
      injection H as <- <-. right; right. repeat split; assumption.
  - unfold findOrCreateIssue, bind at 1 in H. rewrite E in H. discriminate.
  - unfold findOrCreateIssue, bind at 1 in H. rewrite E in H. discriminate.
Qed.

(** C9, amended: the loop over the project items terminates exactly when
    the service at some point stops it, with an error, with a page that
    holds a match, or with a page that reports no next page. There is no
    guard against a cursor that does not advance. *)
Theorem listing_terminates_iff_service_stops fuel s :
  findExistingIssueInProject api fuel projectId prNumber repository s
  <> OutOfFuel <->
  exists n, n <= fuel /\
            listing_stops api projectId prNumber repository n (world s) None.
Proof.
  rewrite findExisting_out_of_fuel. split.
  - apply scanPages_stopped.
  - intros [n [Hn H]]. eapply scanPages_stops; eassumption.
Qed.

(** C10: when the listing of the project items fails at any page, the
    pages before it holding no match, [findExistingIssueInProject] logs
    the error and returns null, the value that it returns when the listing
    ends without a match; [findOrCreateIssue] then goes on with the search
    of the repository, updates the first hit, and creates a new issue when
    the search finds nothing. *)
Theorem listing_failure_reads_as_no_match n s w' m fuel :
  listing_fails api projectId prNumber repository n (world s) None w' m ->
  n <= fuel ->
  let s1 := {| world := w';
               console := console s ++
                          [CouldNotCheckProjectItems (ApiError m)] |} in
  findExistingIssueInProject api fuel projectId prNumber repository s =
  Returned None s1 /\
  (forall n0 s0 w0,
     listing_exhausted api projectId prNumber repository n0 (world s0) None w0 ->
     n0 <= fuel ->
     findExistingIssueInProject api fuel projectId prNumber repository s0 =
     Returned None {| world := w0; console := console s0 |}) /\
  (forall hits w2 number node w3,
     rest_search api searchQuery w' = (Ok hits, w2) ->
     hits = None \/ hits = Some [] ->
     rest_issues_create api orgLogin repository canonical_fields w2
     = (Ok (number, node), w3) ->
     findOrCreateIssue api fuel orgLogin repository prNumber prTitle prUrl
       prAuthor stats effort weight projectId s =
     Returned {| issueId := node; issueNumber := number;
                 itemId := None; isNew := true |}
              {| world := w3; console := console s1 |}) /\
  (forall repoIssue others w2 w3,
     rest_search api searchQuery w' = (Ok (Some (repoIssue :: others)), w2) ->
     rest_issues_update api orgLogin repository (hit_number repoIssue)
       canonical_fields w2 = (Ok tt, w3) ->
     findOrCreateIssue api fuel orgLogin repository prNumber prTitle prUrl
       prAuthor stats effort weight projectId s =
     Returned {| issueId := hit_node_id repoIssue;
                 issueNumber := hit_number repoIssue;
                 itemId := None; isNew := false |}
              {| world := w3; console := console s1 |}).
Proof.
  intros H Hf s1.
  pose proof (findExisting_failed n s w' m fuel H Hf) as E. fold s1 in E.
  split; [exact E|]. split; [|split].
  - intros n0 s0 w0 H0 Hf0. apply (findExisting_exhausted n0 s0 w0 fuel H0 Hf0).
  - intros hits w2 number node w3 Hs Hh Hc.
    rewrite (findOrCreate_not_in_project fuel s _ E).
    subst s1. cbn [world console].
    rewrite Hs. destruct Hh as [->| ->]; rewrite Hc; reflexivity.
  - intros repoIssue others w2 w3 Hs Hu.
    rewrite (findOrCreate_not_in_project fuel s _ E).
    subst s1. cbn [world console].
    rewrite Hs, Hu. reflexivity.
Qed.

End FindOrCreate.

(** C9, the claim as stated fails: against a service that answers every
    request with an empty page, [hasNextPage] true and the same cursor, the
    loop neither returns nor throws, whatever the fuel. *)
Lemma stuck_listing_never_terminates :
  ~ exists fuel,
      findExistingIssueInProject Stuck.github fuel 0 5 (lit "app")
        {| world := tt; console := [] |} <> OutOfFuel.
Proof.
  intros [fuel H]. apply H. clear H.
  apply (proj2 (findExisting_out_of_fuel _ _ _ Stuck.github 0 5 (lit "app") fuel _)).
  generalize (None : option nat).
  generalize ({| world := tt; console := [] |} : State unit).
  induction fuel as [|fuel IH]; intros s c; [reflexivity|].
  rewrite scanPages_step. cbn. apply IH.
Qed.

End UpsertFacts.

(** ** The canonical title and body are read back *)

Module CanonicalFacts.

Import Sync JsFacts Marker MatchFacts.

Lemma parse_uint_acc d :
  forall acc, fold_left add_digit (uint_chars d) (Npos acc)
              = Npos (Pos.of_uint_acc d acc).
Proof.
  induction d; intros acc; cbn [uint_chars fold_left Pos.of_uint_acc];
    try reflexivity; rewrite <- IHd; f_equal; unfold add_digit;
    match goal with |- context [digit_value ?c] =>
      let v := eval vm_compute in (digit_value c) in
      change (digit_value c) with v
    end; lia.
Qed.

Lemma parse_uint d : fold_left add_digit (uint_chars d) 0%N = Pos.of_uint d.
Proof.
  induction d; cbn [uint_chars fold_left Pos.of_uint];
    try reflexivity; try exact IHd; rewrite <- parse_uint_acc; reflexivity.
Qed.

Lemma parseInt_decimal n : parseInt (decimal n) = n.
Proof.
  unfold parseInt, decimal. fold add_digit. rewrite parse_uint.
  apply DecimalN.Unsigned.of_to.
Qed.

Lemma uint_chars_digits d :
  Forall (fun c => is_digit c = true) (uint_chars d).
Proof. induction d; cbn [uint_chars]; constructor; auto. Qed.

Lemma decimal_digits n : Forall (fun c => is_digit c = true) (decimal n).
Proof. apply uint_chars_digits. Qed.

Lemma decimal_nonempty n : decimal n <> [].
Proof.
  unfold decimal. destruct n as [|p]; [discriminate|].
  pose proof (DecimalPos.Unsigned.to_uint_nonnil p) as H.
  cbn [N.to_uint]. destruct (Pos.to_uint p); try discriminate. contradiction.
Qed.

(** The title that the script writes parses back to the PR number. *)
Lemma parsePrTitle_issueTitle prNumber prTitle :
  parsePrTitle (issueTitle prNumber prTitle) = Some prNumber.
Proof.
  apply parsePrTitle_iff.
  exists (decimal prNumber), (lit " " ++ prTitle).
  split; [reflexivity|]. split; [apply decimal_nonempty|].
  split; [apply decimal_digits|apply parseInt_decimal].
Qed.

Lemma trim_start_id c s : is_space c = false -> trim_start (c :: s) = c :: s.
Proof. intros H. cbn [trim_start]. rewrite H. reflexivity. Qed.

Lemma trim_repository_name s : repository_name s -> trim s = s.
Proof.
  intros [Hne Hs]. unfold trim, trim_end.
  destruct s as [|c s]; [contradiction|].
  rewrite trim_start_id by (inversion Hs; assumption).
  assert (Hr : Forall (fun c => is_space c = false) (rev (c :: s)))
    by (apply Forall_rev, Hs).
  destruct (rev (c :: s)) as [|d r] eqn:E.
  - apply (f_equal (@length _)) in E. rewrite length_rev in E. discriminate.
  - rewrite trim_start_id by (inversion Hr; assumption).
    rewrite <- E. apply rev_involutive.
Qed.

Lemma space_of_terminator c : is_space c = false -> not_terminator c = true.
Proof.
  unfold is_space, not_terminator, is_line_terminator.
  destruct (N.eqb_spec (code c) 10) as [->|]; [discriminate|].
  destruct (N.eqb_spec (code c) 13) as [->|]; [discriminate|].
  reflexivity.
Qed.

Lemma matchRepository_skip c s :
  strip_prefix repositoryMarker (c :: s) = None ->
  matchRepository (c :: s) = matchRepository s.
Proof. intros H. rewrite matchRepository_unfold, H. reflexivity. Qed.

Lemma matchRepository_skip_all l s :
  no_star l -> matchRepository (l ++ s) = matchRepository s.
Proof.
  intros H. induction H as [|c l Hc Hl IH]; [reflexivity|].
  cbn [app]. rewrite matchRepository_skip; [exact IH|].
  unfold repositoryMarker. cbn [lit list_ascii_of_string strip_prefix].
  rewrite Ascii.eqb_sym, Hc. reflexivity.
Qed.

Lemma digits_no_star l :
  Forall (fun c => is_digit c = true) l -> no_star l.
Proof.
  intros H. induction H as [|c l Hc Hl IH]; constructor; [|exact IH].
  destruct (Ascii.eqb_spec c "*") as [->|]; [discriminate|reflexivity].
Qed.

(** The body that the script writes names the repository on its first
    marker line. *)
Lemma matchRepository_createIssueBody
    prNumber prUrl repository prAuthor stats effort weight :
  repository_name repository -> no_star prUrl ->
  matchRepository
    (createIssueBody prNumber prUrl repository prAuthor stats effort weight)
  = Some repository.
Proof.
  intros [Hne Hs] Hu. unfold createIssueBody.
  cbn [lit list_ascii_of_string app newline].
  do 9 (rewrite matchRepository_skip by reflexivity).
  rewrite matchRepository_skip_all by apply digits_no_star, decimal_digits.
  do 14 (rewrite matchRepository_skip by reflexivity).
  rewrite matchRepository_skip_all by exact Hu.
  do 2 (rewrite matchRepository_skip by reflexivity).
  apply matchRepository_here. apply marker_line_at_nil.
  eexists. split; [reflexivity|]. split; [|exact Hne].
  rewrite span_app; [reflexivity| |reflexivity].
  apply Forall_impl with (2 := Hs). intros c Hc. apply space_of_terminator, Hc.
Qed.

End CanonicalFacts.

(** ** Runs against the reference model *)

Module MemoryFacts.

Import Sync Memory Resolve Marker Listing Upsert Summary.
Import JsFacts ProjectFacts MatchFacts ListingFacts UpsertFacts CanonicalFacts.

Lemma scanItems_app (NodeId : Type) prNumber repository
    (a b : list (ItemNode NodeId)) :
  scanItems prNumber repository (a ++ b) =
  match scanItems prNumber repository a with
  | Some found => Some found
  | None => scanItems prNumber repository b
  end.
Proof.
  induction a as [|x a IH]; [reflexivity|]. cbn [app scanItems].
  destruct (matchItem prNumber repository x); [reflexivity|exact IH].
Qed.

Lemma moved_same (s : State Store) w : world s = w -> moved s w = s.
Proof. intros <-. destruct s; reflexivity. Qed.


Section Scan.

Variable w : Store.
Variable projectId : nat.
Variable prNumber : N.
Variable repository : str.
Hypothesis no_outage : items_outage w = false.

Let all := project_nodes w projectId.

(** Without an outage the loop reads the listing to its end, or to the
    first item that passes the test. *)
Lemma scanPages_memory fuel :
  forall offset cursor s,
    world s = w ->
    cursor = Some offset \/ (cursor = None /\ offset = 0) ->
    length (skipn offset all) / 100 < fuel ->
    scanPages github fuel projectId prNumber repository cursor s =
    Returned (scanItems prNumber repository (skipn offset all)) s.
Proof.
  induction fuel as [|fuel IH]; intros offset cursor s Hw Hc Hf; [lia|].
  rewrite scanPages_step. cbn [graphql_items github].
  unfold list_items. rewrite Hw, no_outage. fold all.
  assert (Ho : match cursor with Some c => c | None => 0 end = offset)
    by (destruct Hc as [->|[-> ->]]; reflexivity).
  rewrite Ho, (moved_same s w Hw).
  set (rest := skipn offset all) in *.
  unfold page_items, page_more, page_cursor, page_info. cbn [nodes pageInfo hasNextPage endCursor].
  assert (Hsplit : scanItems prNumber repository rest =
                   match scanItems prNumber repository (firstn 100 rest) with
                   | Some found => Some found
                   | None => scanItems prNumber repository (skipn 100 rest)
                   end)
    by (rewrite <- scanItems_app, firstn_skipn; reflexivity).
  rewrite Hsplit. clear Hsplit.
  destruct (scanItems prNumber repository (firstn 100 rest)) as [found|];
    [reflexivity|].
  assert (Hlen : length rest = length all - offset)
    by (unfold rest; apply length_skipn).
  destruct (Nat.ltb_spec (offset + 100) (length all)) as [Hlt|Hge].
  - assert (Hp : length (firstn 100 rest) = 100)
      by (rewrite length_firstn; lia).
    destruct (firstn 100 rest) as [|x page] eqn:Ep; [discriminate|].
    rewrite Hp.
    replace (skipn 100 rest) with (skipn (offset + 100) all)
      by (unfold rest; rewrite skipn_skipn; f_equal; lia).
    apply IH; [exact Hw|left; reflexivity|].
    rewrite length_skipn.
    assert (length rest = 1 * 100 + (length all - (offset + 100))) as E by lia.
    rewrite E, Nat.div_add_l in Hf by lia. lia.
  - rewrite skipn_all2 by lia. reflexivity.
Qed.


End Scan.

(** *** Lists updated in place *)

Lemma length_update_nth {A} n (x : A) l :
  length (update_nth n x l) = length l.
Proof.
  revert n; induction l as [|a l IH]; intros [|n]; cbn; auto.
Qed.

Lemma nth_error_update_nth_eq {A} n (x : A) l :
  n < length l -> nth_error (update_nth n x l) n = Some x.
Proof.
  revert n; induction l as [|a l IH]; intros [|n] H; cbn in *;
    try lia; auto. apply IH. lia.
Qed.

Lemma nth_error_update_nth_ne {A} n m (x : A) l :
  m <> n -> nth_error (update_nth n x l) m = nth_error l m.
Proof.
  revert n m; induction l as [|a l IH]; intros [|n] [|m] H; cbn;
    auto; try contradiction.
Qed.

Lemma update_nth_same {A} n (x : A) l :
  nth_error l n = Some x -> update_nth n x l = l.
Proof.
  revert n; induction l as [|a l IH]; intros [|n] H; cbn in *;
    try discriminate.
  - injection H as ->. reflexivity.
  - f_equal. apply IH, H.
Qed.

Lemma combine_seq_app {A} (l : list A) x k :
  combine (seq k (length (l ++ [x]))) (l ++ [x]) =
  combine (seq k (length l)) l ++ [(k + length l, x)].
Proof.
  revert k; induction l as [|a l IH]; intros k; cbn [length app seq combine].
  - rewrite Nat.add_0_r. reflexivity.
  - rewrite IH. cbn [app].
    replace (S k + length l) with (k + S (length l)) by lia. reflexivity.
Qed.

Lemma indexed_app {A} (l : list A) x :
  indexed (l ++ [x]) = indexed l ++ [(length l, x)].
Proof. unfold indexed. apply (combine_seq_app l x 0). Qed.

Lemma in_combine_seq {A} (l : list A) i x :
  forall k, In (i, x) (combine (seq k (length l)) l) ->
            k <= i /\ nth_error l (i - k) = Some x.
Proof.
  induction l as [|a l IH]; intros k Hin; [contradiction|].
  cbn [length seq combine] in Hin. destruct Hin as [E|Hin].
  - injection E as <- <-. rewrite Nat.sub_diag. split; [lia|reflexivity].
  - destruct (IH (S k) Hin) as [Hk Hn]. split; [lia|].
    replace (i - k) with (S (i - S k)) by lia. exact Hn.
Qed.

Lemma indexed_nth {A} (l : list A) i x :
  In (i, x) (indexed l) -> nth_error l i = Some x.
Proof.
  intros H. apply in_combine_seq in H. destruct H as [_ H].
  rewrite Nat.sub_0_r in H. exact H.
Qed.

(** *** The store after an update, a creation and a link *)

Lemma issue_index_number j : issue_index (number_of j) = Some j.
Proof.
  unfold issue_index, number_of. rewrite Nat2N.id. reflexivity.
Qed.

Lemma with_issues_same w : with_issues w (issues w) = w.
Proof. destruct w; reflexivity. Qed.

Lemma project_nodes_entries w projectId :
  project_nodes w projectId = map (node_of w) (entries w projectId).
Proof. reflexivity. Qed.

Lemma node_of_same w w' entry :
  nth_error (issues w') (i_content (snd entry)) =
  nth_error (issues w) (i_content (snd entry)) ->
  node_of w' entry = node_of w entry.
Proof. intros H. unfold node_of. rewrite H. reflexivity. Qed.

Lemma node_of_issue_id w entry found prNumber repository :
  matchItem prNumber repository (node_of w entry) = Some found ->
  issue_id (found_issue found) = i_content (snd entry) /\
  issue_number (found_issue found) = number_of (i_content (snd entry)).
Proof.
  intros H. apply matchItem_Some in H. destruct H as [_ [Hc _]].
  unfold node_of in Hc. cbn [item_content] in Hc.
  destruct (nth_error (issues w) (i_content (snd entry))); [|discriminate].
  injection Hc as Hc. rewrite <- Hc. split; reflexivity.
Qed.

(** *** A second run changes nothing *)

Section Idempotence.

Variable input : PrInput.
Hypothesis repository_ok : repository_name (repository input).
Hypothesis url_ok : no_star (prUrl input).

Let prNumber := prNumber input.
Let repository := repository input.
Let record := canonical_record input.

Local Abbreviation located := (Summary.located input).

(** An item that points at an issue with the canonical title and body
    passes the test. *)
Lemma canonical_node_matches w entry :
  nth_error (issues w) (i_content (snd entry)) = Some record ->
  exists found,
    matchItem prNumber repository (node_of w entry) = Some found /\
    issue_number (found_issue found) = number_of (i_content (snd entry)).
Proof.
  intros H. eexists. split.
  - eapply (matchItem_first_line nat) with (name := repository).
    + unfold node_of. cbn [item_content]. rewrite H. reflexivity.
    + apply parsePrTitle_issueTitle.
    + apply matchRepository_createIssueBody; assumption.
    + apply trim_repository_name, repository_ok.
  - reflexivity.
Qed.

(** The scan after the issue [j] has received the canonical title and
    body: when the scan before it found nothing or found an item of the
    issue [j], and some item points at [j], the scan finds an item of
    [j]. *)
Lemma scan_touched w w2 j es :
  nth_error (issues w2) j = Some record ->
  (forall c, c <> j -> nth_error (issues w2) c = nth_error (issues w) c) ->
  (scanItems prNumber repository (map (node_of w) es) = None \/
   exists f, scanItems prNumber repository (map (node_of w) es) = Some f /\
             issue_id (found_issue f) = j) ->
  (exists e, In e es /\ i_content (snd e) = j) ->
  exists f', scanItems prNumber repository (map (node_of w2) es) = Some f' /\
             issue_number (found_issue f') = number_of j.
Proof.
  intros Hj Hother. induction es as [|e es IH]; intros Hold [e0 [Hin He0]];
    [contradiction|].
  cbn [map scanItems].
  destruct (Nat.eq_dec (i_content (snd e)) j) as [Ej|Ej].
  - destruct (canonical_node_matches w2 e) as [f [Hm Hn]];
      [rewrite Ej; exact Hj|].
    rewrite Hm. exists f. rewrite Hn, Ej. auto.
  - rewrite (node_of_same w w2 e (Hother _ Ej)).
    cbn [map scanItems] in Hold.
    destruct (matchItem prNumber repository (node_of w e)) as [f0|] eqn:Em.
    + exfalso. apply node_of_issue_id in Em. destruct Em as [Ei _].
      destruct Hold as [Hold|[f [Hold Hf]]]; [discriminate|].
      injection Hold as <-. congruence.
    + apply IH; [exact Hold|].
      destruct Hin as [<-|Hin]; [contradiction|]. exists e0. auto.
Qed.



Lemma update_issue_number o r j f w :
  update_issue o r (number_of j) f w =
  match nth_error (issues w) j with
  | Some r0 =>
      if str_eqb (r_owner r0) o && str_eqb (r_repo r0) r then
        (Ok tt,
         with_issues w
           (update_nth j {| r_owner := o; r_repo := r; r_title := f_title f;
                            r_body := f_body f;
                            r_assignees := f_assignees f |} (issues w)))
      else (Failed (lit "Not Found"), w)
  | None => (Failed (lit "Not Found"), w)
  end.
Proof. unfold update_issue. rewrite issue_index_number. reflexivity. Qed.

(** The issue is found in the project: the update leaves it located, or
    fails and changes nothing. *)
Lemma settle_found P w found :
  scanItems prNumber repository (project_nodes w (id P)) = Some found ->
  settle input P w = w \/
  exists j, located P j (settle input P w).
Proof.
  intros Hs. unfold settle. fold prNumber repository. rewrite Hs.
  pose proof Hs as Hfirst. apply scanItems_first in Hfirst.
  destruct Hfirst as [before [item [after [Hl [Hm _]]]]].
  assert (Hin : In item (project_nodes w (id P)))
    by (rewrite Hl; apply in_elt).
  rewrite project_nodes_entries in Hin. apply in_map_iff in Hin.
  destruct Hin as [e0 [<- He0]].
  apply node_of_issue_id in Hm. destruct Hm as [Hid Hnum].
  set (j := i_content (snd e0)) in *.
  rewrite Hnum, update_issue_number.
  destruct (nth_error (issues w) j) as [r0|] eqn:Ej; [|left; reflexivity].
  destruct (str_eqb (r_owner r0) _ && _); [|left; reflexivity].
  right. exists j. cbn [snd].
  assert (Hlt : j < length (issues w))
    by (apply nth_error_Some; congruence).
  split.
  - cbn [issues with_issues]. apply nth_error_update_nth_eq, Hlt.
  - rewrite project_nodes_entries.
    apply (scan_touched w _ j (entries w (id P))).
    + cbn [issues with_issues]. apply nth_error_update_nth_eq, Hlt.
    + intros c Hc. cbn [issues with_issues].
      apply nth_error_update_nth_ne, Hc.
    + right. exists found. rewrite <- project_nodes_entries. auto.
    + exists e0. auto.
Qed.

(** The issue [j] is made canonical and linked to the project: it is
    located afterwards. *)
Lemma linked_located P w w1 j :
  scanItems prNumber repository (project_nodes w (id P)) = None ->
  items w1 = items w ->
  nth_error (issues w1) j = Some record ->
  (forall c, c <> j -> nth_error (issues w1) c = nth_error (issues w) c) ->
  located P j (snd (add_item (id P) j w1)).
Proof.
  intros Hs Hitems Hj Hother. unfold add_item. rewrite Hj.
  assert (Hes : entries w1 (id P) = entries w (id P))
    by (unfold entries; rewrite Hitems; reflexivity).
  destruct (if dedup w1
            then find (links (id P) j) (indexed (items w1))
            else None) as [entry|] eqn:Ef.
  - cbn [snd]. split; [exact Hj|].
    rewrite project_nodes_entries.
    apply (scan_touched w w1 j (entries w1 (id P)) Hj Hother).
    + left. rewrite Hes, <- project_nodes_entries. exact Hs.
    + destruct (dedup w1); [|discriminate].
      apply find_some in Ef. destruct Ef as [Hin Hl].
      unfold links in Hl. apply andb_prop in Hl as [Hp Hc].
      exists entry. split; [|apply Nat.eqb_eq, Hc].
      apply filter_In. split; assumption.
  - cbn [snd]. split; [exact Hj|].
    rewrite project_nodes_entries.
    set (new := {| i_project := id P; i_content := j |}).
    assert (Hnew : entries (with_items w1 (items w1 ++ [new])) (id P) =
                   entries w (id P) ++ [(length (items w1), new)]).
    { unfold entries. cbn [items with_items].
      rewrite indexed_app, filter_app. cbn [filter snd i_project new].
      rewrite Nat.eqb_refl, Hitems. reflexivity. }
    rewrite Hnew.
    apply (scan_touched w _ j); [exact Hj|exact Hother| |].
    + rewrite map_app, scanItems_app, <- project_nodes_entries, Hs.
      cbn [map scanItems].
      destruct (matchItem prNumber repository
                  (node_of w (length (items w1), new))) as [f|] eqn:Em;
        [|left; reflexivity].
      right. exists f. split; [reflexivity|].
      apply node_of_issue_id in Em. destruct Em as [Ei _]. exact Ei.
    + exists (length (items w1), new). split; [|reflexivity].
      apply in_or_app. right. left. reflexivity.
Qed.

(** The scan finds nothing: the search of the repository and the update
    of its first hit, or the creation, followed by the link, leave the
    issue of the pull request located in the project. *)
Lemma settle_unfound_located P w :
  scanItems prNumber repository (project_nodes w (id P)) = None ->
  exists j, located P j (settle input P w).
Proof.
  intros Hs. unfold settle. fold prNumber repository. rewrite Hs.
  unfold repository.
  destruct (hits input w) as [|hit others] eqn:Eh.
  + exists (length (issues w)).
    apply (linked_located P w); [exact Hs|reflexivity| |].
    * cbn [snd create_issue issues with_issues].
      rewrite nth_error_app2, Nat.sub_diag by lia. reflexivity.
    * intros c Hc. cbn [snd create_issue issues with_issues].
      destruct (Nat.lt_ge_cases c (length (issues w))) as [Hlt|Hge].
      -- apply nth_error_app1, Hlt.
      -- rewrite (proj2 (nth_error_None (issues w) c)) by lia.
         apply nth_error_None. rewrite length_app. cbn [length]. lia.
  + assert (Hin : In hit (hits input w)) by (rewrite Eh; left; reflexivity).
    unfold hits in Hin. apply in_map_iff in Hin.
    destruct Hin as [[h r0] [<- Hin]]. apply filter_In in Hin.
    destruct Hin as [Hin Hq]. cbn [fst snd] in Hq.
    apply indexed_nth in Hin.
    cbn [hit_number hit_node_id fst].
    rewrite update_issue_number, Hin.
    apply andb_prop in Hq as [Hq _].
    cbn [q_owner q_repo query_of searchQuery] in Hq. rewrite Hq.
    exists h.
    assert (Hlt : h < length (issues w))
      by (apply nth_error_Some; congruence).
    apply (linked_located P w); [exact Hs|reflexivity| |].
    * cbn [issues with_issues]. apply nth_error_update_nth_eq, Hlt.
    * intros c Hc. cbn [issues with_issues].
      apply nth_error_update_nth_ne, Hc.
Qed.

(** Steps C and D leave the store as it is, or leave the issue of the
    pull request located in the project. *)
Lemma settle_located P w :
  settle input P w = w \/ exists j, located P j (settle input P w).
Proof.
  destruct (scanItems prNumber repository (project_nodes w (id P)))
    as [found|] eqn:Hs.
  - apply (settle_found P w found Hs).
  - right. apply settle_unfound_located, Hs.
Qed.







End Idempotence.

(** *** What a run leaves untouched, and how much it adds *)

Lemma framed_refl w : framed w w.
Proof. split; auto; lia. Qed.

Lemma update_issue_framed o r n f w :
  framed w (snd (update_issue o r n f w)) /\
  length (issues (snd (update_issue o r n f w))) = length (issues w) /\
  items (snd (update_issue o r n f w)) = items w.
Proof.
  unfold update_issue.
  destruct (issue_index n) as [j|]; [|repeat split; auto; lia].
  destruct (nth_error (issues w) j) as [r0|]; [|repeat split; auto; lia].
  destruct (_ && _); [|repeat split; auto; lia].
  cbn [snd]. assert (E := length_update_nth j
    {| r_owner := o; r_repo := r; r_title := f_title f; r_body := f_body f;
       r_assignees := f_assignees f |} (issues w)).
  repeat split; cbn [issues items with_issues projects items_outage];
    auto; lia.
Qed.

Lemma add_item_framed p c w :
  framed w (snd (add_item p c w)) /\
  issues (snd (add_item p c w)) = issues w.
Proof.
  unfold add_item.
  destruct (nth_error (issues w) c); [|repeat split; auto; lia].
  destruct (if dedup w then _ else _); [repeat split; auto; lia|].
  cbn [snd]. repeat split;
    cbn [issues items with_items projects items_outage];
    auto; try lia; rewrite length_app; cbn [length]; lia.
Qed.



(** *** Calls that leave the store as it is *)

Lemma returns_ret {A} w (a : A) : returns_over w (ret a).
Proof. intros s Hw. exists a, s. split; [reflexivity|exact Hw]. Qed.

Lemma returns_log w l : returns_over w (log l).
Proof. intros s Hw. eexists tt, _. split; [reflexivity|exact Hw]. Qed.

Lemma returns_bind {A B} w (m : M Store A) (k : A -> M Store B) :
  returns_over w m -> (forall a, returns_over w (k a)) ->
  returns_over w (bind m k).
Proof.
  intros Hm Hk s Hw. destruct (Hm s Hw) as [a [s1 [E1 H1]]].
  destruct (Hk a s1 H1) as [b [s2 [E2 H2]]].
  exists b, s2. unfold bind. rewrite E1. auto.
Qed.

(** A guarded call of an operation that does not change the store. *)
Lemma returns_guarded {A} w (op : Store -> Response A * Store) handler :
  snd (op w) = w -> (forall e, returns_over w (handler e)) ->
  returns_over w (try_catch (call op) handler).
Proof.
  intros Hop Hh s Hw. unfold try_catch, call. rewrite Hw.
  destruct (op w) as [[a|m] w'] eqn:E; cbn [snd] in Hop; subst w'.
  - eexists a, _. split; reflexivity.
  - apply Hh. reflexivity.
Qed.

Lemma getProjectFields_memory w projectId prAuthor :
  returns_over w (getProjectFields github projectId prAuthor).
Proof.
  unfold getProjectFields. apply returns_bind.
  - intros s Hw. unfold call. cbn [graphql_fields github]. unfold list_fields.
    eexists _, _. split; [reflexivity|exact Hw].
  - intros fieldsResult. apply returns_bind.
    + destruct (find (named (lit "assignees")) _).
      * apply returns_guarded.
        -- cbn [graphql_user github]. unfold user_id.
           destruct (find _ _); reflexivity.
        -- intros e. apply returns_bind;
             [apply returns_log|intros; apply returns_ret].
      * apply returns_ret.
    + intros. apply returns_ret.
Qed.

Lemma update_field_same projectId itemId fieldId value w :
  snd (update_field projectId itemId fieldId value w) = w.
Proof.
  unfold update_field. destruct (nth_error (items w) itemId); [|reflexivity].
  destruct (_ && _); reflexivity.
Qed.

(** Adding an assignee that the issue has already changes nothing. *)
Lemma add_assignees_same o r n a w j rec :
  issue_index n = Some j -> nth_error (issues w) j = Some rec ->
  r_assignees rec = [a] ->
  snd (add_assignees o r n [a] w) = w.
Proof.
  intros Hn Hj Ha. unfold add_assignees. rewrite Hn, Hj.
  destruct (_ && _); [|reflexivity]. cbn [snd].
  rewrite Ha. cbn [filter existsb]. rewrite str_eqb_refl. cbn [orb negb].
  rewrite update_nth_same; [apply with_issues_same|].
  rewrite Hj. f_equal. destruct rec; cbn in *. congruence.
Qed.

Lemma updateProjectFields_memory w projectId itemId issueNumber
    orgLogin repository prAuthor effort weight flds :
  snd (add_assignees orgLogin repository issueNumber [prAuthor] w) = w ->
  returns_over w
    (updateProjectFields github projectId itemId issueNumber orgLogin
       repository prAuthor effort weight flds).
Proof.
  intros Ha. unfold updateProjectFields.
  destruct itemId as [itemId|]; [|apply returns_ret].
  repeat (apply returns_bind; [|intros _]).
  all: repeat match goal with
              | |- returns_over _ (match ?x with _ => _ end) => destruct x
              end.
  all: try apply returns_ret.
  all: apply returns_guarded; [|intros e; apply returns_log].
  all: try apply update_field_same.
  exact Ha.
Qed.

Lemma update_issue_ok o r n f w w' :
  update_issue o r n f w = (Ok tt, w') ->
  exists j,
    issue_index n = Some j /\
    nth_error (issues w') j =
    Some {| r_owner := o; r_repo := r; r_title := f_title f;
            r_body := f_body f; r_assignees := f_assignees f |}.
Proof.
  unfold update_issue. destruct (issue_index n) as [j|]; [|discriminate].
  destruct (nth_error (issues w) j) as [r0|] eqn:Ej; [|discriminate].
  destruct (_ && _); [|discriminate].
  intros E. injection E as <-. exists j. split; [reflexivity|].
  cbn [issues with_issues]. apply nth_error_update_nth_eq.
  apply nth_error_Some. congruence.
Qed.

(** *** A run, as a function of the store *)

Section Run.

Variable input : PrInput.

Local Abbreviation fields_of := (Summary.fields_of input).
Local Abbreviation query_of := (Summary.query_of input).
Local Abbreviation hits := (Summary.hits input).
Local Abbreviation settle := (Summary.settle input).
Local Abbreviation step := (Summary.step input).




End Run.

Section Repeated.

Variable input : PrInput.
Hypothesis repository_ok : repository_name (repository input).
Hypothesis url_ok : no_star (prUrl input).


(** After a run the store is as it was, or the issue of the pull request
    is located in the selected project. *)
Lemma step_located w :
  step input w = w \/
  exists P j, selectProject (projects w) (projectName input) = Some P /\
              located input P j (step input w).
Proof.
  unfold step. destruct (projects w) as [|p0 rest]; [left; reflexivity|].
  destruct (selectProject (p0 :: rest) (projectName input)) as [P|];
    [|left; reflexivity].
  destruct (settle_located input repository_ok url_ok P w) as [E|[j H]];
    [left; exact E|right; eauto].
Qed.





End Repeated.

End MemoryFacts.

(** ** Idempotence of the reconciliation *)

Module SyncFacts.

Import Sync Memory Marker Summary Demo MemoryFacts.



End SyncFacts.

(** ** Examples *)

Module Examples.

Import Sync Memory Resolve Marker Listing Upsert Summary Demo.
Import ProjectFacts UpsertFacts MemoryFacts SyncFacts.

Lemma demo_repository_ok : repository_name (repository demo_input).
Proof. split; [discriminate|repeat constructor]. Defined.

Lemma demo_url_ok : no_star (prUrl demo_input).
Proof. repeat constructor. Defined.


(** The closed project whose title contains the name is returned, with
    the warning. *)
Lemma findProject_witness :
  findProject github (lit "acme") (lit "efforts") demo_state =
  Returned team_efforts
    {| world := demo_store;
       console := [WarningProjectClosed (lit "efforts")] |}.
Proof.
  refine (proj1 (proj2 (proj2
            (findProject_matching_order nat nat Store github (lit "acme")
               (lit "efforts") demo_state (Some (projects demo_store))
               demo_store eq_refl))) _ team_efforts _).
  - intros q [<-|[<-|[]]]; discriminate.
  - exists [backlog], []. split; [reflexivity|]. split.
    + exists (lit "team "), []. reflexivity.
    + intros y [<-|[]] H.
      apply (partial_match_iff nat (lit "efforts") backlog) in H.
      discriminate H.
Defined.

(** The first run against the empty store takes the third branch. *)
Lemma every_branch_upserts_witness :
  match findOrCreateIssue github 3 (lit "acme") (lit "app") 5 (lit "Add x")
          (lit "https://github.com/acme/app/pull/5") (lit "bob")
          (stats demo_input) (lit "3.26") (lit "1") 7 demo_state with
  | Returned info s' =>
      isNew info = true /\ issueNumber info = 1%N /\
      (exists w0,
         rest_issues_create github (lit "acme") (lit "app")
           (fields_of demo_input) w0 = (Ok (1%N, 0), world s')) /\
      option_map r_title (nth_error (issues (world s')) 0)
      = Some (lit "PR #5: Add x") /\
      option_map r_assignees (nth_error (issues (world s')) 0)
      = Some [lit "bob"] /\
      option_map r_body (nth_error (issues (world s')) 0)
      = Some (unlines [lit "**PR:** #5";
                       lit "**PR Link:** https://github.com/acme/app/pull/5";
                       [];
                       lit "**Repository:** app";
                       lit "**Author:** @bob";
                       [];
                       lit "**Stats:**";
                       lit "- Files Changed: 2";
                       lit "- Additions: +10";
                       lit "- Deletions: -3";
                       lit "- Total Changes: 13";
                       lit "- **Weight: 1**";
                       lit "- **Effort: 3.26**"])
  | _ => False
  end.
Proof.
  pose proof (every_branch_upserts nat nat Store github 7 5 (lit "acme")
                (lit "app") (lit "Add x")
                (lit "https://github.com/acme/app/pull/5") (lit "bob")
                (stats demo_input) (lit "3.26") (lit "1") 3 demo_state) as H.
  destruct (findOrCreateIssue github 3 (lit "acme") (lit "app") 5
              (lit "Add x") (lit "https://github.com/acme/app/pull/5")
              (lit "bob") (stats demo_input) (lit "3.26") (lit "1") 7
              demo_state) as [info s'|e s'|] eqn:E.
  - destruct (H info s' eq_refl) as [Ht [_ [Hb [Ha [w0 Hw]]]]].
    vm_compute in E. injection E as <- <-.
    split; [reflexivity|]. split; [reflexivity|].
    assert (Hc : rest_issues_create github (lit "acme") (lit "app")
                   (fields_of demo_input) w0 =
                 (Ok (1%N, 0),
                  with_issues demo_store [canonical_record demo_input]))
      by (destruct Hw as [[item [Hi _]]|[[_ [Hn _]]|[_ [_ Hc]]]];
          [discriminate Hi|discriminate Hn|exact Hc]).
    split; [exists w0; exact Hc|].
    split; [exact (f_equal Some Ht)|]. split; [exact (f_equal Some Ha)|].
    exact (f_equal Some Hb).
  - vm_compute in E. discriminate E.
  - vm_compute in E. discriminate E.
Defined.

(** An outage of the listing at the first page reads as no match. *)
Lemma listing_failure_witness :
  findExistingIssueInProject github 1 7 5 (lit "app") outage_state =
  Returned None
    {| world := outage_store;
       console := [CouldNotCheckProjectItems
                     (ApiError (lit "Service unavailable"))] |}.
Proof.
  refine (proj1
            (listing_failure_reads_as_no_match nat nat Store github 7 5
               (lit "acme") (lit "app") (lit "Add x")
               (lit "https://github.com/acme/app/pull/5") (lit "bob")
               (stats demo_input) (lit "3.26") (lit "1") 1 outage_state
               outage_store (lit "Service unavailable") 1 _ (le_n 1))).
  apply fails_now. reflexivity.
Defined.

End Examples.

(** ** Resolving the project: errors and soundness *)

Module ResolveFacts.

Import Sync JsFacts Resolve Outcomes ProjectFacts.

Lemma find_Some_first {A} (f : A -> bool) (P : A -> Prop) l x :
  (forall y, f y = true <-> P y) ->
  find f l = Some x -> first_where P l x.
Proof.
  intros HfP. induction l as [|y l IH]; simpl; [discriminate|].
  destruct (f y) eqn:E.
  - intros H. injection H as <-. exists [], l.
    split; [reflexivity|]. split; [apply HfP, E|]. intros z [].
  - intros H. destruct (IH H) as [pre [post [-> [Hx Hpre]]]].
    exists (y :: pre), post. split; [reflexivity|]. split; [exact Hx|].
    intros z [<-|Hz]; [|apply Hpre, Hz].
    intros Hy. apply HfP in Hy. congruence.
Qed.

Lemma find_None_all {A} (f : A -> bool) (P : A -> Prop) l :
  (forall y, f y = true <-> P y) ->
  find f l = None -> forall y, In y l -> ~ P y.
Proof.
  intros HfP H y Hy Py. apply HfP in Py.
  pose proof (find_none f l H y Hy) as E. congruence.
Qed.

Lemma first_where_In {A} (P : A -> Prop) l x :
  first_where P l x -> In x l /\ P x.
Proof.
  intros [pre [post [-> [Hx _]]]]. split; [apply in_elt|exact Hx].
Qed.

Section FindProject.

Variables NodeId Cursor World : Type.
Variable api : GitHub NodeId Cursor World.

Lemma exact_is_partial name (p : Project NodeId) :
  exact_match name p = true -> partial_match name p = true.
Proof.
  unfold exact_match, partial_match. rewrite str_eqb_eq. intros ->.
  apply includes_refl.
Qed.

Lemma nocase_is_partial name (p : Project NodeId) :
  nocase_match name p = true -> partial_match name p = true.
Proof.
  unfold nocase_match, partial_match. rewrite str_eqb_eq. intros ->.
  apply includes_refl.
Qed.

Lemma selectProject_Some projects name (p : Project NodeId) :
  selectProject projects name = Some p ->
  In p projects /\ partial_match name p = true.
Proof.
  unfold selectProject, or_else.
  destruct (find (exact_match name) projects) as [p1|] eqn:E1.
  - intros H. injection H as <-. apply find_some in E1 as [Hin Hm].
    split; [exact Hin|apply exact_is_partial, Hm].
  - destruct (find (nocase_match name) projects) as [p2|] eqn:E2.
    + intros H. injection H as <-. apply find_some in E2 as [Hin Hm].
      split; [exact Hin|apply nocase_is_partial, Hm].
    + intros H. apply find_some in H. exact H.
Qed.

Lemma selectProject_None projects name (q : Project NodeId) :
  selectProject projects name = None ->
  In q projects -> partial_match name q = false.
Proof.
  unfold selectProject, or_else.
  destruct (find (exact_match name) projects); [discriminate|].
  destruct (find (nocase_match name) projects); [discriminate|].
  intros H Hq. apply (find_none _ _ H q Hq).
Qed.

(** X1: the errors of [findProject] before any project is looked at.
    It throws the permission error exactly when the query of the
    projects fails with a message that contains [Must have admin rights]
    or [permission] (as written, with this case); a failure with any other
    message is thrown on as it is; and it throws the error of the
    inaccessible organization exactly when the answer holds no
    organization. In each case the service is left as the query left it. *)
Theorem findProject_error_classes orgLogin projectName
    (s : State World) :
  (forall o s',
     findProject api orgLogin projectName s = Thrown (PermissionDenied o) s' <->
     exists m w',
       graphql_projects api orgLogin (world s) = (Failed m, w') /\
       ((exists pre post, m = pre ++ lit "Must have admin rights" ++ post) \/
        (exists pre post, m = pre ++ lit "permission" ++ post)) /\
       o = orgLogin /\ s' = after_listing s w') /\
  (forall m s',
     findProject api orgLogin projectName s = Thrown (ApiError m) s' <->
     exists w',
       graphql_projects api orgLogin (world s) = (Failed m, w') /\
       ~ (exists pre post, m = pre ++ lit "Must have admin rights" ++ post) /\
       ~ (exists pre post, m = pre ++ lit "permission" ++ post) /\
       s' = after_listing s w') /\
  (forall o s',
     findProject api orgLogin projectName s
     = Thrown (CannotAccessOrganization o) s' <->
     exists w',
       graphql_projects api orgLogin (world s) = (Ok None, w') /\
       o = orgLogin /\ s' = after_listing s w').
Proof.
  destruct (graphql_projects api orgLogin (world s)) as [[[projectsV2|]|m] w']
    eqn:E.
  - (* the projects are listed *)
    pose proof (findProject_listed NodeId Cursor World api orgLogin
                  projectName s projectsV2 w' E) as L.
    cbv zeta in L.
    assert (Hno : forall e s',
              findProject api orgLogin projectName s = Thrown e s' ->
              (exists o, e = NoProjectsFound o) \/
              (exists n o l, e = ProjectNotFound n o l)).
    { intros e s' H. rewrite L in H.
      destruct (match projectsV2 with Some l => l | None => [] end)
        as [|p0 rest].
      - injection H as <- _. left. eauto.
      - destruct (selectProject (p0 :: rest) projectName).
        + unfold returned_project in H. discriminate.
        + injection H as <- _. right. eauto. }
    split; [|split]; intros; split; intros H.
    + apply Hno in H. destruct H as [[? H]|[? [? [? H]]]]; discriminate.
    + destruct H as [? [? [H _]]]. discriminate.
    + apply Hno in H. destruct H as [[? H]|[? [? [? H]]]]; discriminate.
    + destruct H as [? [H _]]. discriminate.
    + apply Hno in H. destruct H as [[? H]|[? [? [? H]]]]; discriminate.
    + destruct H as [? [H _]]. discriminate.
  - (* no organization *)
    assert (L : findProject api orgLogin projectName s =
                Thrown (CannotAccessOrganization orgLogin) (after_listing s w')).
    { unfold findProject, bind, try_catch, call. rewrite E. reflexivity. }
    rewrite L.
    split; [|split]; intros; split; intros H; try discriminate.
    + destruct H as [? [? [H _]]]. discriminate.
    + destruct H as [? [H _]]. discriminate.
    + injection H as <- <-. exists w'. auto.
    + destruct H as [w0 [Hw [-> ->]]]. injection Hw as <-. reflexivity.
  - (* the query fails *)
    assert (L : findProject api orgLogin projectName s =
                Thrown (if includes m (lit "Must have admin rights")
                           || includes m (lit "permission")
                        then PermissionDenied orgLogin else ApiError m)
                       (after_listing s w')).
    { unfold findProject, bind, try_catch, call. rewrite E. cbv beta iota.
      destruct (includes m (lit "Must have admin rights")
                || includes m (lit "permission")); reflexivity. }
    rewrite L.
    destruct (includes m (lit "Must have admin rights")) eqn:I1;
      [|destruct (includes m (lit "permission")) eqn:I2]; cbn [orb].
    + apply includes_iff in I1.
      split; [|split]; intros; split; intros H; try discriminate.
      * injection H as <- <-. exists m, w'. auto.
      * destruct H as [m0 [w0 [Hw [_ [-> ->]]]]]. injection Hw as _ <-.
        reflexivity.
      * destruct H as [w0 [Hw [Hn _]]]. injection Hw as <- _.
        contradiction.
      * destruct H as [w0 [Hw _]]. discriminate.
    + apply includes_iff in I2.
      split; [|split]; intros; split; intros H; try discriminate.
      * injection H as <- <-. exists m, w'. auto.
      * destruct H as [m0 [w0 [Hw [_ [-> ->]]]]]. injection Hw as _ <-.
        reflexivity.
      * destruct H as [w0 [Hw [_ [Hn _]]]]. injection Hw as <- _.
        contradiction.
      * destruct H as [w0 [Hw _]]. discriminate.
    + assert (N1 : ~ exists pre post,
                       m = pre ++ lit "Must have admin rights" ++ post).
      { intros H. apply includes_iff in H. congruence. }
      assert (N2 : ~ exists pre post, m = pre ++ lit "permission" ++ post).
      { intros H. apply includes_iff in H. congruence. }
      split; [|split]; intros; split; intros H; try discriminate.
      * destruct H as [m0 [w0 [Hw [[H|H] _]]]]; injection Hw as <- _;
          contradiction.
      * injection H as <- <-. exists w'. auto.
      * destruct H as [w0 [Hw [_ [_ ->]]]]. injection Hw as <- <-.
        reflexivity.
      * destruct H as [w0 [Hw _]]. discriminate.
Qed.

(** X2: once the projects are listed, [findProject] returns only a
    project of the listing whose title contains the name up to case, and
    it returns one exactly when the listing holds such a project. *)
Theorem findProject_returns_listed_match orgLogin projectName
    (s : State World) projectsV2 w' :
  graphql_projects api orgLogin (world s) = (Ok (Some projectsV2), w') ->
  let projects := match projectsV2 with Some l => l | None => [] end in
  (forall p s',
     findProject api orgLogin projectName s = Returned p s' ->
     In p projects /\ partially projectName p) /\
  (returns (findProject api orgLogin projectName s) <->
   exists q, In q projects /\ partially projectName q).
Proof.
  intros E projects.
  pose proof (findProject_listed NodeId Cursor World api orgLogin
                projectName s projectsV2 w' E) as L.
  cbv zeta in L. fold projects in L. clearbody projects.
  split.
  - intros p s' H. rewrite L in H.
    destruct projects as [|p0 rest]; [discriminate|].
    destruct (selectProject (p0 :: rest) projectName) as [p1|] eqn:Es;
      [|discriminate].
    unfold returned_project in H. injection H as <- _.
    apply selectProject_Some in Es as [Hin Hm].
    split; [exact Hin|apply partial_match_iff, Hm].
  - rewrite L. split.
    + intros [p [s' H]].
      destruct projects as [|p0 rest]; [discriminate|].
      destruct (selectProject (p0 :: rest) projectName) as [p1|] eqn:Es;
        [|discriminate].
      apply selectProject_Some in Es as [Hin Hm].
      exists p1. split; [exact Hin|apply partial_match_iff, Hm].
    + intros [q [Hin Hq]].
      destruct projects as [|p0 rest]; [contradiction|].
      destruct (selectProject (p0 :: rest) projectName) as [p1|] eqn:Es.
      * unfold returned_project. eexists _, _. reflexivity.
      * exfalso. apply partial_match_iff in Hq.
        rewrite (selectProject_None _ _ q Es Hin) in Hq. discriminate.
Qed.

End FindProject.

End ResolveFacts.

(** ** The fields of the project (Steps B and E) *)

Module FieldFacts.

Import Sync JsFacts Resolve Outcomes Columns Journal ResolveFacts.

Section Fields.

Variables NodeId Cursor World : Type.
Variable api : GitHub NodeId Cursor World.

Lemma named_iff name (f : Field NodeId) :
  named name f = true <-> field_named name f.
Proof. apply str_eqb_eq. Qed.

Lemma is_done_iff (opt : FieldOption NodeId) :
  is_done opt = true <-> done_named opt.
Proof.
  unfold is_done, done_named. rewrite !orb_true_iff, !str_eqb_eq. tauto.
Qed.

Lemma resolved_find name (fields : list (Field NodeId)) :
  resolved name fields (find (named name) fields).
Proof.
  unfold resolved. destruct (find (named name) fields) as [f|] eqn:E.
  - apply (find_Some_first _ _ _ _ (named_iff name) E).
  - apply (find_None_all _ _ _ (named_iff name) E).
Qed.

(** What [getProjectFields] does once the fields are listed. *)
Lemma getProjectFields_listed projectId prAuthor (s : State World) r w1 :
  graphql_fields api projectId (world s) = (Ok r, w1) ->
  let fields := listed_fields r in
  let status := find (named (lit "status")) fields in
  let done :=
    match status with
    | Some f => match options f with
                | Some opts => option_map (@option_id _) (find (@is_done _) opts)
                | None => None
                end
    | None => None
    end in
  let result user :=
    {| effortField := find (named (lit "effort")) fields;
       weightField := find (named (lit "weight")) fields;
       repoNameField := find (named (lit "reponame")) fields;
       statusField := status;
       assigneeField := find (named (lit "assignees")) fields;
       doneOptionId := done;
       assigneeUserId := user |} in
  getProjectFields api projectId prAuthor s =
  match find (named (lit "assignees")) fields with
  | None => Returned (result None) (after_listing s w1)
  | Some _ =>
      match graphql_user api prAuthor w1 with
      | (Ok user, w2) => Returned (result user) (after_listing s w2)
      | (Failed m, w2) =>
          Returned (result None)
                   (after s w2 [CouldNotGetUserId (ApiError m)])
      end
  end.
Proof.
  intros E fields status done result.
  unfold getProjectFields, bind at 1, call. rewrite E. cbv beta iota zeta.
  fold (listed_fields r). fold fields. fold status. fold done.
  unfold bind, try_catch, call, log, ret.
  destruct (find (named (lit "assignees")) fields); [|reflexivity].
  change (world {| world := w1; console := console s |}) with w1.
  destruct (graphql_user api prAuthor w1) as [[user|m] w2]; reflexivity.
Qed.

(** X3: the errors of [getProjectFields]. A failure of the query of the
    fields is thrown, and nothing else is: the query of the user is made
    only when the project has a field named assignees, and its failure is
    logged and leaves the user id null. *)
Theorem getProjectFields_outcomes projectId prAuthor (s : State World) :
  (forall m w1,
     graphql_fields api projectId (world s) = (Failed m, w1) ->
     getProjectFields api projectId prAuthor s =
     Thrown (ApiError m) (after_listing s w1)) /\
  (forall r w1,
     graphql_fields api projectId (world s) = (Ok r, w1) ->
     exists flds s',
       getProjectFields api projectId prAuthor s = Returned flds s' /\
       match assigneeField flds with
       | None => assigneeUserId flds = None /\ s' = after_listing s w1
       | Some _ =>
           match graphql_user api prAuthor w1 with
           | (Ok user, w2) =>
               assigneeUserId flds = user /\ s' = after_listing s w2
           | (Failed m, w2) =>
               assigneeUserId flds = None /\
               s' = after s w2 [CouldNotGetUserId (ApiError m)]
           end
       end) /\
  (throws (getProjectFields api projectId prAuthor s) <->
   exists m w1, graphql_fields api projectId (world s) = (Failed m, w1)).
Proof.
  assert (F : forall m w1,
            graphql_fields api projectId (world s) = (Failed m, w1) ->
            getProjectFields api projectId prAuthor s =
            Thrown (ApiError m) (after_listing s w1)).
  { intros m w1 E. unfold getProjectFields, bind at 1, call. rewrite E.
    reflexivity. }
  assert (G : forall r w1,
            graphql_fields api projectId (world s) = (Ok r, w1) ->
            exists flds s',
              getProjectFields api projectId prAuthor s = Returned flds s' /\
              match assigneeField flds with
              | None => assigneeUserId flds = None /\ s' = after_listing s w1
              | Some _ =>
                  match graphql_user api prAuthor w1 with
                  | (Ok user, w2) =>
                      assigneeUserId flds = user /\ s' = after_listing s w2
                  | (Failed m, w2) =>
                      assigneeUserId flds = None /\
                      s' = after s w2 [CouldNotGetUserId (ApiError m)]
                  end
              end).
  { intros r w1 E.
    rewrite (getProjectFields_listed projectId prAuthor s r w1 E).
    cbv zeta.
    destruct (find (named (lit "assignees")) (listed_fields r)) as [f|].
    - destruct (graphql_user api prAuthor w1) as [[user|m] w2];
        eexists _, _; (split; [reflexivity|]);
        cbn [assigneeField assigneeUserId]; auto.
    - eexists _, _. split; [reflexivity|].
      cbn [assigneeField assigneeUserId]. auto. }
  split; [exact F|]. split; [exact G|]. split.
  - intros [e [s' H]].
    destruct (graphql_fields api projectId (world s)) as [[r|m] w1] eqn:E;
      [|eauto].
    destruct (G r w1 eq_refl) as [flds [s0 [H0 _]]]. congruence.
  - intros [m [w1 E]]. rewrite (F m w1 E). eexists _, _. reflexivity.
Qed.

(** X4: how [getProjectFields] resolves the fields. Each of the five
    fields is the first field of the listing whose name, in lower case, is
    [effort], [weight], [reponame], [status] or [assignees], or null when
    the listing has no such field; the id of the done option is the id of
    the first option of the status field that is named done, completed or
    closed up to case, and null when the status field is missing, has no
    options or has no such option. *)
Theorem getProjectFields_resolution projectId prAuthor (s : State World)
    r w1 flds s' :
  graphql_fields api projectId (world s) = (Ok r, w1) ->
  getProjectFields api projectId prAuthor s = Returned flds s' ->
  let fields := listed_fields r in
  resolved (lit "effort") fields (effortField flds) /\
  resolved (lit "weight") fields (weightField flds) /\
  resolved (lit "reponame") fields (repoNameField flds) /\
  resolved (lit "status") fields (statusField flds) /\
  resolved (lit "assignees") fields (assigneeField flds) /\
  match doneOptionId flds with
  | Some option =>
      exists f opts o,
        statusField flds = Some f /\ options f = Some opts /\
        first_where (@done_named _) opts o /\ option_id o = option
  | None =>
      forall f opts,
        statusField flds = Some f -> options f = Some opts ->
        forall o, In o opts -> ~ done_named o
  end.
Proof.
  intros E H fields.
  rewrite (getProjectFields_listed projectId prAuthor s r w1 E) in H.
  cbv zeta in H. fold fields in H.
  assert (Hf : exists user,
            flds =
            {| effortField := find (named (lit "effort")) fields;
               weightField := find (named (lit "weight")) fields;
               repoNameField := find (named (lit "reponame")) fields;
               statusField := find (named (lit "status")) fields;
               assigneeField := find (named (lit "assignees")) fields;
               doneOptionId :=
                 match find (named (lit "status")) fields with
                 | Some f =>
                     match options f with
                     | Some opts =>
                         option_map (@option_id _) (find (@is_done _) opts)
                     | None => None
                     end
                 | None => None
                 end;
               assigneeUserId := user |}).
  { destruct (find (named (lit "assignees")) fields).
    - destruct (graphql_user api prAuthor w1) as [[user|m] w2];
        injection H as <- _; eauto.
    - injection H as <- _. eauto. }
  destruct Hf as [user ->].
  cbn [effortField weightField repoNameField statusField assigneeField
       doneOptionId].
  repeat (split; [apply resolved_find|]).
  destruct (find (named (lit "status")) fields) as [f|];
    [|intros f opts Hd; discriminate].
  destruct (options f) as [opts|] eqn:Eo;
    [|intros f0 opts Hd; injection Hd as <-; congruence].
  destruct (find (@is_done _) opts) as [o|] eqn:Ed; cbn [option_map].
  - exists f, opts, o. repeat split; auto.
    apply (find_Some_first _ _ _ _ (@is_done_iff) Ed).
  - intros f0 opts0 Hf0 Ho0. injection Hf0 as <-.
    rewrite Eo in Ho0. injection Ho0 as <-.
    apply (find_None_all _ _ _ (@is_done_iff) Ed).
Qed.

(** *** Step E *)

Lemma guarded_returns (op : World -> Response unit * World) line
    (s : State World) :
  exists s', try_catch (call op) (fun e => log (line e)) s = Returned tt s'.
Proof.
  unfold try_catch, call, log.
  destruct (op (world s)) as [[[]|m] w']; eexists; reflexivity.
Qed.

Lemma returns_then (m : M World unit) (k : unit -> M World unit) :
  (forall s, exists s', m s = Returned tt s') ->
  (forall s, exists s', k tt s = Returned tt s') ->
  forall s, exists s', bind m k s = Returned tt s'.
Proof.
  intros Hm Hk s. unfold bind. destruct (Hm s) as [s1 ->]. apply Hk.
Qed.

Lemma guarded_noted (c : Call NodeId Cursor)
    (op : World -> Response unit * World) line
    (s : State (World * list (Call NodeId Cursor))) :
  exists s',
    try_catch (call (noted c op)) (fun e => log (line e)) s = Returned tt s' /\
    journal s' = journal s ++ [c].
Proof.
  unfold try_catch, call, noted, log, journal.
  destruct (op (fst (world s))) as [[[]|m] w']; eexists; split; reflexivity.
Qed.

Lemma noted_then (m : M (World * list (Call NodeId Cursor)) unit)
    (k : unit -> M (World * list (Call NodeId Cursor)) unit) calls1 calls2 :
  (forall s, exists s', m s = Returned tt s' /\
                        journal s' = journal s ++ calls1) ->
  (forall s, exists s', k tt s = Returned tt s' /\
                        journal s' = journal s ++ calls2) ->
  forall s, exists s', bind m k s = Returned tt s' /\
                       journal s' = journal s ++ calls1 ++ calls2.
Proof.
  intros Hm Hk s. unfold bind. destruct (Hm s) as [s1 [-> J1]].
  destruct (Hk s1) as [s2 [-> J2]]. exists s2. split; [reflexivity|].
  rewrite J2, J1, app_assoc. reflexivity.
Qed.

Lemma noted_nothing (s : State (World * list (Call NodeId Cursor))) :
  exists s', ret tt s = Returned tt s' /\ journal s' = journal s ++ [].
Proof. exists s. split; [reflexivity|]. rewrite app_nil_r. reflexivity. Qed.

Lemma updateProjectFields_noted projectId item issueNumber orgLogin
    repository prAuthor effort weight (flds : ProjectFields NodeId)
    (s : State (World * list (Call NodeId Cursor))) :
  exists s',
    updateProjectFields (journaled api) projectId (Some item) issueNumber
      orgLogin repository prAuthor effort weight flds s = Returned tt s' /\
    journal s' =
    journal s ++ field_writes Cursor projectId item issueNumber orgLogin
                   repository prAuthor effort weight flds.
Proof.
  revert s. unfold updateProjectFields, field_writes.
  repeat (apply noted_then; [|cbv beta]).
  all: intros s0.
  all: repeat match goal with
              | |- context [match ?x with _ => _ end] => destruct x
              end.
  all: try apply noted_nothing.
  all: apply (guarded_noted _ (graphql_update_field api _ _ _ _))
       || apply (guarded_noted _ (rest_issues_addAssignees api _ _ _ _)).
Qed.

(** X5: Step E writes every field that Step B has resolved, whatever
    the service answers. [updateProjectFields] never throws; without an
    item it returns at once; with an item it makes one call for each of
    the fields effort, weight, reponame and status (the status only with a
    done option) and one call to add the assignee (only with an assignees
    field and a user id), in this order, and a call that fails does not
    keep the later ones from being made. *)
Theorem updateProjectFields_attempts_every_write
    projectId itemId issueNumber orgLogin repository prAuthor effort weight
    (flds : ProjectFields NodeId) :
  (forall s : State World,
     returns (updateProjectFields api projectId itemId issueNumber orgLogin
                repository prAuthor effort weight flds s)) /\
  (forall s : State World,
     updateProjectFields api projectId None issueNumber orgLogin
       repository prAuthor effort weight flds s = Returned tt s) /\
  (forall item (s : State (World * list (Call NodeId Cursor))),
     exists s',
       updateProjectFields (journaled api) projectId (Some item) issueNumber
         orgLogin repository prAuthor effort weight flds s = Returned tt s' /\
       journal s' =
       journal s ++ field_writes Cursor projectId item issueNumber orgLogin
                      repository prAuthor effort weight flds).
Proof.
  split; [|split].
  - intros s. destruct itemId as [item|]; [|exists tt, s; reflexivity].
    enough (H : forall s0 : State World, exists s',
                updateProjectFields api projectId (Some item) issueNumber
                  orgLogin repository prAuthor effort weight flds s0
                = Returned tt s')
      by (destruct (H s) as [s' E]; exists tt, s'; exact E).
    unfold updateProjectFields.
    repeat (apply returns_then; [|cbv beta]).
    all: intros s0.
    all: repeat match goal with
                | |- context [match ?x with _ => _ end] => destruct x
                end.
    all: apply guarded_returns || (eexists; reflexivity).
  - reflexivity.
  - intros item s. apply updateProjectFields_noted.
Qed.

End Fields.

End FieldFacts.

(** ** The calls of a run, against any service *)

Module JournalFacts.

Import Sync Resolve Listing Upsert Outcomes Columns Journal Protocol.
Import JsFacts ProjectFacts ListingFacts UpsertFacts FieldFacts.

Lemma count_app {NodeId Cursor} kind (a b : list (Call NodeId Cursor)) :
  count kind (a ++ b) = count kind a + count kind b.
Proof. unfold count. rewrite filter_app, length_app. reflexivity. Qed.

Lemma count_none {NodeId Cursor} kind (l : list (Call NodeId Cursor)) :
  Forall (fun c => kind c = false) l -> count kind l = 0.
Proof.
  intros H. unfold count. induction H as [|c l Hc Hl IH]; [reflexivity|].
  cbn [filter]. rewrite Hc. exact IH.
Qed.

Section Calls.

Variables NodeId Cursor World : Type.
Variable api : GitHub NodeId Cursor World.

Local Abbreviation J := (journaled api).
Local Abbreviation St := (State (World * list (Call NodeId Cursor))).

(** The call [c] has been added by a script that has ended. *)
Local Abbreviation added s o calls :=
  (match o with
   | Returned _ s' | Thrown _ s' => journal s' = journal s ++ calls
   | OutOfFuel => False
   end).

(** *** Step A *)

Lemma findProject_calls orgLogin projectName (s : St) :
  added s (findProject J orgLogin projectName s) [ListProjects orgLogin].
Proof.
  destruct (graphql_projects api orgLogin (fst (world s)))
    as [[[projectsV2|]|m] w'] eqn:E.
  - assert (EJ : graphql_projects J orgLogin (world s) =
                 (Ok (Some projectsV2),
                  (w', snd (world s) ++ [ListProjects orgLogin])))
      by (cbn [graphql_projects journaled]; unfold noted; rewrite E;
          reflexivity).
    rewrite (findProject_listed _ _ _ J orgLogin projectName s _ _ EJ).
    cbv zeta.
    destruct (match projectsV2 with Some l => l | None => [] end)
      as [|p0 rest]; [reflexivity|].
    destruct (selectProject (p0 :: rest) projectName); reflexivity.
  - unfold findProject, bind, try_catch, call.
    cbn [graphql_projects journaled]. unfold noted. rewrite E. reflexivity.
  - unfold findProject, bind, try_catch, call.
    cbn [graphql_projects journaled]. unfold noted. rewrite E.
    cbv beta iota.
    destruct (includes m (lit "Must have admin rights")
              || includes m (lit "permission")); reflexivity.
Qed.

(** *** Step B *)

Lemma getProjectFields_calls projectId prAuthor (s : St) :
  match getProjectFields J projectId prAuthor s with
  | Returned _ s' =>
      journal s' = journal s ++ [ListFields projectId] \/
      journal s' = journal s ++ [ListFields projectId; GetUser prAuthor]
  | Thrown _ s' => journal s' = journal s ++ [ListFields projectId]
  | OutOfFuel => False
  end.
Proof.
  destruct (graphql_fields api projectId (fst (world s))) as [[r|m] w1] eqn:E.
  - assert (EJ : graphql_fields J projectId (world s) =
                 (Ok r, (w1, snd (world s) ++ [ListFields projectId])))
      by (cbn [graphql_fields journaled]; unfold noted; rewrite E;
          reflexivity).
    rewrite (getProjectFields_listed _ _ _ J projectId prAuthor s _ _ EJ).
    cbv zeta.
    destruct (find (named (lit "assignees")) (listed_fields r));
      [|left; reflexivity].
    cbn [graphql_user journaled]. unfold noted. cbn [fst snd].
    destruct (graphql_user api prAuthor w1) as [[user|m] w2];
      right; unfold journal; cbn [after_listing after world snd];
      rewrite <- app_assoc; reflexivity.
  - unfold getProjectFields, bind at 1, call.
    cbn [graphql_fields journaled]. unfold noted. rewrite E. reflexivity.
Qed.

(** *** Step C *)

Section Issue.

Variable input : PrInput.
Variable projectId : NodeId.

Local Abbreviation page_call :=
  (fun c : Call NodeId Cursor => exists cursor, c = ListItems projectId 100 cursor).

Lemma scanPages_calls fuel :
  forall cursor (s : St),
    emits s (scanPages J fuel projectId (prNumber input) (repository input)
               cursor s)
          (Forall page_call).
Proof.
  induction fuel as [|fuel IH]; intros cursor s; [exact I|].
  rewrite scanPages_step. cbn [graphql_items journaled]. unfold noted.
  destruct (graphql_items api projectId 100 cursor (fst (world s)))
    as [[r|m] w].
  - assert (One : Forall page_call [ListItems projectId 100 cursor])
      by (constructor; [eexists; reflexivity|constructor]).
    destruct (scanItems (prNumber input) (repository input) (page_items r)).
    + eexists. split; [reflexivity|exact One].
    + destruct (page_more r).
      * specialize (IH (page_cursor r)
                       (moved s (w, snd (world s) ++ [ListItems projectId 100 cursor]))).
        destruct (scanPages J fuel projectId (prNumber input)
                    (repository input) (page_cursor r) _)
          as [a s'|e s'|]; [| |exact I];
          destruct IH as [calls [Hj Hc]];
          exists (ListItems projectId 100 cursor :: calls);
          (split; [|constructor; [eexists; reflexivity|exact Hc]]);
          rewrite Hj; unfold journal; cbn [moved world snd];
          rewrite <- app_assoc; reflexivity.
      * eexists. split; [reflexivity|exact One].
  - eexists. split; [reflexivity|].
    constructor; [eexists; reflexivity|constructor].
Qed.

Lemma findExisting_calls fuel (s : St) :
  match findExistingIssueInProject J fuel projectId (prNumber input)
          (repository input) s with
  | Returned _ s' =>
      exists pages, journal s' = journal s ++ pages /\ Forall page_call pages
  | Thrown _ _ => False
  | OutOfFuel => True
  end.
Proof.
  unfold findExistingIssueInProject, try_catch.
  pose proof (scanPages_calls fuel None s) as H.
  destruct (scanPages J fuel projectId (prNumber input) (repository input)
              None s) as [a s'|e s'|]; [exact H| |exact I].
  exact H.
Qed.

Lemma findOrCreate_calls fuel (s : St) :
  emits s
    (findOrCreateIssue J fuel (orgLogin input) (repository input)
       (prNumber input) (prTitle input) (prUrl input) (prAuthor input)
       (stats input) (effort input) (weight input) projectId s)
    (fun calls =>
       exists pages issue,
         calls = pages ++ issue /\ Forall page_call pages /\
         issue_calls input issue).
Proof.
  pose proof (findExisting_calls fuel s) as H.
  destruct (findExistingIssueInProject J fuel projectId (prNumber input)
              (repository input) s) as [[found|] s1|e s1|] eqn:E.
  - destruct H as [pages [Hj Hp]].
    rewrite (findOrCreate_in_project _ _ _ J projectId (prNumber input)
               (orgLogin input) (repository input) (prTitle input)
               (prUrl input) (prAuthor input) (stats input) (effort input)
               (weight input) fuel s s1 found E).
    cbn [rest_issues_update journaled]. unfold noted.
    destruct (rest_issues_update api _ _ _ _ _) as [[[]|m] w3];
      (eexists; split;
       [unfold journal in *; cbn [world snd]; rewrite Hj, <- app_assoc;
        reflexivity|]);
      exists pages; eexists; (split; [reflexivity|]); (split; [exact Hp|]);
      apply updated_in_project.
  - destruct H as [pages [Hj Hp]].
    rewrite (findOrCreate_not_in_project _ _ _ J projectId (prNumber input)
               (orgLogin input) (repository input) (prTitle input)
               (prUrl input) (prAuthor input) (stats input) (effort input)
               (weight input) fuel s s1 E).
    cbn [rest_search rest_issues_update rest_issues_create journaled].
    unfold noted.
    destruct (rest_search api _ (fst (world s1))) as [[hits|m] w2];
      cbn [fst snd].
    + destruct hits as [[|repoIssue hits]|].
      * destruct (rest_issues_create api _ _ _ w2) as [[made|m] w3];
          (eexists; split;
           [unfold journal in *; cbn [world snd];
            rewrite Hj, <- !app_assoc; reflexivity|]);
          exists pages; eexists; (split; [reflexivity|]); (split; [exact Hp|]);
          apply created.
      * destruct (rest_issues_update api _ _ _ _ w2) as [[[]|m] w3];
          (eexists; split;
           [unfold journal in *; cbn [world snd];
            rewrite Hj, <- !app_assoc; reflexivity|]);
          exists pages; eexists; (split; [reflexivity|]); (split; [exact Hp|]);
          apply updated_in_repository.
      * destruct (rest_issues_create api _ _ _ w2) as [[made|m] w3];
          (eexists; split;
           [unfold journal in *; cbn [world snd];
            rewrite Hj, <- !app_assoc; reflexivity|]);
          exists pages; eexists; (split; [reflexivity|]); (split; [exact Hp|]);
          apply created.
    + eexists; split;
        [unfold journal in *; cbn [world snd]; rewrite Hj, <- app_assoc;
         reflexivity|].
      exists pages. eexists. split; [reflexivity|]. split; [exact Hp|].
      apply searched.
  - contradiction.
  - unfold findOrCreateIssue, bind at 1. rewrite E. exact I.
Qed.

(** *** Step D *)

Lemma addIssueToProject_calls issueId existingItemId (s : St) :
  match addIssueToProject J projectId issueId existingItemId s with
  | Returned _ s' =>
      journal s' = journal s ++
                   match existingItemId with
                   | Some _ => []
                   | None => [AddItem projectId issueId]
                   end
  | _ => False
  end.
Proof.
  unfold addIssueToProject.
  destruct existingItemId as [item|];
    [unfold ret; rewrite app_nil_r; reflexivity|].
  unfold try_catch, call, bind, log, ret.
  cbn [graphql_add_item journaled]. unfold noted.
  destruct (graphql_add_item api projectId issueId (fst (world s)))
    as [[r|m] w']; reflexivity.
Qed.

(** *** Step E *)

Lemma field_writes_are_writes item issueNumber flds :
  Forall (field_write input projectId)
    (field_writes Cursor projectId item issueNumber (orgLogin input)
       (repository input) (prAuthor input) (effort input) (weight input)
       flds).
Proof.
  unfold field_writes.
  repeat (apply Forall_app; split).
  all: repeat match goal with
              | |- context [match ?x with _ => _ end] => destruct x
              end.
  all: repeat constructor.
Qed.

End Issue.

(** *** The whole run *)

Lemma syncSteps_calls fuel input (s : St) :
  emits s (syncSteps J fuel input s) (run_calls input).
Proof.
  unfold syncSteps. unfold bind at 1.
  pose proof (findProject_calls (orgLogin input) (projectName input) s) as H1.
  destruct (findProject J (orgLogin input) (projectName input) s)
    as [project s1|e s1|]; [| |contradiction].
  2: { exists [ListProjects (orgLogin input)]. split; [exact H1|].
       left. reflexivity. }
  unfold bind at 1.
  pose proof (getProjectFields_calls (id project) (prAuthor input) s1) as H2.
  destruct (getProjectFields J (id project) (prAuthor input) s1)
    as [flds s2|e s2|]; [| |contradiction].
  2: { eexists. split; [rewrite H2, H1, <- app_assoc; reflexivity|].
       right. exists (id project), [], [], [], [], [].
       repeat split; auto. }
  assert (Hu : exists users,
             journal s2 = journal s ++ ListProjects (orgLogin input)
                            :: ListFields (id project) :: users /\
             (users = [] \/ users = [GetUser (prAuthor input)])).
  { destruct H2 as [H2|H2]; rewrite H2, H1, <- app_assoc;
      eexists; (split; [reflexivity|]); auto. }
  clear H1 H2. destruct Hu as [users [Hj2 Hu]].
  unfold bind at 1.
  pose proof (findOrCreate_calls input (id project) fuel s2) as H3.
  destruct (findOrCreateIssue J fuel (orgLogin input) (repository input)
              (prNumber input) (prTitle input) (prUrl input)
              (prAuthor input) (stats input) (effort input) (weight input)
              (id project) s2) as [issueInfo s3|e s3|]; [| |exact I].
  2: { destruct H3 as [calls [Hj3 [pages [issue [-> [Hp Hi]]]]]].
       eexists. split.
       - rewrite Hj3, Hj2, <- app_assoc. reflexivity.
       - right. exists (id project), users, pages, issue, [], [].
         rewrite !app_nil_r. cbn [app]. repeat split; auto. }
  destruct H3 as [calls [Hj3 [pages [issue [-> [Hp Hi]]]]]].
  unfold bind at 1.
  pose proof (addIssueToProject_calls (id project) (issueId issueInfo)
                (itemId issueInfo) s3) as H4.
  destruct (addIssueToProject J (id project) (issueId issueInfo)
              (itemId issueInfo) s3) as [item s4|e s4|];
    [|contradiction|contradiction].
  assert (Hl : exists link,
             journal s4 = journal s3 ++ link /\
             (link = [] \/
              exists contentId, link = [AddItem (id project) contentId])).
  { destruct (itemId issueInfo); eexists; (split; [exact H4|]); eauto. }
  clear H4. destruct Hl as [link [Hj4 Hl]].
  assert (Hw : exists s5 writes,
             updateProjectFields J (id project) item (issueNumber issueInfo)
               (orgLogin input) (repository input) (prAuthor input)
               (effort input) (weight input) flds s4 = Returned tt s5 /\
             journal s5 = journal s4 ++ writes /\
             Forall (field_write input (id project)) writes).
  { destruct item as [item|].
    - destruct (updateProjectFields_noted _ _ _ api (id project) item
                  (issueNumber issueInfo) (orgLogin input) (repository input)
                  (prAuthor input) (effort input) (weight input) flds s4)
        as [s5 [E5 Hj5]].
      exists s5. eexists. split; [exact E5|]. split; [exact Hj5|].
      apply field_writes_are_writes.
    - exists s4, []. split; [reflexivity|].
      rewrite app_nil_r. split; [reflexivity|constructor]. }
  destruct Hw as [s5 [writes [E5 [Hj5 Hw]]]].
  unfold bind. rewrite E5. unfold ret.
  eexists. split.
  - rewrite Hj5, Hj4, Hj3, Hj2, <- !app_assoc. reflexivity.
  - right. exists (id project), users, pages, issue, link, writes.
    cbn [app]. repeat split; auto.
Qed.

Lemma main_calls fuel input (s : St) :
  emits s (main J fuel input s) (run_calls input).
Proof.
  pose proof (syncSteps_calls fuel input s) as H.
  unfold main, try_catch, bind.
  destruct (syncSteps J fuel input s) as [a s'|e s'|]; exact H.
Qed.

End Calls.

End JournalFacts.

(** ** What a run does and never does, against any service *)

Module RunFacts.

Import Sync Resolve Listing Upsert Outcomes Columns Journal Protocol.
Import JsFacts ProjectFacts ListingFacts UpsertFacts FieldFacts JournalFacts.

Lemma count_cons {NodeId Cursor} kind (c : Call NodeId Cursor) l :
  count kind (c :: l) = (if kind c then 1 else 0) + count kind l.
Proof. unfold count. cbn [filter]. destruct (kind c); reflexivity. Qed.

Lemma emits_impl {NodeId Cursor World A}
    (s : State (World * list (Call NodeId Cursor)))
    (o : Outcome (World * list (Call NodeId Cursor)) A)
    (S S' : list (Call NodeId Cursor) -> Prop) :
  (forall calls, S calls -> S' calls) -> emits s o S -> emits s o S'.
Proof.
  intros H. destruct o as [a s'|e s'|]; cbn [emits]; [| |auto];
    intros [calls [Hj Hs]]; exists calls; auto.
Qed.

Section Run.

Variables NodeId Cursor World : Type.
Variable api : GitHub NodeId Cursor World.
Variable input : PrInput.

Local Abbreviation J := (journaled api).
Local Abbreviation St := (State (World * list (Call NodeId Cursor))).

Lemma issue_calls_counts (issue : list (Call NodeId Cursor)) :
  issue_calls input issue ->
  count is_update issue + count is_creation issue <= 1 /\
  count is_link issue = 0.
Proof. intros []; cbn; split; lia. Qed.

Lemma field_write_kinds projectId (writes : list (Call NodeId Cursor)) :
  Forall (field_write input projectId) writes ->
  count is_update writes = 0 /\ count is_creation writes = 0 /\
  count is_link writes = 0.
Proof.
  intros H. repeat split; apply count_none;
    apply Forall_impl with (2 := H); intros [] Hc;
    try reflexivity; destruct Hc.
Qed.

Lemma page_kinds projectId (pages : list (Call NodeId Cursor)) :
  Forall (fun c => exists cursor, c = ListItems projectId 100 cursor) pages ->
  count is_update pages = 0 /\ count is_creation pages = 0 /\
  count is_link pages = 0.
Proof.
  intros H. repeat split; apply count_none;
    apply Forall_impl with (2 := H); intros c [cursor ->]; reflexivity.
Qed.

(** X6: whatever the service answers, a run that ends has written at
    most one issue (one update or one creation, never both) and has added
    at most one item to the project. *)
Theorem run_writes_one_issue_at_most fuel (s : St) :
  emits s (main J fuel input s)
    (fun calls =>
       count is_update calls + count is_creation calls <= 1 /\
       count is_link calls <= 1).
Proof.
  apply emits_impl with (2 := main_calls _ _ _ api fuel input s).
  intros calls [->|[projectId [users [pages [issue [link [writes
                  [-> [Hu [Hp [Hi [Hl Hw]]]]]]]]]]]].
  - cbn. lia.
  - rewrite !count_cons, !count_app. cbn [is_update is_creation is_link].
    destruct (page_kinds projectId pages Hp) as [P1 [P2 P3]].
    destruct (field_write_kinds projectId writes Hw) as [W1 [W2 W3]].
    rewrite P1, P2, P3, W1, W2, W3.
    assert (U : count is_update users = 0 /\ count is_creation users = 0 /\
                count is_link users = 0)
      by (destruct Hu as [->| ->]; cbn; auto).
    destruct U as [U1 [U2 U3]]. rewrite U1, U2, U3.
    assert (C : count is_update issue + count is_creation issue <= 1 /\
                count is_link issue = 0).
    { destruct Hi as [->|Hi]; [cbn; lia|apply issue_calls_counts, Hi]. }
    assert (L : count is_update link = 0 /\ count is_creation link = 0 /\
                count is_link link <= 1).
    { destruct Hl as [->|[contentId ->]]; cbn; lia. }
    lia.
Qed.

(** X7: whatever the service answers, every call of a run that ends
    carries the data of its input: the projects of the organization of the
    input are listed, the search is the search for the PR number in the
    repository of the input, and every update or creation of an issue and
    every addition of an assignee goes to that repository, with the
    title, body and assignee of the input. *)
Theorem run_calls_carry_the_input fuel (s : St) :
  emits s (main J fuel input s) (Forall (aimed input)).
Proof.
  apply emits_impl with (2 := main_calls _ _ _ api fuel input s).
  intros calls [->|[projectId [users [pages [issue [link [writes
                  [-> [Hu [Hp [Hi [Hl Hw]]]]]]]]]]]].
  - repeat constructor.
  - constructor; [reflexivity|]. constructor; [exact I|].
    repeat (apply Forall_app; split).
    + destruct Hu as [->| ->]; repeat constructor.
    + apply Forall_impl with (2 := Hp). intros c [cursor ->]. exact I.
    + destruct Hi as [->|[]]; repeat constructor.
    + destruct Hl as [->|[contentId ->]]; repeat constructor.
    + apply Forall_impl with (2 := Hw). intros [] Hc; try exact I;
        try destruct Hc; cbn [aimed]; tauto.
Qed.

(** X8: a run writes nothing before it has read the projects and the
    fields of the resolved project: every call that changes the service
    comes after these two listings. When the project is not resolved, the
    listing of the projects is the only call of the run. *)
Theorem run_reads_before_it_writes fuel (s : St) :
  emits s (main J fuel input s)
    (fun calls =>
       forall pre c post,
         calls = pre ++ c :: post -> is_write c = true ->
         exists projectId rest,
           pre = ListProjects (orgLogin input) :: ListFields projectId :: rest) /\
  (~ returns (findProject J (orgLogin input) (projectName input) s) ->
   emits s (main J fuel input s)
     (fun calls => calls = [ListProjects (orgLogin input)])).
Proof.
  split.
  - apply emits_impl with (2 := main_calls _ _ _ api fuel input s).
    intros calls [->|[projectId [users [pages [issue [link [writes
                    [-> _]]]]]]]] pre c post E Hc.
    + destruct pre as [|c0 pre]; cbn [app] in E.
      * injection E as <- _. discriminate.
      * injection E as _ E. destruct pre; discriminate.
    + destruct pre as [|c0 pre]; cbn [app] in E;
        [injection E as <- _; discriminate|].
      injection E as <- E.
      destruct pre as [|c1 pre]; cbn [app] in E;
        [injection E as <- _; discriminate|].
      injection E as <- E. eauto.
  - intros Hn. unfold main, try_catch, syncSteps. unfold bind at 1 2.
    pose proof (findProject_calls _ _ _ api (orgLogin input)
                  (projectName input) s) as H.
    destruct (findProject J (orgLogin input) (projectName input) s)
      as [project s1|e s1|]; [|eexists; split; [exact H|reflexivity]|exact I].
    exfalso. apply Hn. eexists _, _. reflexivity.
Qed.

(** *** Errors are contained *)

Lemma findProject_ends orgLogin projectName (s : State World) :
  findProject api orgLogin projectName s <> OutOfFuel.
Proof.
  unfold findProject, bind, try_catch, call.
  destruct (graphql_projects api orgLogin (world s)) as [[[projectsV2|]|m] w'];
    cbv beta iota zeta.
  - destruct (length _ =? 0); [discriminate|].
    destruct (selectProject _ _) as [p|]; [|discriminate].
    unfold log, ret. destruct (closed p); discriminate.
  - discriminate.
  - destruct (includes m (lit "Must have admin rights")
              || includes m (lit "permission")); discriminate.
Qed.

Lemma getProjectFields_ends projectId prAuthor (s : State World) :
  getProjectFields api projectId prAuthor s <> OutOfFuel.
Proof.
  destruct (graphql_fields api projectId (world s)) as [[r|m] w1] eqn:E.
  - rewrite (getProjectFields_listed _ _ _ api projectId prAuthor s r w1 E).
    cbv zeta. destruct (find _ _); [|discriminate].
    destruct (graphql_user api prAuthor w1) as [[user|m] w2]; discriminate.
  - unfold getProjectFields, bind at 1, call. rewrite E. discriminate.
Qed.

Lemma addIssueToProject_returns projectId issueId existingItemId
    (s : State World) :
  returns (addIssueToProject api projectId issueId existingItemId s).
Proof.
  unfold addIssueToProject, returns.
  destruct existingItemId as [item|]; [eexists _, _; reflexivity|].
  unfold try_catch, call, bind, log, ret.
  destruct (graphql_add_item api projectId issueId (world s)) as [[r|m] w'];
    eexists _, _; reflexivity.
Qed.

Lemma updateProjectFields_returns projectId itemId issueNumber orgLogin
    repository prAuthor effort weight (flds : ProjectFields NodeId)
    (s : State World) :
  exists s',
    updateProjectFields api projectId itemId issueNumber orgLogin repository
      prAuthor effort weight flds s = Returned tt s'.
Proof.
  destruct itemId as [item|]; [|exists s; reflexivity].
  revert s. unfold updateProjectFields.
  repeat (apply returns_then; [|cbv beta]).
  all: intros s0.
  all: repeat match goal with
              | |- context [match ?x with _ => _ end] => destruct x
              end.
  all: apply guarded_returns || (eexists; reflexivity).
Qed.

(** X9: errors are contained. [main] never throws: an error of any step
    ends the run with one more line on the console, the service being left
    as the failing step left it. The scan of the project items is the
    only loop: a run fails to end only when the project and its fields
    have been read and the scan of the items does not end. *)
Theorem main_contains_every_error fuel (s : State World) :
  (forall e s', main api fuel input s <> Thrown e s') /\
  (forall e s1,
     syncSteps api fuel input s = Thrown e s1 ->
     main api fuel input s =
     Returned tt (after s1 (world s1) [ErrorLoggingToProject e])) /\
  (main api fuel input s = OutOfFuel ->
   exists project s1 flds s2,
     findProject api (orgLogin input) (projectName input) s
     = Returned project s1 /\
     getProjectFields api (id project) (prAuthor input) s1
     = Returned flds s2 /\
     findExistingIssueInProject api fuel (id project) (prNumber input)
       (repository input) s2 = OutOfFuel).
Proof.
  split; [|split].
  - intros e s'. unfold main, try_catch, bind, log, ret.
    destruct (syncSteps api fuel input s); discriminate.
  - intros e s1 H. unfold main, try_catch, bind. rewrite H. reflexivity.
  - unfold main, try_catch. unfold bind at 1.
    destruct (syncSteps api fuel input s) as [a s'|e s'|] eqn:E;
      [discriminate|discriminate|]. intros _.
    unfold syncSteps in E. unfold bind at 1 in E.
    pose proof (findProject_ends (orgLogin input) (projectName input) s) as N1.
    destruct (findProject api (orgLogin input) (projectName input) s)
      as [project s1|e s1|]; [|discriminate|contradiction].
    unfold bind at 1 in E.
    pose proof (getProjectFields_ends (id project) (prAuthor input) s1) as N2.
    destruct (getProjectFields api (id project) (prAuthor input) s1)
      as [flds s2|e s2|] eqn:E2; [|discriminate|contradiction].
    exists project, s1, flds, s2. split; [reflexivity|]. split; [exact E2|].
    unfold bind at 1 in E.
    destruct (findExistingIssueInProject api fuel (id project)
                (prNumber input) (repository input) s2)
      as [found s3|e s3|] eqn:F; [| |reflexivity]; exfalso.
    + destruct (findOrCreateIssue api fuel (orgLogin input)
                  (repository input) (prNumber input) (prTitle input)
                  (prUrl input) (prAuthor input) (stats input)
                  (effort input) (weight input) (id project) s2)
        as [issueInfo s4|e s4|] eqn:G; [|discriminate|].
      * unfold bind at 1 in E.
        destruct (addIssueToProject_returns (id project) (issueId issueInfo)
                    (itemId issueInfo) s4) as [item [s5 A]].
        rewrite A in E. unfold bind in E.
        destruct (updateProjectFields_returns (id project) item
                    (issueNumber issueInfo) (orgLogin input)
                    (repository input) (prAuthor input) (effort input)
                    (weight input) flds s5) as [s6 U].
        rewrite U in E. discriminate.
      * destruct found as [found|].
        -- rewrite (findOrCreate_in_project _ _ _ api (id project)
                      (prNumber input) (orgLogin input) (repository input)
                      (prTitle input) (prUrl input) (prAuthor input)
                      (stats input) (effort input) (weight input) fuel s2 s3
                      found F) in G.
           destruct (rest_issues_update api _ _ _ _ _) as [[[]|m] w3];
             discriminate.
        -- rewrite (findOrCreate_not_in_project _ _ _ api (id project)
                      (prNumber input) (orgLogin input) (repository input)
                      (prTitle input) (prUrl input) (prAuthor input)
                      (stats input) (effort input) (weight input) fuel s2 s3
                      F) in G.
           destruct (rest_search api _ _) as [[[[|hit hits]|]|m] w2];
             try discriminate;
             try (destruct (rest_issues_create api _ _ _ _) as [[made|m] w3];
                  discriminate).
           destruct (rest_issues_update api _ _ _ _ _) as [[[]|m] w3];
             discriminate.
    + unfold findExistingIssueInProject, try_catch in F.
      destruct (scanPages api fuel (id project) (prNumber input)
                  (repository input) None s2); discriminate.
Qed.

End Run.

End RunFacts.

(** ** What the script writes, the scan reads back *)

Module ReadBackFacts.

Import Sync JsFacts Marker Upsert Layout MatchFacts CanonicalFacts.

Lemma issueTitle_not_empty prNumber prTitle : issueTitle prNumber prTitle <> [].
Proof. discriminate. Qed.

Lemma issueTitle_has_phrase prNumber prTitle :
  issueTitle prNumber prTitle =
  [] ++ (lit "PR #" ++ decimal prNumber ++ lit ":") ++ (lit " " ++ prTitle).
Proof.
  unfold issueTitle. cbn [app]. rewrite <- !app_assoc. reflexivity.
Qed.

(** X10: an issue that carries the title and the body that the script
    writes for a pull request is read back by the scan of Step C.1
    exactly for that pull request and that repository: the test of the
    scan passes when the PR number and the repository are those of the
    issue, and fails for every other PR number and every other
    repository. The title also contains the phrase of the search of
    Step C.2. *)
Theorem written_issue_is_read_back (NodeId : Type)
    (item node : NodeId) (number : N)
    prNumber orgLogin repository prTitle prUrl prAuthor stats effort weight
    (prNumber' : N) (repository' : str) :
  repository_name repository -> no_star prUrl ->
  let issue :=
    {| issue_id := node; issue_number := number;
       issue_title := issueTitle prNumber prTitle;
       issue_body := Some (createIssueBody prNumber prUrl repository
                             prAuthor stats effort weight) |} in
  matchItem prNumber' repository'
    {| item_id := item; item_content := Some (IssueContent issue) |} =
  (if (prNumber =? prNumber')%N && str_eqb repository repository'
   then Some {| found_issue := issue; found_itemId := item |}
   else None) /\
  includes (issueTitle prNumber prTitle)
           (q_phrase (searchQuery prNumber orgLogin repository)) = true.
Proof.
  intros Hr Hu issue. subst issue. split.
  - unfold matchItem. cbn [item_content item_id issue_title issue_body].
    destruct (issueTitle prNumber prTitle) as [|t0 title] eqn:Et;
      [discriminate|].
    rewrite <- Et, parsePrTitle_issueTitle.
    destruct (prNumber =? prNumber')%N; [|reflexivity].
    rewrite (matchRepository_createIssueBody prNumber prUrl repository
               prAuthor stats effort weight Hr Hu).
    cbn [option_map andb]. rewrite (trim_repository_name _ Hr).
    reflexivity.
  - apply includes_iff. exists [], (lit " " ++ prTitle).
    apply issueTitle_has_phrase.
Qed.

(** *** Blanks and line ends *)

Lemma trim_start_blanks pad s :
  Forall (fun c => is_space c = true) pad ->
  trim_start (pad ++ s) = trim_start s.
Proof.
  intros H. induction H as [|c pad Hc Hp IH]; [reflexivity|].
  cbn [app trim_start]. rewrite Hc. exact IH.
Qed.

Lemma trim_start_name s :
  repository_name s -> forall t, trim_start (s ++ t) = s ++ t.
Proof.
  intros [Hne Hs] t. destruct s as [|c s]; [contradiction|].
  cbn [app]. apply trim_start_id. inversion Hs; assumption.
Qed.

Lemma repository_name_rev s : repository_name s -> repository_name (rev s).
Proof.
  intros [Hne Hs]. split; [|apply Forall_rev, Hs].
  intros E. apply Hne. rewrite <- (rev_involutive s), E. reflexivity.
Qed.

Lemma trim_padded pad1 s pad2 :
  Forall (fun c => is_space c = true) pad1 ->
  Forall (fun c => is_space c = true) pad2 ->
  repository_name s ->
  trim (pad1 ++ s ++ pad2) = s.
Proof.
  intros H1 H2 Hs. unfold trim, trim_end.
  rewrite trim_start_blanks by exact H1.
  rewrite trim_start_name by exact Hs.
  rewrite rev_app_distr.
  rewrite trim_start_blanks by (apply Forall_rev, H2).
  rewrite <- (app_nil_r (rev s)).
  rewrite trim_start_name by (apply repository_name_rev, Hs).
  rewrite app_nil_r. apply rev_involutive.
Qed.

(** X11: the scan reads the repository name from the rest of the line
    after the marker, without the blanks around it: in a body whose text
    before the marker is passed over by the search for the marker (it
    holds no marker line of its own), a repository name that is followed
    by a line terminator (a line feed, or the carriage return of a CRLF
    line end) or by the end of the body, with any blanks before and after
    it on the line, is read as it is. *)
Theorem repository_is_read_without_blanks pre pad1 repository pad2 rest :
  (forall text, matchRepository (pre ++ text) = matchRepository text) ->
  repository_name repository ->
  Forall blank pad1 -> Forall blank pad2 -> line_ends rest ->
  option_map trim
    (matchRepository
       (pre ++ repositoryMarker ++ pad1 ++ repository ++ pad2 ++ rest))
  = Some repository.
Proof.
  intros Hpre Hr H1 H2 Hrest.
  rewrite Hpre.
  assert (Hname : pad1 ++ repository ++ pad2 <> []).
  { destruct Hr as [Hne _]. intros E.
    apply app_eq_nil in E as [_ E]. apply app_eq_nil in E as [E _].
    contradiction. }
  assert (Hline : Forall (fun c => not_terminator c = true)
                    (pad1 ++ repository ++ pad2)).
  { repeat (apply Forall_app; split).
    - apply Forall_impl with (2 := H1). intros c [_ Hc].
      unfold not_terminator. rewrite Hc. reflexivity.
    - destruct Hr as [_ Hs]. apply Forall_impl with (2 := Hs).
      intros c Hc. apply space_of_terminator, Hc.
    - apply Forall_impl with (2 := H2). intros c [_ Hc].
      unfold not_terminator. rewrite Hc. reflexivity. }
  rewrite (matchRepository_here _ (pad1 ++ repository ++ pad2)).
  - cbn [option_map]. f_equal. apply trim_padded; [| |exact Hr].
    + apply Forall_impl with (2 := H1). intros c [Hc _]. exact Hc.
    + apply Forall_impl with (2 := H2). intros c [Hc _]. exact Hc.
  - exists rest. cbn [app]. split; [|split; [exact Hname|split; [exact Hline|]]].
    + rewrite <- !app_assoc. reflexivity.
    + destruct rest as [|c rest']; [exact I|].
      unfold not_terminator. cbn in Hrest. rewrite Hrest. reflexivity.
Qed.

End ReadBackFacts.

(** ** What a run leaves as it was, in the reference model *)

Module FrameFacts.

Import Sync Memory Resolve Marker Listing Upsert Summary Frame.
Import JsFacts ProjectFacts MatchFacts ListingFacts UpsertFacts CanonicalFacts.
Import MemoryFacts.

Section Touch.

Variable input : PrInput.







End Touch.

(** X13: the pages are transparent. Against the reference model, for a
    project with any number of items, the page-by-page scan of Step C.1
    returns what one scan of the whole listing returns, the first item in
    listing order that passes the test, and it needs one request more
    than the number of full pages. *)
Theorem paged_scan_is_the_whole_scan w projectId prNumber repository fuel
    (s : State Store) :
  items_outage w = false -> world s = w ->
  length (project_nodes w projectId) / 100 < fuel ->
  findExistingIssueInProject github fuel projectId prNumber repository s =
  Returned (scanItems prNumber repository (project_nodes w projectId)) s.
Proof.
  intros Ho Hw Hf. unfold findExistingIssueInProject, try_catch.
  rewrite (scanPages_memory w projectId prNumber repository Ho fuel 0 None s
             Hw); [reflexivity|auto|exact Hf].
Qed.

End FrameFacts.

(** ** The collector: requests and sums *)

Module CollectorFacts.

Import Float64 Stats StatsFacts Totals Samples RoundingFacts.

(** X14: the loop of the collector has no bound of its own. Against an
    endpoint whose every page is full, it never stops, whatever the
    number of requests that it is allowed. *)
Theorem fetch_never_stops_on_full_pages listFiles :
  (forall page, perPage <= length (listFiles page)) ->
  forall fuel page allFiles,
    fetchAllFiles listFiles fuel page allFiles = None.
Proof.
  intros Hfull. induction fuel as [|fuel IH]; intros page allFiles;
    [reflexivity|].
  rewrite fetch_unfold. pose proof (Hfull page) as H. unfold perPage in *.
  destruct (Nat.eqb_spec (length (listFiles page)) 0); [lia|].
  destruct (Nat.ltb_spec (length (listFiles page)) 100); [lia|].
  apply IH.
Qed.

Lemma fetch_pages_short all :
  forall fuel p acc,
    fuel <= length (skipn (p * perPage) all) / perPage ->
    fetchAllFiles (pages_of all) fuel (S p) acc = None.
Proof.
  induction fuel as [|fuel IH]; intros p acc Hfuel; [reflexivity|].
  rewrite fetch_unfold, pages_of_S.
  set (rest := skipn (p * perPage) all) in *. unfold perPage in *.
  assert (Hlen : 100 <= length rest).
  { destruct (Nat.lt_ge_cases (length rest) 100) as [Hlt|Hge]; [|exact Hge].
    rewrite Nat.div_small in Hfuel by exact Hlt. lia. }
  rewrite length_firstn, Nat.min_l by exact Hlen.
  change (100 =? 0) with false. rewrite Nat.ltb_irrefl.
  apply IH.
  replace (S p * 100) with (100 + p * 100) by lia.
  rewrite <- skipn_skipn. fold rest. rewrite length_skipn.
  assert (E : length rest = 1 * 100 + (length rest - 100)) by lia.
  rewrite E, Nat.div_add_l in Hfuel by lia. lia.
Qed.

(** X15: the number of requests. Against an endpoint that serves the
    files of a pull request in pages of 100, the loop returns every file
    when it is allowed more requests than the listing has full pages, and
    it has not stopped otherwise: it makes one request more than there
    are full pages (for exactly 100 files, a second request, which returns
    an empty page). *)
Theorem fetch_makes_one_request_per_page all fuel :
  fetchAllFiles (pages_of all) fuel 1 [] =
  if fuel <=? length all / perPage then None else Some all.
Proof.
  destruct (Nat.leb_spec fuel (length all / perPage)) as [Hle|Hgt].
  - apply fetch_pages_short. exact Hle.
  - rewrite fetch_pages_of by exact Hgt. reflexivity.
Qed.

(** *** The sums *)

(** The loop of the totals from any start below 2^53: while the exact
    total stays below 2^53, no addition rounds. *)
Lemma sum_from f files :
  forall start : N,
    (start + total f files < 2 ^ 53)%N ->
    fold_left (fun acc file => add acc (of_N (or_zero (f file)))) files
      (of_N start) =
    of_N (start + total f files).
Proof.
  induction files as [|file files IH]; intros start H; cbn [fold_left total fold_right] in *.
  - rewrite N.add_0_r. reflexivity.
  - fold (total f files) in *.
    rewrite add_of_N by lia. rewrite IH by lia. f_equal. lia.
Qed.

Lemma sum_by_exact f files :
  (total f files < 2 ^ 53)%N -> sum_by f files = of_N (total f files).
Proof.
  intros H. unfold sum_by. rewrite (sum_from f files 0) by exact H.
  reflexivity.
Qed.

Lemma total_app f files1 files2 :
  total f (files1 ++ files2) = (total f files1 + total f files2)%N.
Proof.
  unfold total. induction files1 as [|file files1 IH]; cbn [app fold_right].
  - reflexivity.
  - rewrite IH. lia.
Qed.

Lemma total_permutation f files1 files2 :
  Permutation.Permutation files1 files2 ->
  total f files1 = total f files2.
Proof.
  unfold total. induction 1 as [|file l1 l2 H IH|a b l|l1 l2 l3 H1 IH1 H2 IH2];
    cbn [fold_right].
  - reflexivity.
  - rewrite IH. reflexivity.
  - lia.
  - congruence.
Qed.

(** X16: the statistics are sums over the files, as long as no total
    reaches 2^53. For a listing whose exact totals of additions,
    deletions and changes are below 2^53, the three totals of the
    collector are these integers; they and the effort do not depend on
    the order in which the service lists the files; and the totals of two
    parts of the listing, as the pages are, add up to the totals of the
    whole. From 2^53 on the order matters: of a file with 2^53 added
    lines and three files with one, the additions are 2^53 when the large
    file comes first and 2^53 + 4 when it comes last. *)
Theorem stats_are_sums_over_the_files :
  (forall listing,
     (total additions listing < 2 ^ 53)%N ->
     (total deletions listing < 2 ^ 53)%N ->
     (total changes listing < 2 ^ 53)%N ->
     st_additions (computeStats listing) = of_N (total additions listing) /\
     st_deletions (computeStats listing) = of_N (total deletions listing) /\
     totalChanges (computeStats listing) = of_N (total changes listing) /\
     (forall files',
        Permutation.Permutation listing files' ->
        filesChanged (computeStats files') = filesChanged (computeStats listing) /\
        st_additions (computeStats files') = st_additions (computeStats listing) /\
        st_deletions (computeStats files') = st_deletions (computeStats listing) /\
        totalChanges (computeStats files') = totalChanges (computeStats listing) /\
        st_effort (computeStats files') = st_effort (computeStats listing)) /\
     (forall files1 files2,
        listing = files1 ++ files2 ->
        filesChanged (computeStats listing) =
        filesChanged (computeStats files1) + filesChanged (computeStats files2) /\
        st_additions (computeStats listing) =
        add (st_additions (computeStats files1))
            (st_additions (computeStats files2)) /\
        st_deletions (computeStats listing) =
        add (st_deletions (computeStats files1))
            (st_deletions (computeStats files2)) /\
        totalChanges (computeStats listing) =
        add (totalChanges (computeStats files1))
            (totalChanges (computeStats files2)) /\
        Stats.files (computeStats listing) =
        Stats.files (computeStats files1) ++ Stats.files (computeStats files2))) /\
  (Permutation.Permutation
     [huge_file; small_file; small_file; small_file]
     [small_file; small_file; small_file; huge_file] /\
   st_additions (computeStats [huge_file; small_file; small_file; small_file])
   = of_N (2 ^ 53) /\
   st_additions (computeStats [small_file; small_file; small_file; huge_file])
   = of_N (2 ^ 53 + 4)).
Proof.
  split.
  - intros listing Ha Hd Hc. unfold computeStats.
    cbn [filesChanged st_additions st_deletions totalChanges st_effort
         Stats.files].
    rewrite !sum_by_exact by assumption.
    split; [reflexivity|]. split; [reflexivity|]. split; [reflexivity|].
    split.
    + intros files' H.
      rewrite !sum_by_exact
        by (rewrite <- (total_permutation _ _ _ H); assumption).
      rewrite <- !(total_permutation _ _ _ H).
      rewrite (Permutation.Permutation_length H).
      repeat split; reflexivity.
    + intros files1 files2 ->.
      rewrite !total_app in *.
      rewrite !sum_by_exact by lia.
      rewrite !add_of_N by assumption.
      rewrite length_app, map_app. repeat split; reflexivity.
  - split; [|split; vm_compute; reflexivity].
    apply (Permutation.Permutation_cons_append
             [small_file; small_file; small_file] huge_file).
Qed.

(** X17: when for every file the changes are its additions plus its
    deletions, as the service counts them, and the exact total of the
    changes is below 2^53, the total of the changes is the total of the
    additions plus the total of the deletions. *)
Theorem total_changes_are_additions_plus_deletions allFiles :
  Forall (fun file =>
            or_zero (changes file) =
            (or_zero (additions file) + or_zero (deletions file))%N)
         allFiles ->
  (total changes allFiles < 2 ^ 53)%N ->
  totalChanges (computeStats allFiles) =
  add (st_additions (computeStats allFiles))
      (st_deletions (computeStats allFiles)).
Proof.
  intros H Hc.
  assert (E : total changes allFiles =
              (total additions allFiles + total deletions allFiles)%N).
  { clear Hc. unfold total.
    induction H as [|file files Hf H IH]; cbn [fold_right].
    - reflexivity.
    - rewrite IH, Hf. lia. }
  unfold computeStats. cbn [st_additions st_deletions totalChanges].
  rewrite !sum_by_exact by lia.
  rewrite add_of_N by lia. rewrite E. reflexivity.
Qed.

End CollectorFacts.

(** ** Runs while the item listing fails, in the reference model *)

Module OutageFacts.

Import Sync Memory Resolve Marker Listing Upsert Summary Outage.
Import JsFacts ProjectFacts MatchFacts ListingFacts UpsertFacts CanonicalFacts.
Import MemoryFacts.

Section Unseen.

Variable input : PrInput.

Lemma findExisting_outage w projectId fuel (s : State Store) :
  items_outage w = true -> world s = w -> 1 <= fuel ->
  exists s1,
    findExistingIssueInProject github fuel projectId (prNumber input)
      (repository input) s = Returned None s1 /\
    world s1 = w.
Proof.
  intros Ho Hw Hf.
  rewrite (findExisting_failed _ _ _ github projectId (prNumber input)
             (repository input) 1 s w (lit "Service unavailable") fuel);
    [eexists; split; reflexivity| |exact Hf].
  apply fails_now. cbn [graphql_items github]. unfold list_items.
  rewrite Hw, Ho. reflexivity.
Qed.

Lemma steps_unseen fuel (P : Project nat) s s1 w B
    (k : IssueInfo nat -> option nat -> M Store B) :
  findExistingIssueInProject github fuel (id P) (prNumber input)
    (repository input) s = Returned None s1 ->
  world s1 = w ->
  let o := bind (findOrCreateIssue github fuel (orgLogin input)
                   (repository input) (prNumber input) (prTitle input)
                   (prUrl input) (prAuthor input) (stats input)
                   (effort input) (weight input) (id P))
             (fun issueInfo =>
                bind (addIssueToProject github (id P) (issueId issueInfo)
                        (itemId issueInfo))
                     (k issueInfo)) s in
  (exists e s', world s' = settle_unseen input P w /\ o = Thrown e s') \/
  (exists issueInfo item s',
     world s' = settle_unseen input P w /\
     snd (add_assignees (orgLogin input) (repository input)
            (issueNumber issueInfo) [prAuthor input] (settle_unseen input P w))
     = settle_unseen input P w /\
     o = k issueInfo item s').
Proof.
  intros E Hw o. subst o. unfold bind, settle_unseen.
  rewrite (findOrCreate_not_in_project _ _ _ github (id P) (prNumber input)
             (orgLogin input) (repository input) (prTitle input)
             (prUrl input) (prAuthor input) (stats input) (effort input)
             (weight input) fuel s s1 E).
  cbn [rest_search rest_issues_update rest_issues_create github].
  rewrite Hw. fold (fields_of input). fold (query_of input).
  unfold search. fold (hits input w).
  destruct (hits input w) as [|hit others].
  - assert (Ec : create_issue (orgLogin input) (repository input)
                   (fields_of input) w =
                 (Ok (number_of (length (issues w)), length (issues w)),
                  snd (create_issue (orgLogin input) (repository input)
                         (fields_of input) w))) by reflexivity.
    set (w1 := snd (create_issue (orgLogin input) (repository input)
                      (fields_of input) w)) in *.
    rewrite Ec. cbn [fst snd issueId itemId issueNumber].
    assert (Ha : snd (add_assignees (orgLogin input) (repository input)
                        (number_of (length (issues w))) [prAuthor input]
                        (snd (add_item (id P) (length (issues w)) w1)))
                 = snd (add_item (id P) (length (issues w)) w1)).
    { apply (add_assignees_same _ _ _ _ _ (length (issues w))
               (canonical_record input)).
      - apply issue_index_number.
      - destruct (add_item_framed (id P) (length (issues w)) w1) as [_ Hi].
        rewrite Hi. unfold w1. cbn [snd create_issue issues with_issues].
        rewrite nth_error_app2, Nat.sub_diag by lia. reflexivity.
      - reflexivity. }
    unfold addIssueToProject, try_catch, call, bind, log, ret.
    cbn [graphql_add_item github world console].
    destruct (add_item (id P) (length (issues w)) w1) as [[r|m] w4];
      cbn [snd] in *; right; eexists _, _, _;
      (split; [|split; [|reflexivity]]; [reflexivity|exact Ha]).
  - destruct (update_issue (orgLogin input) (repository input)
                (hit_number hit) (fields_of input) w) as [[[]|m] w3] eqn:Eu.
    + cbn [issueId itemId hit_node_id issueNumber].
      assert (Ha : snd (add_assignees (orgLogin input) (repository input)
                          (hit_number hit) [prAuthor input]
                          (snd (add_item (id P) (hit_node_id hit) w3)))
                   = snd (add_item (id P) (hit_node_id hit) w3)).
      { destruct (update_issue_ok _ _ _ _ _ _ Eu) as [j [Hn Hj]].
        destruct (add_item_framed (id P) (hit_node_id hit) w3) as [_ Hi].
        rewrite <- Hi in Hj.
        exact (add_assignees_same _ _ _ _ _ _ _ Hn Hj eq_refl). }
      unfold addIssueToProject, try_catch, call, bind, log, ret.
      cbn [graphql_add_item github world console].
      destruct (add_item (id P) (hit_node_id hit) w3) as [[r|m] w4];
        cbn [snd] in *; right; eexists _, _, _;
        (split; [|split; [|reflexivity]]; [reflexivity|exact Ha]).
    + left. eexists _, _. split; [|reflexivity]. reflexivity.
Qed.

Lemma sync_unseen fuel w :
  items_outage w = true -> 1 <= fuel ->
  exists s', sync fuel input w = Returned tt s' /\
             world s' = step_unseen input w.
Proof.
  intros Ho Hf.
  unfold sync, main, try_catch, syncSteps, step_unseen.
  unfold bind at 1. unfold bind at 1.
  rewrite (findProject_listed _ _ _ github (orgLogin input)
             (projectName input) {| world := w; console := [] |}
             (Some (projects w)) w eq_refl).
  destruct (projects w) as [|p0 rest] eqn:Ep;
    [eexists; split; reflexivity|].
  destruct (selectProject (p0 :: rest) (projectName input)) as [P|];
    [|eexists; split; reflexivity].
  unfold returned_project. unfold bind at 1.
  match goal with |- context [getProjectFields _ _ _ ?s] =>
    destruct (getProjectFields_memory w (id P) (prAuthor input) s eq_refl)
      as [flds [s1 [E1 H1]]] end.
  rewrite E1.
  destruct (findExisting_outage w (id P) fuel s1 Ho H1 Hf) as [s2 [E2 H2]].
  destruct (steps_unseen fuel P s1 s2 w _
              (fun issueInfo itemId =>
                 bind (updateProjectFields github (id P) itemId
                         (issueNumber issueInfo) (orgLogin input)
                         (repository input) (prAuthor input) (effort input)
                         (weight input) flds)
                      (fun _ => ret itemId)) E2 H2)
    as [[e [s' [Hw' Eo]]]|[info [item [s' [Hw' [Ha Eo]]]]]];
    cbv zeta beta in Eo.
  - rewrite Eo. eexists; split; [reflexivity|exact Hw'].
  - rewrite Eo.
    destruct (updateProjectFields_memory _ (id P) item (issueNumber info)
                (orgLogin input) (repository input) (prAuthor input)
                (effort input) (weight input) flds Ha s' Hw')
      as [[] [s3 [E3 H3]]].
    unfold bind. rewrite E3. eexists; split; [reflexivity|exact H3].
Qed.

Lemma run_unseen fuel w :
  items_outage w = true -> 1 <= fuel ->
  run fuel input w = step_unseen input w.
Proof.
  intros Ho Hf. destruct (sync_unseen fuel w Ho Hf) as [s' [E Hw]].
  unfold run. rewrite E. exact Hw.
Qed.

(** *** The first hit of the search *)

Lemma filter_first {A} (f : A -> bool) l x rest :
  filter f l = x :: rest ->
  exists pre post,
    l = pre ++ x :: post /\ filter f pre = [] /\ f x = true /\
    rest = filter f post.
Proof.
  induction l as [|y l IH]; cbn [filter]; [discriminate|].
  destruct (f y) eqn:E.
  - intros H. injection H as <- <-. exists [], l. auto.
  - intros H. destruct (IH H) as [pre [post [-> [Hpre [Hx Hrest]]]]].
    exists (y :: pre), post. cbn [filter app]. rewrite E. auto.
Qed.

Lemma combine_seq_update {A} (l : list A) :
  forall h k (x : A),
    combine (seq k (length (update_nth h x l))) (update_nth h x l) =
    update_nth h (k + h, x) (combine (seq k (length l)) l).
Proof.
  induction l as [|a l IH]; intros [|h] k x; cbn [update_nth length seq combine];
    try reflexivity.
  - rewrite Nat.add_0_r. reflexivity.
  - rewrite IH. replace (S k + h) with (k + S h) by lia. reflexivity.
Qed.

Lemma indexed_update_nth {A} (l : list A) h x :
  indexed (update_nth h x l) = update_nth h (h, x) (indexed l).
Proof. unfold indexed. apply (combine_seq_update l h 0 x). Qed.

Lemma update_nth_app {A} (pre post : list A) x y :
  update_nth (length pre) y (pre ++ x :: post) = pre ++ y :: post.
Proof. induction pre as [|a pre IH]; cbn; [reflexivity|]. rewrite IH. reflexivity. Qed.

Lemma fst_combine_seq {A} (l : list A) :
  forall k, map fst (combine (seq k (length l)) l) = seq k (length l).
Proof.
  induction l as [|a l IH]; intros k; cbn [length seq combine map fst];
    [reflexivity|]. rewrite IH. reflexivity.
Qed.

Lemma indexed_position {A} (l : list A) pre post h x :
  indexed l = pre ++ (h, x) :: post -> length pre = h.
Proof.
  intros E. apply (f_equal (map fst)) in E.
  unfold indexed in E. rewrite fst_combine_seq, map_app in E.
  cbn [map fst] in E.
  assert (H : nth_error (seq 0 (length l)) (length pre) = Some h).
  { rewrite E, nth_error_app2 by (rewrite length_map; lia).
    rewrite length_map, Nat.sub_diag. reflexivity. }
  rewrite nth_error_seq in H.
  destruct (length pre <? length l); [|discriminate].
  injection H as <-. reflexivity.
Qed.

Lemma find_app {A} (f : A -> bool) l1 l2 :
  find f (l1 ++ l2) =
  match find f l1 with Some x => Some x | None => find f l2 end.
Proof.
  induction l1 as [|a l1 IH]; cbn [app find]; [reflexivity|].
  destruct (f a); [reflexivity|exact IH].
Qed.

(** The test of the search on an issue of the store. *)
Local Abbreviation asked :=
  (fun entry : nat * IssueRec =>
     str_eqb (r_owner (snd entry)) (q_owner (query_of input))
     && str_eqb (r_repo (snd entry)) (q_repo (query_of input))
     && includes (r_title (snd entry)) (q_phrase (query_of input))).

Lemma canonical_asked h : asked (h, canonical_record input) = true.
Proof.
  cbn [snd r_owner r_repo r_title canonical_record q_owner q_repo q_phrase
       query_of searchQuery fields_of canonical_fields f_title].
  rewrite !str_eqb_refl. cbn [andb].
  apply includes_iff. exists [], (lit " " ++ prTitle input).
  unfold issueTitle. cbn [app]. rewrite <- !app_assoc. reflexivity.
Qed.

Lemma first_hit w hit others :
  hits input w = hit :: others ->
  exists pre post r0,
    indexed (issues w) = pre ++ (length pre, r0) :: post /\
    filter asked pre = [] /\
    hit = {| hit_number := number_of (length pre);
             hit_node_id := length pre |} /\
    nth_error (issues w) (length pre) = Some r0 /\
    r_owner r0 = orgLogin input /\ r_repo r0 = repository input.
Proof.
  unfold hits. intros H.
  destruct (filter asked (indexed (issues w))) as [|[h r0] rest] eqn:Ef;
    [discriminate|].
  cbn [map fst] in H. injection H as <- _.
  destruct (filter_first _ _ _ _ Ef) as [pre [post [E [Hpre [Hq _]]]]].
  pose proof (indexed_position _ _ _ _ _ E) as Hh. subst h.
  exists pre, post, r0. split; [exact E|]. split; [exact Hpre|].
  split; [reflexivity|].
  assert (Hin : In (length pre, r0) (indexed (issues w)))
    by (rewrite E; apply in_elt).
  apply indexed_nth in Hin. split; [exact Hin|].
  cbn [snd] in Hq. apply andb_prop in Hq as [Hq _].
  apply andb_prop in Hq as [Ho Hr].
  split; [apply str_eqb_eq, Ho|apply str_eqb_eq, Hr].
Qed.

(** After the first hit has received the title and body of the input, it
    is the first hit still. *)
Lemma first_hit_kept w pre post r0 :
  indexed (issues w) = pre ++ (length pre, r0) :: post ->
  filter asked pre = [] ->
  forall w1,
    issues w1 = update_nth (length pre) (canonical_record input) (issues w) ->
    exists others,
      hits input w1 = {| hit_number := number_of (length pre);
                         hit_node_id := length pre |} :: others.
Proof.
  intros E Hpre w1 Hs. unfold hits.
  rewrite Hs, indexed_update_nth, E, update_nth_app, filter_app, Hpre.
  cbn [app filter]. rewrite canonical_asked. cbn [map fst].
  eexists. reflexivity.
Qed.

Lemma hits_same_issues w w1 :
  issues w1 = issues w -> hits input w1 = hits input w.
Proof. intros H. unfold hits. rewrite H. reflexivity. Qed.

(** *** With a service that does not add an item twice *)

Lemma add_item_linked p c w :
  dedup w = true -> nth_error (issues w) c <> None ->
  find (links p c) (indexed (items (snd (add_item p c w)))) <> None.
Proof.
  intros Hd Hc. unfold add_item.
  destruct (nth_error (issues w) c); [|contradiction].
  rewrite Hd.
  destruct (find (links p c) (indexed (items w))) as [entry|] eqn:Ef.
  - cbn [snd]. rewrite Ef. discriminate.
  - cbn [snd items with_items]. rewrite indexed_app, find_app, Ef.
    cbn [find]. unfold links. cbn [snd i_project i_content].
    rewrite !Nat.eqb_refl. discriminate.
Qed.

Lemma settle_unseen_fixed (P : Project nat) w j others :
  dedup w = true ->
  hits input w = {| hit_number := number_of j; hit_node_id := j |} :: others ->
  nth_error (issues w) j = Some (canonical_record input) ->
  find (links (id P) j) (indexed (items w)) <> None ->
  settle_unseen input P w = w.
Proof.
  intros Hd Hh Hj Hl. unfold settle_unseen. rewrite Hh.
  cbn [hit_number hit_node_id].
  rewrite update_issue_number, Hj.
  cbn [r_owner r_repo canonical_record]. rewrite !str_eqb_refl. cbn [andb].
  replace (update_nth j _ (issues w)) with (issues w)
    by (symmetry; apply update_nth_same; exact Hj).
  rewrite with_issues_same. unfold add_item. rewrite Hj, Hd.
  destruct (find (links (id P) j) (indexed (items w))); [reflexivity|].
  contradiction.
Qed.

Lemma settle_unseen_settled (P : Project nat) w :
  dedup w = true ->
  let w' := settle_unseen input P w in
  exists j others,
    dedup w' = true /\
    hits input w' = {| hit_number := number_of j; hit_node_id := j |} :: others /\
    nth_error (issues w') j = Some (canonical_record input) /\
    find (links (id P) j) (indexed (items w')) <> None.
Proof.
  intros Hd w'. subst w'. unfold settle_unseen.
  destruct (hits input w) as [|hit others] eqn:Eh.
  - set (w1 := snd (create_issue (orgLogin input) (repository input)
                      (fields_of input) w)).
    assert (Hj1 : nth_error (issues w1) (length (issues w)) =
                  Some (canonical_record input)).
    { unfold w1. cbn [snd create_issue issues with_issues].
      rewrite nth_error_app2, Nat.sub_diag by lia. reflexivity. }
    destruct (add_item_framed (id P) (length (issues w)) w1) as [_ Hi].
    exists (length (issues w)), []. split; [|split; [|split]].
    + unfold add_item. rewrite Hj1.
      destruct (if dedup w1 then _ else _); cbn [snd dedup with_items];
        exact Hd.
    + rewrite (hits_same_issues _ _ Hi). unfold hits, w1.
      cbn [snd create_issue issues with_issues].
      rewrite indexed_app, filter_app. fold (hits input w).
      unfold hits in Eh.
      destruct (filter asked (indexed (issues w))); [|discriminate].
      cbn [app filter]. fold (canonical_record input).
      rewrite (canonical_asked (length (issues w))). reflexivity.
    + rewrite Hi. exact Hj1.
    + apply add_item_linked; [exact Hd|congruence].
  - destruct (first_hit w hit others Eh)
      as [pre [post [r0 [E [Hpre [-> [Hin [Ho Hr]]]]]]]].
    cbn [hit_number hit_node_id].
    rewrite update_issue_number, Hin.
    rewrite <- Ho, <- Hr, !str_eqb_refl. cbn [andb].
    rewrite Ho, Hr.
    set (w1 := with_issues w _).
    assert (Hlt : length pre < length (issues w))
      by (apply nth_error_Some; congruence).
    assert (Hj1 : nth_error (issues w1) (length pre) =
                  Some (canonical_record input))
      by (apply nth_error_update_nth_eq, Hlt).
    destruct (add_item_framed (id P) (length pre) w1) as [_ Hi].
    destruct (first_hit_kept w pre post r0 E Hpre w1 eq_refl) as [others' Hh].
    exists (length pre), others'. split; [|split; [|split]].
    + unfold add_item. rewrite Hj1.
      destruct (if dedup w1 then _ else _); cbn [snd dedup with_items];
        exact Hd.
    + rewrite (hits_same_issues _ _ Hi). exact Hh.
    + rewrite Hi. exact Hj1.
    + apply add_item_linked; [exact Hd|congruence].
Qed.

Lemma settle_unseen_framed (P : Project nat) w :
  framed w (settle_unseen input P w).
Proof.
  unfold settle_unseen.
  destruct (hits input w) as [|hit others].
  - set (w1 := snd (create_issue _ _ _ w)).
    destruct (add_item_framed (id P) (length (issues w)) w1)
      as [[H1 H2 H3 H4] H5].
    assert (Hi : length (issues w1) = S (length (issues w)))
      by (cbn; rewrite length_app; cbn [length]; lia).
    split; [rewrite H1; reflexivity|rewrite H2; reflexivity| |].
    + rewrite H5. lia.
    + change (items w1) with (items w) in H4. exact H4.
  - pose proof (update_issue_framed (orgLogin input) (repository input)
                  (hit_number hit) (fields_of input) w) as Hu.
    destruct (update_issue _ _ _ _ w) as [[[]|m] w1]; cbn [snd] in Hu;
      destruct Hu as [[H1 H2 H3 H4] [H5 H6]].
    + destruct (add_item_framed (id P) (hit_node_id hit) w1)
        as [[G1 G2 G3 G4] G5].
      split; [congruence|congruence| |].
      * rewrite G5. lia.
      * rewrite H6 in G4. exact G4.
    + split; auto.
Qed.

Lemma step_unseen_framed w : framed w (step_unseen input w).
Proof.
  unfold step_unseen. destruct (projects w); [apply framed_refl|].
  destruct (selectProject _ _);
    [apply settle_unseen_framed|apply framed_refl].
Qed.

Lemma step_unseen_idempotent w :
  dedup w = true ->
  step_unseen input (step_unseen input w) = step_unseen input w.
Proof.
  intros Hd.
  pose proof (step_unseen_framed w) as [Hp _ _ _].
  unfold step_unseen at 1. rewrite Hp.
  destruct (projects w) as [|p0 rest] eqn:Ep; [reflexivity|].
  destruct (selectProject (p0 :: rest) (projectName input)) as [P|] eqn:Es;
    [|reflexivity].
  unfold step_unseen. rewrite Ep, Es.
  destruct (settle_unseen_settled P w Hd) as [j [others [H1 [H2 [H3 H4]]]]].
  apply (settle_unseen_fixed P _ j others H1 H2 H3 H4).
Qed.

Lemma step_unseen_keeps_dedup w :
  dedup (step_unseen input w) = dedup w.
Proof.
  unfold step_unseen. destruct (projects w); [reflexivity|].
  destruct (selectProject _ _) as [P|]; [|reflexivity].
  unfold settle_unseen.
  destruct (hits input w) as [|hit others].
  - unfold add_item. destruct (nth_error _ _); [|reflexivity].
    destruct (if dedup _ then _ else _); reflexivity.
  - unfold update_issue. destruct (issue_index _); [|reflexivity].
    destruct (nth_error (issues w) _); [|reflexivity].
    destruct (_ && _); [|reflexivity].
    unfold add_item. destruct (nth_error _ _); [|reflexivity].
    destruct (if dedup _ then _ else _); reflexivity.
Qed.

(** X18: a failing item listing makes no duplicates when the service
    does not add an item twice. Against the reference model, while the
    listing of the items fails and the service answers the addition of a
    content that the project holds with the existing item, every run ends,
    every run after the first leaves the store as the first left it, and
    at most one issue and one item are added. *)
Theorem outage_runs_add_at_most_one fuel w :
  items_outage w = true -> dedup w = true -> 1 <= fuel ->
  (forall k, exists s',
      sync fuel input (Nat.iter k (run fuel input) w) = Returned tt s') /\
  (forall k, 1 <= k ->
     Nat.iter k (run fuel input) w = run fuel input w) /\
  length (issues w) <= length (issues (run fuel input w))
                    <= S (length (issues w)) /\
  length (items w) <= length (items (run fuel input w))
                   <= S (length (items w)).
Proof.
  intros Ho Hd Hf.
  assert (Hk : forall k,
            items_outage (Nat.iter k (run fuel input) w) = true /\
            dedup (Nat.iter k (run fuel input) w) = true /\
            (1 <= k -> Nat.iter k (run fuel input) w = step_unseen input w)).
  { induction k as [|k [I1 [I2 I3]]]; [cbn; repeat split; auto; lia|].
    rewrite Nat.iter_succ, (run_unseen fuel _ I1 Hf).
    pose proof (step_unseen_framed (Nat.iter k (run fuel input) w))
      as [_ Hout _ _].
    split; [congruence|]. split; [rewrite step_unseen_keeps_dedup; exact I2|].
    intros _. destruct k as [|k]; [reflexivity|].
    rewrite I3 by lia. apply step_unseen_idempotent, Hd. }
  split.
  { intros k. destruct (Hk k) as [I1 _].
    destruct (sync_unseen fuel _ I1 Hf) as [s' [E _]]. exists s'. exact E. }
  rewrite (run_unseen fuel w Ho Hf).
  split; [intros k Hk1; apply Hk, Hk1|].
  split; apply step_unseen_framed.
Qed.

(** *** With a service that adds an item each time *)

Lemma settle_unseen_appends (P : Project nat) w :
  dedup w = false ->
  exists j, items (settle_unseen input P w) =
            items w ++ [{| i_project := id P; i_content := j |}].
Proof.
  intros Hd. unfold settle_unseen.
  destruct (hits input w) as [|hit others] eqn:Eh.
  - exists (length (issues w)). unfold add_item.
    cbn [snd create_issue issues with_issues dedup].
    rewrite nth_error_app2, Nat.sub_diag by lia. cbn [nth_error].
    rewrite Hd. reflexivity.
  - destruct (first_hit w hit others Eh)
      as [pre [post [r0 [E [Hpre [-> [Hin [Ho Hr]]]]]]]].
    cbn [hit_number hit_node_id].
    rewrite update_issue_number, Hin.
    rewrite <- Ho, <- Hr, !str_eqb_refl. cbn [andb].
    assert (Hlt : length pre < length (issues w))
      by (apply nth_error_Some; congruence).
    exists (length pre). unfold add_item. cbn [issues with_issues dedup].
    rewrite nth_error_update_nth_eq by exact Hlt. rewrite Hd. reflexivity.
Qed.

(** X19: a failing item listing makes duplicates when the service adds
    an item at every request. Against the reference model, while the
    listing of the items fails and the service does not look for an
    existing item, every run that resolves the project adds one more item
    to it. *)
Theorem outage_runs_add_an_item_each fuel w (P : Project nat) :
  items_outage w = true -> dedup w = false -> 1 <= fuel ->
  selectProject (projects w) (projectName input) = Some P ->
  forall k,
    length (items (Nat.iter k (run fuel input) w)) = length (items w) + k.
Proof.
  intros Ho Hd Hf Hs.
  assert (Hne : projects w <> []) by (destruct (projects w); discriminate).
  assert (Hk : forall k,
            items_outage (Nat.iter k (run fuel input) w) = true /\
            dedup (Nat.iter k (run fuel input) w) = false /\
            projects (Nat.iter k (run fuel input) w) = projects w /\
            length (items (Nat.iter k (run fuel input) w))
            = length (items w) + k).
  { induction k as [|k [I1 [I2 [I3 I4]]]]; [cbn; repeat split; auto; lia|].
    rewrite Nat.iter_succ, (run_unseen fuel _ I1 Hf).
    set (wk := Nat.iter k (run fuel input) w) in *.
    pose proof (step_unseen_framed wk) as [Hp Hout _ _].
    split; [congruence|].
    split; [rewrite step_unseen_keeps_dedup; exact I2|].
    split; [congruence|].
    unfold step_unseen. rewrite I3.
    destruct (projects w) as [|p0 rest]; [contradiction|]. rewrite Hs.
    destruct (settle_unseen_appends P wk I2) as [j Hj].
    rewrite Hj, length_app, I4. cbn [length]. lia. }
  intros k. apply Hk.
Qed.

End Unseen.

End OutageFacts.

(** ** More examples *)

Module Scenarios.

Import Sync Memory Resolve Marker Listing Upsert Summary Demo.
Import Outcomes Columns Journal Protocol Layout Frame Outage Samples.
Import JsFacts CanonicalFacts.
Import ResolveFacts FieldFacts ReadBackFacts FrameFacts CollectorFacts.
Import OutageFacts.

(** The listing of the example store holds a project whose title contains
    the name, and [findProject] returns. *)
Lemma findProject_returns_witness :
  returns (findProject github (lit "acme") (lit "efforts") demo_state).
Proof.
  apply (proj2 (findProject_returns_listed_match nat nat Store github
                  (lit "acme") (lit "efforts") demo_state
                  (Some (projects demo_store)) demo_store eq_refl)).
  exists team_efforts. split; [right; left; reflexivity|].
  exists (lit "team "), []. reflexivity.
Defined.

(** The fields of the example project: the effort and the status are
    resolved, and the done option is the option 31. *)
Lemma getProjectFields_resolution_witness :
  exists flds s',
    getProjectFields github 7 (lit "bob") demo_state = Returned flds s' /\
    resolved (lit "effort") [effort_column; status_column; assignees_column]
      (effortField flds) /\
    doneOptionId flds = Some 31.
Proof.
  eexists _, _. split; [lazy; reflexivity|].
  pose proof (getProjectFields_resolution nat nat Store github 7 (lit "bob")
                demo_state
                (Some [effort_column; status_column; assignees_column])
                demo_store _ _ eq_refl eq_refl) as H.
  cbv zeta in H. destruct H as [H _]. split; [exact H|reflexivity].
Defined.

(** The issue of the example run is read back for PR 5 of [app], and
    not for PR 6. *)
Lemma written_issue_witness :
  matchItem 5 (lit "app")
    {| item_id := 0;
       item_content :=
         Some (IssueContent
                 {| issue_id := 0; issue_number := 1;
                    issue_title := issueTitle 5 (lit "Add x");
                    issue_body :=
                      Some (createIssueBody 5 (prUrl demo_input) (lit "app")
                              (lit "bob") (stats demo_input) (lit "3.26")
                              (lit "1")) |}) |} <> None /\
  matchItem 6 (lit "app")
    {| item_id := 0;
       item_content :=
         Some (IssueContent
                 {| issue_id := 0; issue_number := 1;
                    issue_title := issueTitle 5 (lit "Add x");
                    issue_body :=
                      Some (createIssueBody 5 (prUrl demo_input) (lit "app")
                              (lit "bob") (stats demo_input) (lit "3.26")
                              (lit "1")) |}) |} = None.
Proof.
  split.
  - rewrite (proj1 (written_issue_is_read_back nat 0 0 1 5 (lit "acme")
                      (lit "app") (lit "Add x") (prUrl demo_input) (lit "bob")
                      (stats demo_input) (lit "3.26") (lit "1") 5 (lit "app")
                      Examples.demo_repository_ok Examples.demo_url_ok)).
    discriminate.
  - rewrite (proj1 (written_issue_is_read_back nat 0 0 1 5 (lit "acme")
                      (lit "app") (lit "Add x") (prUrl demo_input) (lit "bob")
                      (stats demo_input) (lit "3.26") (lit "1") 6 (lit "app")
                      Examples.demo_repository_ok Examples.demo_url_ok)).
    reflexivity.
Defined.

Lemma edited_head_is_passed text :
  matchRepository (edited_head ++ text) = matchRepository text.
Proof.
  unfold edited_head, crlf.
  cbn [lit list_ascii_of_string app].
  repeat (rewrite matchRepository_skip by reflexivity).
  reflexivity.
Defined.

(** A body with CRLF line ends and blanks around the name. *)
Lemma repository_without_blanks_witness :
  option_map trim
    (matchRepository
       (edited_head ++ repositoryMarker ++ lit " " ++ lit "app" ++ lit "  "
        ++ edited_tail)) = Some (lit "app").
Proof.
  apply (repository_is_read_without_blanks edited_head (lit " ") (lit "app")
           (lit "  ") edited_tail edited_head_is_passed
           Examples.demo_repository_ok).
  - repeat constructor.
  - repeat constructor.
  - reflexivity.
Defined.


Lemma paged_scan_witness :
  findExistingIssueInProject github 1 7 5 (lit "app") demo_state =
  Returned None demo_state.
Proof.
  apply (paged_scan_is_the_whole_scan demo_store 7 5 (lit "app") 1 demo_state
           eq_refl eq_refl).
  apply Nat.lt_0_1.
Defined.

Lemma fetch_never_stops_witness :
  Stats.fetchAllFiles full_pages 1000 1 [] = None.
Proof.
  apply (fetch_never_stops_on_full_pages full_pages).
  intros page. unfold full_pages. rewrite repeat_length. apply le_n.
Defined.

Lemma total_changes_witness :
  Stats.totalChanges (Stats.computeStats [changed_file; changed_file]) =
  Float64.of_N 8.
Proof.
  rewrite (total_changes_are_additions_plus_deletions
             [changed_file; changed_file]).
  - reflexivity.
  - repeat constructor.
  - reflexivity.
Defined.

(** Two files with three additions and one deletion each. *)
Lemma stats_sums_witness :
  Stats.st_additions (Stats.computeStats [changed_file; changed_file]) =
  Float64.of_N 6 /\
  Stats.st_deletions (Stats.computeStats [changed_file; changed_file]) =
  Float64.of_N 2.
Proof.
  destruct (proj1 stats_are_sums_over_the_files
              [changed_file; changed_file] eq_refl eq_refl eq_refl)
    as [Ha [Hd _]].
  split; [exact Ha|exact Hd].
Defined.

(** Three runs while the listing fails, with a service that does not add
    an item twice. *)
Lemma outage_runs_witness :
  Nat.iter 3 (run 1 demo_input) guarded_store = run 1 demo_input guarded_store.
Proof.
  refine (proj1 (proj2 (outage_runs_add_at_most_one demo_input 1
                          guarded_store eq_refl eq_refl (le_n 1))) 3 _).
  repeat constructor.
Defined.

(** Three runs while the listing fails, with a service that adds an item
    at every request. *)
Lemma outage_items_witness :
  length (items (Nat.iter 3 (run 1 demo_input) outage_store)) = 3.
Proof.
  apply (outage_runs_add_an_item_each demo_input 1 outage_store team_efforts
           eq_refl eq_refl (le_n 1) eq_refl 3).
Defined.

End Scenarios.
